(** * Flow-conservation and layout engine of the 2d_flows editor

    A shallow embedding of the engine part of [src/components/FlowCanvas.tsx]
    (with the record types of [types.ts] and the initial state of [App.tsx]),
    followed by the properties of the engine that the specification states.

    Number model.  A JavaScript [number] is modelled by an exact rational
    ([Q]): sums, products, comparisons, [Math.max], [Math.min], [Math.abs],
    [Math.round] and [Math.floor] are the exact ones, and binary64 rounding is
    not modelled: a comparison that the program decides by a rounding error
    (such as [100 + 0.01 - 100 > 0.01]) follows the exact values here.
    Equality of numbers is therefore [Qeq] ([==]).  The one
    operation that leaves the finite numbers is a division by zero
    ([Infinity] or [NaN] in JavaScript); where the divisor is not a list
    length known to be positive, the model divides with [Js.div], which
    reports the zero divisor instead of a value: the program goes on with
    [NaN] values there, the model stops.  Where rounding decides a
    property, the arithmetic of the source is given again on binary64
    (module [B64], evaluated at given inputs) and on rationals with a
    rounding after every operation (module [Fl], for bounds at all
    inputs).

    State model.  The component reads [stages] and [flows] from its props and
    replaces them through [onStagesChange] / [onFlowsChange]; handlers are
    modelled as functions from the current [State] to the next one.
    [Date.now().toString()] is an input ([now]) of the handlers that call
    it. *)

From Stdlib Require Import QArith Qround Qabs Lqa Lia Floats.
From Stdlib Require Import String List DecimalString.
From stdpp Require Import base list.
Import ListNotations.

Local Open Scope Q_scope.
Local Open Scope string_scope.
Local Open Scope list_scope.

(** ** Data model ([types.ts]) *)

Module Stage.
Record t : Type := mk {
  id : string;
  name : string;
  position : Q;
  yPosition : option Q;
  color : option string
}.
End Stage.

Module Flow.
Record t : Type := mk {
  id : string;
  name : string;
  fromStageId : string;
  toStageId : string;
  value : Q;
  branchIndex : option Q;
  color : option string
}.

(** [{ ...flow, value: v }] *)
Definition with_value (flow : t) (v : Q) : t :=
  mk (id flow) (name flow) (fromStageId flow) (toStageId flow) v
     (branchIndex flow) (color flow).
End Flow.

(** The graph held by [App]: [useState] of [stages] and of [flows]. *)
Record State : Type := mkState {
  stages : list Stage.t;
  flows : list Flow.t
}.

(** [App.tsx]: one stage ['1'] named ['Start'] at position 0, no flow. *)
Definition initialState : State :=
  mkState [Stage.mk "1" "Start" 0 None (Some "#667eea")] [].

(** ** JavaScript helpers *)

Module Js.
Definition lt (a b : Q) : bool := negb (Qle_bool b a).
Definition gt (a b : Q) : bool := negb (Qle_bool a b).
Definition le (a b : Q) : bool := Qle_bool a b.

Definition Math_max (a b : Q) : Q := if Qle_bool a b then b else a.
Definition Math_min (a b : Q) : Q := if Qle_bool a b then a else b.
Definition Math_abs (a : Q) : Q := Qabs a.
Definition Math_floor (a : Q) : Q := inject_Z (Qfloor a).
(** [Math.round] rounds to the nearest integer, halves upwards. *)
Definition Math_round (a : Q) : Q := inject_Z (Qfloor (a + (1 # 2))).

(** [a / b] where [b] may be zero: [None] stands for the non-finite
    result ([Infinity], [-Infinity] or [NaN]) of JavaScript. *)
Definition div (a b : Q) : option Q :=
  if Qeq_bool b 0 then None else Some (a / b).

(** [array.length] as a number. *)
Definition len {A : Type} (l : list A) : Q := inject_Z (Z.of_nat (length l)).

(** [array.reduce((sum, f) => sum + g(f), 0)] *)
Definition sum {A : Type} (g : A -> Q) (l : list A) : Q :=
  fold_left (fun acc x => acc + g x) l 0.

(** [array.find(p)] *)
Definition find {A : Type} (p : A -> bool) (l : list A) : option A :=
  List.find p l.

(** [array.findIndex(p)]; [None] is the source's [-1]. *)
Fixpoint findIndex {A : Type} (p : A -> bool) (l : list A) : option nat :=
  match l with
  | [] => None
  | x :: l' => if p x then Some 0%nat else option_map S (findIndex p l')
  end.

(** [s || d] on an optional string: [undefined] and [''] are falsy. *)
Definition or_else (s : option string) (d : string) : string :=
  match s with
  | Some v => if (v =? "")%string then d else v
  | None => d
  end.

(** [n || 0] on an optional number. *)
Definition num_or_zero (n : option Q) : Q :=
  match n with Some v => v | None => 0 end.

(** Truthiness of an optional string, as in [if (parentStageId)]. *)
Definition truthy (s : option string) : bool :=
  match s with
  | Some v => negb (v =? "")%string
  | None => false
  end.

(** [array.sort(cmp)]: a stable sort; [a] stays before [b] unless
    [cmp a b > 0]. *)
Fixpoint sort_insert {A : Type} (cmp : A -> A -> Q) (x : A) (l : list A)
  : list A :=
  match l with
  | [] => [x]
  | y :: l' => if Qle_bool (cmp x y) 0 then x :: y :: l'
                 else y :: sort_insert cmp x l'
  end.

Definition sort {A : Type} (cmp : A -> A -> Q) (l : list A) : list A :=
  fold_right (sort_insert cmp) [] l.

(** [n.toString()] of a non-negative integer, as used in template
    strings. *)
Definition nat_toString (n : nat) : string :=
  NilEmpty.string_of_uint (Nat.to_uint n).
End Js.

(** ** Constants *)

Definition MIN_MARKER_HEIGHT : Q := 480.
Definition HEIGHT_SCALE : Q := 8.
Definition FLOW_SPACING : Q := 8.

Definition CANVAS_MIN_POSITION : Q := -10.
Definition CANVAS_MAX_POSITION : Q := 110.
Definition CANVAS_RANGE : Q := CANVAS_MAX_POSITION - CANVAS_MIN_POSITION.

Definition DEFAULT_COLOR : string := "#667eea".

(** ** Coordinate mapper

    In exact arithmetic, for a canvas width other than 0 (with a width of
    0 the program computes [x / 0], which is [Infinity] or [NaN]).  The
    binary64 and the rounded versions are [B64.getStageX],
    [B64.getPositionFromX], [Fl.getStageX] and [Fl.getPositionFromX]. *)

Definition getStageX (canvasWidth : Q) (position : Q) : Q :=
  let normalizedPosition := (position - CANVAS_MIN_POSITION) / CANVAS_RANGE in
  normalizedPosition * canvasWidth.

Definition getPositionFromX (canvasWidth : Q) (x : Q) : Q :=
  let normalizedX := x / canvasWidth in
  let position := normalizedX * CANVAS_RANGE + CANVAS_MIN_POSITION in
  Js.Math_max CANVAS_MIN_POSITION (Js.Math_min CANVAS_MAX_POSITION position).

Definition snapToTicker (position : Q) : Q :=
  let tickerPosition := Js.Math_round (position * 10) / 10 in
  Js.Math_max CANVAS_MIN_POSITION
    (Js.Math_min CANVAS_MAX_POSITION tickerPosition).

(** ** Flow conservation engine *)

Definition getIncomingFlowValue (stageId : string) (flowsToUse : list Flow.t)
  : Q :=
  let incomingFlows :=
    List.filter (fun f => (Flow.toStageId f =? stageId)%string) flowsToUse in
  if (length incomingFlows =? 0)%nat then 100
  else Js.sum Flow.value incomingFlows.

(** [flows] is the component's prop, read by the default argument of
    [getIncomingFlowValue]; [now] is [Date.now().toString()]. *)
Definition createFlowWithProportionalSplit (flows : list Flow.t) (now : string)
    (fromStageId toStageId : string) (existingFlows : list Flow.t)
    (flowColor : option string) : list Flow.t :=
  let incomingValue := getIncomingFlowValue fromStageId flows in
  let existingOutgoingFlows :=
    List.filter (fun f => (Flow.fromStageId f =? fromStageId)%string)
      existingFlows in
  let numberOfChildren := Js.len existingOutgoingFlows + 1 in
  let proportionalValue := incomingValue / numberOfChildren in
  let updatedFlows :=
    List.map (fun flow =>
      if (Flow.fromStageId flow =? fromStageId)%string
      then Flow.with_value flow proportionalValue
      else flow) existingFlows in
  let flowsFromSameStage := existingOutgoingFlows in
  let branchIndex := Js.len flowsFromSameStage in
  let newFlow :=
    Flow.mk now
      ("Flow " ++ Js.nat_toString (length existingFlows + 1))%string
      fromStageId toStageId proportionalValue (Some branchIndex)
      (Some (Js.or_else flowColor DEFAULT_COLOR)) in
  updatedFlows ++ [newFlow].

(** One iteration of [stages.forEach] in [balanceFlows], on the working
    copy [updatedFlows].  The test [Math.abs(...) > 0.01] is decided on the
    exact values; the program decides it on rounded ones
    ([B64.outOfBalance]), which differs when the exact difference is 0.01
    itself, as after the floor value 0.01 has been added to a balanced
    sum. *)
Definition balanceStage (updatedFlows : list Flow.t) (stage : Stage.t)
  : list Flow.t :=
  let incomingValue := getIncomingFlowValue (Stage.id stage) updatedFlows in
  let outgoingFlows :=
    List.filter (fun f => (Flow.fromStageId f =? Stage.id stage)%string)
      updatedFlows in
  if (0 <? length outgoingFlows)%nat then
    let currentOutgoingSum := Js.sum Flow.value outgoingFlows in
    if Js.gt (Js.Math_abs (currentOutgoingSum - incomingValue)) (1 # 100) then
      let proportionalValue := incomingValue / Js.len outgoingFlows in
      fold_left (fun (updatedFlows : list Flow.t) (flow : Flow.t) =>
        match Js.findIndex (fun f => (Flow.id f =? Flow.id flow)%string)
                updatedFlows with
        | Some index =>
            match updatedFlows !! index with
            | Some current =>
                <[index := Flow.with_value current proportionalValue]>
                  updatedFlows
            | None => updatedFlows
            end
        | None => updatedFlows
        end) outgoingFlows updatedFlows
    else updatedFlows
  else updatedFlows.

Definition balanceFlows (stages : list Stage.t) (flowsToBalance : list Flow.t)
  : list Flow.t :=
  fold_left balanceStage stages flowsToBalance.

(** [handleFlowUpdate] is modelled in the three steps of its body.  First
    the value that the edited flow receives: the percentage typed by the
    user, converted and clamped to the budget of the source stage. *)
Definition clampedFlowValue (flows : list Flow.t) (editingFlow : Flow.t) : Q :=
  let sourceStageId := Flow.fromStageId editingFlow in
  let incomingValue := getIncomingFlowValue sourceStageId flows in
  let actualFlowValue := (Flow.value editingFlow / 100) * incomingValue in
  Js.Math_max 0 (Js.Math_min actualFlowValue incomingValue).

(** Second, [updatedFlows] as it stands when [balanceFlows] is called: the
    edited flow replaced, the other flows of the same source redistributed.
    [None]: [scaleFactor] is not finite. *)
Definition firstRedistribution (flows : list Flow.t) (editingFlow : Flow.t)
  : option (list Flow.t) :=
  let sourceStageId := Flow.fromStageId editingFlow in
  let incomingValue := getIncomingFlowValue sourceStageId flows in
  let clampedFlowValue := clampedFlowValue flows editingFlow in
  let flowWithActualValue := Flow.with_value editingFlow clampedFlowValue in
  let updatedFlows :=
    List.map (fun f => if (Flow.id f =? Flow.id editingFlow)%string
                       then flowWithActualValue else f) flows in
  let outgoingFlows :=
    List.filter (fun f => (Flow.fromStageId f =? sourceStageId)%string)
      updatedFlows in
  if (1 <? length outgoingFlows)%nat then
    let otherFlows :=
      List.filter (fun f => negb (Flow.id f =? Flow.id editingFlow)%string)
        outgoingFlows in
    let otherFlowsSum := Js.sum Flow.value otherFlows in
    let remainingValue := Js.Math_max 0 (incomingValue - clampedFlowValue) in
    if (0 <? length otherFlows)%nat && Js.gt remainingValue 0 then
      match Js.div remainingValue otherFlowsSum with
      | Some scaleFactor =>
          Some (List.map (fun flow =>
                  if (Flow.fromStageId flow =? sourceStageId)%string
                     && negb (Flow.id flow =? Flow.id editingFlow)%string
                  then Flow.with_value flow (Flow.value flow * scaleFactor)
                  else flow) updatedFlows)
      | None => None
      end
    else if (0 <? length otherFlows)%nat && Js.le remainingValue 0 then
      Some (List.map (fun flow =>
              if (Flow.fromStageId flow =? sourceStageId)%string
                 && negb (Flow.id flow =? Flow.id editingFlow)%string
              then Flow.with_value flow (1 # 100)
              else flow) updatedFlows)
    else Some updatedFlows
  else Some updatedFlows.

(** Third, from [balanceFlows] to the list given to [onFlowsChange]. *)
Definition finalRedistribution (stages : list Stage.t) (editingFlow : Flow.t)
    (clampedFlowValue : Q) (updatedFlows : list Flow.t)
  : option (list Flow.t) :=
  let flowWithActualValue := Flow.with_value editingFlow clampedFlowValue in
  let updatedFlows := balanceFlows stages updatedFlows in
  let updatedFlows :=
    List.map (fun f => if (Flow.id f =? Flow.id editingFlow)%string
                       then flowWithActualValue else f) updatedFlows in
  let finalSourceStageId := Flow.fromStageId editingFlow in
  let finalIncomingValue :=
    getIncomingFlowValue finalSourceStageId updatedFlows in
  let finalOutgoingFlows :=
    List.filter (fun f => (Flow.fromStageId f =? finalSourceStageId)%string)
      updatedFlows in
  if (1 <? length finalOutgoingFlows)%nat then
    let finalOtherFlows :=
      List.filter (fun f => negb (Flow.id f =? Flow.id editingFlow)%string)
        finalOutgoingFlows in
    let finalOtherFlowsSum := Js.sum Flow.value finalOtherFlows in
    let finalRemainingValue :=
      Js.Math_max 0 (finalIncomingValue - clampedFlowValue) in
    if (0 <? length finalOtherFlows)%nat && Js.gt finalRemainingValue 0
       && Js.gt finalOtherFlowsSum 0 then
      match Js.div finalRemainingValue finalOtherFlowsSum with
      | Some finalScaleFactor =>
          Some (List.map (fun flow =>
                  if (Flow.fromStageId flow =? finalSourceStageId)%string
                     && negb (Flow.id flow =? Flow.id editingFlow)%string
                  then Flow.with_value flow
                         (Flow.value flow * finalScaleFactor)
                  else flow) updatedFlows)
      | None => None
      end
    else Some updatedFlows
  else Some updatedFlows.

(** [handleFlowUpdate], from the point where [editingFlow] is not null, up
    to the list given to [onFlowsChange].  [None]: a redistribution divided
    by zero. *)
Definition handleFlowUpdate (stages : list Stage.t) (flows : list Flow.t)
    (editingFlow : Flow.t) : option (list Flow.t) :=
  match firstRedistribution flows editingFlow with
  | Some updatedFlows =>
      finalRedistribution stages editingFlow
        (clampedFlowValue flows editingFlow) updatedFlows
  | None => None
  end.

(** [recalculateSiblingFlowValues].  The source recurses along the flows
    and does not return on a cyclic graph; [fuel] bounds the depth of the
    calls and [None] is "fuel exhausted". *)
Fixpoint recalculateSiblingFlowValues (fuel : nat) (parentStageId : string)
    (remainingFlows : list Flow.t) : option (list Flow.t) :=
  match fuel with
  | O => None
  | S fuel' =>
      let siblingFlows :=
        List.filter (fun f => (Flow.fromStageId f =? parentStageId)%string)
          remainingFlows in
      if (length siblingFlows =? 0)%nat then Some remainingFlows
      else
        let incomingValue :=
          getIncomingFlowValue parentStageId remainingFlows in
        let proportionalValue := incomingValue / Js.len siblingFlows in
        let updatedFlows :=
          List.map (fun flow =>
            if (Flow.fromStageId flow =? parentStageId)%string
            then Flow.with_value flow proportionalValue
            else flow) remainingFlows in
        fold_left (fun (updatedFlows : option (list Flow.t)) siblingFlow =>
          match updatedFlows with
          | Some updatedFlows =>
              recalculateSiblingFlowValues fuel' (Flow.toStageId siblingFlow)
                updatedFlows
          | None => None
          end) siblingFlows (Some updatedFlows)
  end.

(** [handleStageDelete]: the next graph, or [None] when the recursion of
    [recalculateSiblingFlowValues] exceeds [fuel]. *)
Definition handleStageDelete (fuel : nat) (st : State) (stageId : string)
  : option State :=
  let incomingFlows :=
    List.filter (fun f => (Flow.toStageId f =? stageId)%string) (flows st) in
  if (length incomingFlows =? 0)%nat then Some st
  else
    let incomingFlow :=
      Js.find (fun f => (Flow.toStageId f =? stageId)%string) (flows st) in
    let parentStageId := option_map Flow.fromStageId incomingFlow in
    let updatedStages :=
      List.filter (fun s => negb (Stage.id s =? stageId)%string) (stages st) in
    let updatedFlows :=
      List.filter (fun f => negb (Flow.fromStageId f =? stageId)%string
                            && negb (Flow.toStageId f =? stageId)%string)
        (flows st) in
    let updatedFlows :=
      match parentStageId with
      | Some parent =>
          if Js.truthy parentStageId
          then recalculateSiblingFlowValues fuel parent updatedFlows
          else Some updatedFlows
      | None => Some updatedFlows
      end in
    option_map (mkState updatedStages) updatedFlows.

(** [handleDisconnectParent] (defined in the stage render loop). *)
Definition handleDisconnectParent (fuel : nat) (st : State) (flowId : string)
  : option State :=
  match Js.find (fun f => (Flow.id f =? flowId)%string) (flows st) with
  | None => Some st
  | Some flow =>
      let parentStageId := Flow.fromStageId flow in
      let disconnectedStageId := Flow.toStageId flow in
      let updatedFlows :=
        List.filter (fun f => negb (Flow.id f =? flowId)%string) (flows st) in
      let updatedFlows :=
        if Js.truthy (Some parentStageId)
        then recalculateSiblingFlowValues fuel parentStageId updatedFlows
        else Some updatedFlows in
      let updatedFlows :=
        match updatedFlows with
        | Some updatedFlows =>
            if Js.truthy (Some disconnectedStageId)
            then recalculateSiblingFlowValues fuel disconnectedStageId
                   updatedFlows
            else Some updatedFlows
        | None => None
        end in
      option_map (mkState (stages st)) updatedFlows
  end.

(** ** Click handlers and layout, inside the component

    [canvasWidth], [canvasHeight] and [zoom] are component state;
    [generateSimilarColor] is the colour heuristic of the component, which
    the engine only passes on. *)

Section Component.

Variable canvasWidth canvasHeight zoom : Q.
Variable generateSimilarColor : string -> Q -> string.

(** [handleStageClick], as far as the graph is concerned.  [editingStage]
    and [selectedStageId] are the component state at the click. *)
Definition handleStageClick (now : string) (st : State)
    (editingStage : option Stage.t) (selectedStageId : option string)
    (stage : Stage.t) : State :=
  if match editingStage with
     | Some e => (Stage.id e =? Stage.id stage)%string
     | None => false
     end
  then st
  else
    match selectedStageId with
    | Some selected =>
        if Js.truthy selectedStageId
           && negb (selected =? Stage.id stage)%string then
          match Js.find (fun s => (Stage.id s =? selected)%string)
                  (stages st) with
          | Some selectedStage =>
              if Js.gt (Stage.position stage) (Stage.position selectedStage)
              then
                let flowColor := Js.or_else (Stage.color stage) DEFAULT_COLOR in
                let updatedFlows :=
                  createFlowWithProportionalSplit (flows st) now selected
                    (Stage.id stage) (flows st) (Some flowColor) in
                let updatedFlows := balanceFlows (stages st) updatedFlows in
                mkState (stages st) updatedFlows
              else st
          | None => st
          end
        else st
    | None => st
    end.

(** [handleCanvasClick], after the early returns for panning, clicks inside
    a modal and text selection.  [clickX] and [clickY] are the click
    coordinates after the pan and zoom correction. *)
Definition handleCanvasClick (now : string) (st : State)
    (isCreatingBranch : bool) (selectedStageId : option string)
    (clickX clickY : Q) : State :=
  if negb isCreatingBranch || negb (Js.truthy selectedStageId) then st
  else
    match selectedStageId with
    | None => st
    | Some selected =>
    match Js.find (fun s => (Stage.id s =? selected)%string) (stages st) with
    | None => st
    | Some fromStage =>
        let fromStageX := getStageX canvasWidth (Stage.position fromStage) in
        let EPSILON_X := 1 in
        if Js.le clickX (fromStageX + EPSILON_X) then st
        else
          let newPosition := getPositionFromX canvasWidth clickX in
          let newPosition := snapToTicker newPosition in
          let snappedX := getStageX canvasWidth newPosition in
          let adjusted : option Q :=
            if Js.le snappedX (fromStageX + EPSILON_X) then
              let fromPosition := Stage.position fromStage in
              let nextTicker :=
                Js.Math_floor (fromPosition * 10) / 10 + (1 # 10) in
              let newPosition := Js.Math_min nextTicker CANVAS_MAX_POSITION in
              let nextTickerX := getStageX canvasWidth newPosition in
              if Js.le nextTickerX (fromStageX + EPSILON_X) then None
              else Some newPosition
            else Some newPosition in
          match adjusted with
          | None => st
          | Some newPosition =>
              let distanceToSource := Js.Math_abs (clickX - fromStageX) in
              let tooClose :=
                match Js.div 10 zoom with
                | Some hitbox => Js.lt distanceToSource hitbox
                | None => true (* 10 / 0 is Infinity *)
                end in
              if tooClose then st
              else
                let newYPosition := clickY in
                let parentStage :=
                  Js.find (fun s => (Stage.id s =? selected)%string)
                    (stages st) in
                let parentColor :=
                  Js.or_else
                    (match parentStage with
                     | Some p => Stage.color p
                     | None => None
                     end) DEFAULT_COLOR in
                let existingChildren :=
                  List.filter (fun s =>
                    match Js.find (fun f =>
                            (Flow.toStageId f =? Stage.id s)%string
                            && (Flow.fromStageId f =? selected)%string)
                            (flows st) with
                    | Some _ => true
                    | None => false
                    end) (stages st) in
                let childIndex := Js.len existingChildren in
                let childColor := generateSimilarColor parentColor childIndex in
                let newStage :=
                  Stage.mk now
                    ("Stage " ++ Js.nat_toString (length (stages st) + 1))%string
                    newPosition (Some newYPosition) (Some childColor) in
                let updatedFlows :=
                  createFlowWithProportionalSplit (flows st) now selected
                    (Stage.id newStage) (flows st) (Some childColor) in
                let updatedFlows := balanceFlows (stages st) updatedFlows in
                mkState (stages st ++ [newStage]) updatedFlows
          end
    end
    end.

(** *** Stacking layout *)

Definition getStageY (stage : Stage.t) : Q :=
  match Stage.yPosition stage with
  | Some y => y
  | None => canvasHeight / 2
  end.

(** The two [for] loops of [getNodeHeight]: index [i] runs over
    [0 .. length - 1], spacing is added while [i < length - 1]. *)
Definition stackedHeight (stackedFlows : list Flow.t) : Q :=
  fold_left (fun (height : Q) (i : nat) =>
    match stackedFlows !! i with
    | Some flow =>
        let flowWidth := Js.Math_max 20 (Flow.value flow * HEIGHT_SCALE) in
        let height := height + flowWidth in
        if (i + 1 <? length stackedFlows)%nat then height + FLOW_SPACING
        else height
    | None => height
    end) (seq 0 (length stackedFlows)) 0.

Definition getNodeHeight (flows : list Flow.t) (stageId : string) : Q :=
  let incomingFlows :=
    List.filter (fun f => (Flow.toStageId f =? stageId)%string) flows in
  let outgoingFlows :=
    List.filter (fun f => (Flow.fromStageId f =? stageId)%string) flows in
  let incomingHeight := stackedHeight incomingFlows in
  let outgoingHeight := stackedHeight outgoingFlows in
  let totalHeight :=
    if (length incomingFlows =? 0)%nat then outgoingHeight
    else incomingHeight in
  if (length incomingFlows =? 0)%nat && (length outgoingFlows =? 0)%nat
  then MIN_MARKER_HEIGHT
  else totalHeight.

(** [for (let i = 0; i < index; i++) offset += siblings[i].value * 8 + 8];
    an index of [-1] ([None]) runs the loop zero times. *)
Definition offsetBefore (siblings : list Flow.t) (index : option nat) : Q :=
  fold_left (fun (offset : Q) (i : nat) =>
    match siblings !! i with
    | Some f => offset + (Flow.value f * HEIGHT_SCALE + FLOW_SPACING)
    | None => offset
    end) (seq 0 (default 0%nat index)) 0.

(** Incoming flows of one target, ordered by the vertical position of
    their source markers. *)
Definition flowsToSameTarget (st : State) (targetId : string) : list Flow.t :=
  let annotated :=
    List.map (fun f =>
      let fromStage :=
        Js.find (fun s => (Stage.id s =? Flow.fromStageId f)%string)
          (stages st) in
      (f, match fromStage with Some s => getStageY s | None => 0 end))
      (List.filter (fun f => (Flow.toStageId f =? targetId)%string)
         (flows st)) in
  List.map fst (Js.sort (fun a b => snd a - snd b) annotated).

(** The props handed to [FlowPath] for one rendered flow. *)
Record FlowPathProps : Type := mkFlowPathProps {
  fromX : Q;
  fromY : Q;
  toX : Q;
  toY : Q;
  width : Q;
  pathColor : string;
  label : string;
  pathValue : Q
}.

(** Body of [flows.map(flow => ...)] in the render; [None] is the
    source's [return null]. *)
Definition renderFlow (st : State) (flow : Flow.t) : option FlowPathProps :=
  let fromStage :=
    Js.find (fun s => (Stage.id s =? Flow.fromStageId flow)%string)
      (stages st) in
  let toStage :=
    Js.find (fun s => (Stage.id s =? Flow.toStageId flow)%string)
      (stages st) in
  match fromStage with
  | None => None
  | Some fromStage =>
  match toStage with
  | None => None
  | Some toStage =>
      let fromX := getStageX canvasWidth (Stage.position fromStage) in
      let toX := getStageX canvasWidth (Stage.position toStage) in
      let fromY := getStageY fromStage in
      let toY := getStageY toStage in
      let fromNodeHeight := getNodeHeight (flows st) (Stage.id fromStage) in
      let toNodeHeight := getNodeHeight (flows st) (Stage.id toStage) in
      let fromNodeTop := fromY - fromNodeHeight / 2 in
      let toNodeTop := toY - toNodeHeight / 2 in
      let flowWidth := Js.Math_max 20 (Flow.value flow * HEIGHT_SCALE) in
      let flowsFromSameSource :=
        Js.sort (fun a b => Js.num_or_zero (Flow.branchIndex a)
                            - Js.num_or_zero (Flow.branchIndex b))
          (List.filter
             (fun f => (Flow.fromStageId f =? Flow.fromStageId flow)%string)
             (flows st)) in
      let currentIndex :=
        Js.findIndex (fun f => (Flow.id f =? Flow.id flow)%string)
          flowsFromSameSource in
      let sourceOffset := offsetBefore flowsFromSameSource currentIndex in
      let sourceFlowCenter := fromNodeTop + sourceOffset + flowWidth / 2 in
      let sameTarget := flowsToSameTarget st (Flow.toStageId flow) in
      let targetIndex :=
        Js.findIndex (fun f => (Flow.id f =? Flow.id flow)%string)
          sameTarget in
      let targetOffset := offsetBefore sameTarget targetIndex in
      let targetFlowCenter := toNodeTop + targetOffset + flowWidth / 2 in
      let exitPointX := fromX + 5 in
      let entryPointX := toX - 5 in
      let flowColor := Js.or_else (Flow.color flow) DEFAULT_COLOR in
      Some (mkFlowPathProps exitPointX sourceFlowCenter entryPointX
              targetFlowCenter flowWidth flowColor (Flow.name flow)
              (Flow.value flow))
  end
  end.

(** The flow layer of the render: one entry per flow, [None] where
    nothing is drawn. *)
Definition renderFlows (st : State) : list (option FlowPathProps) :=
  List.map (renderFlow st) (flows st).

(** [incomingFlows] and [incomingFlowPositions] handed to the
    [StageMarker] of [stage]. *)
Definition incomingFlowsOf (st : State) (stage : Stage.t) : list Flow.t :=
  List.filter (fun f => (Flow.toStageId f =? Stage.id stage)%string)
    (flows st).

Definition incomingFlowPositions (st : State) (stage : Stage.t)
  : list (string * Q) :=
  let stageY := getStageY stage in
  let nodeHeight := getNodeHeight (flows st) (Stage.id stage) in
  List.map (fun flow =>
    let sameTarget := flowsToSameTarget st (Stage.id stage) in
    let targetIndex :=
      Js.findIndex (fun f => (Flow.id f =? Flow.id flow)%string) sameTarget in
    let flowWidth := Js.Math_max 20 (Flow.value flow * HEIGHT_SCALE) in
    let targetOffset := offsetBefore sameTarget targetIndex in
    let toNodeTop := stageY - nodeHeight / 2 in
    let flowY := toNodeTop + targetOffset + flowWidth / 2 in
    (Flow.id flow, flowY)) (incomingFlowsOf st stage).

(** ** Engine operations as the user triggers them *)

Inductive Op : Type :=
| BranchToStage (selected target now : string)
| BranchToCanvas (selected : string) (clickX clickY : Q) (now : string)
| Rebalance
| ManualEdit (flowId : string) (percent : Q)
| DeleteStage (stageId : string)
| DisconnectFlow (flowId : string).

(** One operation on the graph.  [None]: the call does not produce a
    finite graph within [fuel] nested calls: the recursion is deeper than
    [fuel], or [handleFlowUpdate] divided by zero.  In the second case the
    program stores [NaN] values and the session goes on; [run] follows a
    session only as long as all values are finite. *)
Definition applyOp (fuel : nat) (st : State) (op : Op) : option State :=
  match op with
  | BranchToStage selected target now =>
      match Js.find (fun s => (Stage.id s =? target)%string) (stages st) with
      | Some stage => Some (handleStageClick now st None (Some selected) stage)
      | None => Some st
      end
  | BranchToCanvas selected clickX clickY now =>
      Some (handleCanvasClick now st true (Some selected) clickX clickY)
  | Rebalance => Some (mkState (stages st) (balanceFlows (stages st) (flows st)))
  | ManualEdit flowId percent =>
      match Js.find (fun f => (Flow.id f =? flowId)%string) (flows st) with
      | Some flow =>
          option_map (mkState (stages st))
            (handleFlowUpdate (stages st) (flows st)
               (Flow.with_value flow percent))
      | None => Some st
      end
  | DeleteStage stageId => handleStageDelete fuel st stageId
  | DisconnectFlow flowId => handleDisconnectParent fuel st flowId
  end.

Fixpoint run (fuel : nat) (st : State) (ops : list Op) : option State :=
  match ops with
  | [] => Some st
  | op :: ops' =>
      match applyOp fuel st op with
      | Some st' => run fuel st' ops'
      | None => None
      end
  end.

(** Graphs reachable from the initial single-root state. *)
Definition reachable (st : State) : Prop :=
  exists (fuel : nat) (ops : list Op), run fuel initialState ops = Some st.

End Component.

(** ** The conservation invariant (spec, data model) *)

(** [In(s)]: sum of incoming values, or 100 without incoming flows;
    [Out(s)]: sum of outgoing values. *)
Definition In_ (s : string) (fl : list Flow.t) : Q :=
  getIncomingFlowValue s fl.

Definition Out_ (s : string) (fl : list Flow.t) : Q :=
  Js.sum Flow.value
    (List.filter (fun f => (Flow.fromStageId f =? s)%string) fl).

Definition conserved_at (s : string) (fl : list Flow.t) : Prop :=
  0 < Out_ s fl -> Qabs (Out_ s fl - In_ s fl) <= 1 # 100.

Definition conservation (st : State) : Prop :=
  forall s : Stage.t, In s (stages st) -> conserved_at (Stage.id s) (flows st).

(** ** More of the component and of its callers *)

(** *** Ticker axis *)

Record Ticker : Type := mkTicker {
  tickerPosition : Q;
  isMajor : bool
}.

(** [getTickerPositions]: [for (let i = -100; i <= 1100; i += 1)], with
    [position = i / 10] and [isMajor = (i % 10 === 0)]; [%] is the
    remainder that takes the sign of [i]. *)
Definition getTickerPositions : list Ticker :=
  List.map (fun k : nat =>
    let i := (-100 + Z.of_nat k)%Z in
    let position := inject_Z i / 10 in
    let isMajor := (Z.rem i 10 =? 0)%Z in
    mkTicker position isMajor) (seq 0 1201).

(** *** Opening the flow editor *)

(** [handleFlowClick]: the next [selectedFlowId] and [editingFlow].  A
    click on the flow that is being edited, or on an unknown flow, changes
    nothing; otherwise the flow is selected and its value is shown as a
    percentage of the incoming value of its source stage. *)
Definition handleFlowClick (flows : list Flow.t)
    (selectedFlowId : option string) (editingFlow : option Flow.t)
    (flowId : string) : option string * option Flow.t :=
  let alreadyOpen :=
    match selectedFlowId, editingFlow with
    | Some sel, Some e => (sel =? flowId)%string && (Flow.id e =? flowId)%string
    | _, _ => false
    end in
  if alreadyOpen then (selectedFlowId, editingFlow)
  else
    match Js.find (fun f => (Flow.id f =? flowId)%string) flows with
    | Some flow =>
        let parentIncomingValue :=
          getIncomingFlowValue (Flow.fromStageId flow) flows in
        let percentageValue :=
          if Js.gt parentIncomingValue 0
          then (Flow.value flow / parentIncomingValue) * 100
          else 0 in
        (Some flowId, Some (Flow.with_value flow percentageValue))
    | None => (selectedFlowId, editingFlow)
    end.

(** *** Dragging a stage *)

(** [getMinXForStage] *)
Definition getMinXForStage (_stageId : string) : Q := 0.

(** The position that [StageMarker] passes to [onDrag] on a mouse move:
    the start position plus the horizontal movement as a percentage of the
    canvas width, kept between [minX] (as a percentage) and 100.  [None]:
    the canvas width is zero and the quotients are not finite. *)
Definition markerDragPosition (canvasWidth minX dragStartPosition deltaX : Q)
  : option Q :=
  match Js.div deltaX canvasWidth, Js.div minX canvasWidth with
  | Some movedFraction, Some minFraction =>
      let deltaPosition := movedFraction * 100 in
      let newPosition := dragStartPosition + deltaPosition in
      let minPosition := minFraction * 100 in
      let newPosition := Js.Math_max minPosition newPosition in
      let newPosition := Js.Math_min 100 newPosition in
      Some newPosition
  | _, _ => None
  end.

(** [handleStageDrag]: the stages given to [onStagesChangeNoHistory]. *)
Definition handleStageDrag (stages : list Stage.t) (stageId : string)
    (newPosition newYPosition : Q) : list Stage.t :=
  let snappedPosition := snapToTicker newPosition in
  List.map (fun s =>
    if (Stage.id s =? stageId)%string
    then Stage.mk (Stage.id s) (Stage.name s) snappedPosition
           (Some newYPosition) (Stage.color s)
    else s) stages.

(** A mouse move of a dragged marker, from [StageMarker] through
    [handleStageDrag]. *)
Definition dragStage (canvasWidth : Q) (st : State) (stage : Stage.t)
    (dragStartPosition dragStartYPosition deltaX deltaY : Q) : option State :=
  match markerDragPosition canvasWidth (getMinXForStage (Stage.id stage))
          dragStartPosition deltaX with
  | Some newPosition =>
      let newYPosition := dragStartYPosition + deltaY in
      Some (mkState
              (handleStageDrag (stages st) (Stage.id stage) newPosition
                 newYPosition)
              (flows st))
  | None => None
  end.

(** *** History and undo ([App.tsx]) *)

(** [historyRef] and [historyIndexRef]; the index starts at -1.  The deep
    copy [JSON.parse(JSON.stringify(x))] of a graph is the graph itself. *)
Record History : Type := mkHistory {
  entries : list State;
  historyIndex : Z
}.


(** [saveToHistory] *)
Definition saveToHistory (h : History) (current : State) : History :=
  let newState := current in
  let kept :=
    if (historyIndex h <? Z.of_nat (length (entries h)) - 1)%Z
    then take (Z.to_nat (historyIndex h + 1)) (entries h)
    else entries h in
  let pushed := kept ++ [newState] in
  if (50 <? length pushed)%nat
  then
    let shifted := drop 1 pushed in
    mkHistory shifted (Z.of_nat (length shifted) - 1)
  else mkHistory pushed (Z.of_nat (length pushed) - 1).

(** [canUndo] as set by [saveToHistory] and [handleUndo]. *)
Definition canUndo (h : History) : bool := (0 <? historyIndex h)%Z.

(** The state of [App]: the graph and its history. *)
Record App : Type := mkApp {
  graph : State;
  history : History
}.

(** [handleUndo].  The index is decremented before the entry is read; an
    index outside the entries makes the read fail and leaves the graph as
    it is. *)
Definition handleUndo (app : App) : App :=
  if (0 <? historyIndex (history app))%Z then
    let index := (historyIndex (history app) - 1)%Z in
    let h := mkHistory (entries (history app)) index in
    match entries (history app) !! Z.to_nat index with
    | Some previousState => mkApp previousState h
    | None => mkApp (graph app) h
    end
  else app.



Definition handleStagesChangeNoHistory (app : App)
    (newStages : list Stage.t) : App :=
  mkApp (mkState newStages (flows (graph app))) (history app).

(** A handler of the canvas that calls [onStagesChange] and then
    [onFlowsChange] in one event ([handleCanvasClick],
    [handleStageDelete]): both callbacks were created with the graph of the
    last render, so both save that graph. *)
Definition changeStagesAndFlows (app : App) (next : State) : App :=
  mkApp next
    (saveToHistory (saveToHistory (history app) (graph app)) (graph app)).

(** ** Binary64 arithmetic

    A JavaScript [number] is an IEEE 754 binary64 value.  The development
    above computes with exact rationals, so that sums and quotients can be
    reasoned about; where the difference between the two matters, the
    arithmetic of the source is given a second time: in [B64] on binary64
    itself, for evaluation at given inputs, and in [Fl] on rationals with an
    explicit rounding [fl] after every operation, for bounds that hold for
    all inputs. *)

Module B64.

Definition CANVAS_MIN_POSITION : float := (-10)%float.
Definition CANVAS_MAX_POSITION : float := 110%float.
Definition CANVAS_RANGE : float :=
  (CANVAS_MAX_POSITION - CANVAS_MIN_POSITION)%float.

(** [Math.max] and [Math.min] of two numbers: [NaN] if either is [NaN],
    and [+0] above [-0]. *)
Definition Math_max (a b : float) : float :=
  if (PrimFloat.is_nan a || PrimFloat.is_nan b)%bool then PrimFloat.nan
  else if PrimFloat.ltb a b then b
  else if PrimFloat.ltb b a then a
  else if PrimFloat.get_sign a then b else a.

Definition Math_min (a b : float) : float :=
  if (PrimFloat.is_nan a || PrimFloat.is_nan b)%bool then PrimFloat.nan
  else if PrimFloat.ltb a b then a
  else if PrimFloat.ltb b a then b
  else if PrimFloat.get_sign a then a else b.

Definition getStageX (canvasWidth : float) (position : float) : float :=
  let normalizedPosition :=
    ((position - CANVAS_MIN_POSITION) / CANVAS_RANGE)%float in
  (normalizedPosition * canvasWidth)%float.

Definition getPositionFromX (canvasWidth : float) (x : float) : float :=
  let normalizedX := (x / canvasWidth)%float in
  let position := (normalizedX * CANVAS_RANGE + CANVAS_MIN_POSITION)%float in
  Math_max CANVAS_MIN_POSITION (Math_min CANVAS_MAX_POSITION position).

(** [getTickerPositions]: the position [i / 10] of the ticker of index
    [k], for which [i = -100 + k]. *)
Definition tickerPosition (k : nat) : float :=
  let i := (PrimFloat.of_uint63 (Uint63.of_Z (Z.of_nat k)) - 100)%float in
  (i / 10)%float.

(** [handleFlowUpdate]: the value given to the edited flow, from the
    percentage typed by the user and the incoming value of the source. *)
Definition clampedFlowValue (percent incomingValue : float) : float :=
  let actualFlowValue := (percent / 100 * incomingValue)%float in
  Math_max 0 (Math_min actualFlowValue incomingValue).

(** [handleFlowUpdate], for a source with more than one outgoing flow:
    the values that the first redistribution gives to the other outgoing
    flows of the source, from their current values;
    [0x1.47ae147ae147bp-7] is the number that the literal [0.01] denotes. *)
Definition redistributeOthers (incomingValue clampedFlowValue : float)
    (otherValues : list float) : list float :=
  let otherFlowsSum :=
    fold_left (fun sum value => (sum + value)%float) otherValues 0%float in
  let remainingValue :=
    Math_max 0 (incomingValue - clampedFlowValue)%float in
  if (0 <? length otherValues)%nat && PrimFloat.ltb 0 remainingValue then
    let scaleFactor := (remainingValue / otherFlowsSum)%float in
    List.map (fun value => (value * scaleFactor)%float) otherValues
  else if (0 <? length otherValues)%nat && PrimFloat.leb remainingValue 0
  then List.map (fun _ => 0x1.47ae147ae147bp-7%float) otherValues
  else otherValues.

(** [balanceFlows]: the test
    [Math.abs(currentOutgoingSum - incomingValue) > 0.01]. *)
Definition outOfBalance (currentOutgoingSum incomingValue : float) : bool :=
  PrimFloat.ltb 0x1.47ae147ae147bp-7
    (PrimFloat.abs (currentOutgoingSum - incomingValue)%float).

End B64.

Module Fl.

(** Half the distance between 1 and the next binary64 number: the
    relative error of one rounding to nearest, when the result neither
    overflows nor falls below the normal range. *)
Definition unit_roundoff : Q := 1 # 9007199254740992.

Definition rounds_to_nearest (fl : Q -> Q) : Prop :=
  forall x : Q, Qabs (fl x - x) <= unit_roundoff * Qabs x.

Definition getStageX (fl : Q -> Q) (canvasWidth : Q) (position : Q) : Q :=
  let normalizedPosition :=
    fl (fl (position - CANVAS_MIN_POSITION) / CANVAS_RANGE) in
  fl (normalizedPosition * canvasWidth).

Definition getPositionFromX (fl : Q -> Q) (canvasWidth : Q) (x : Q) : Q :=
  let normalizedX := fl (x / canvasWidth) in
  let position := fl (fl (normalizedX * CANVAS_RANGE) + CANVAS_MIN_POSITION) in
  Js.Math_max CANVAS_MIN_POSITION (Js.Math_min CANVAS_MAX_POSITION position).

End Fl.

(** ** Vocabulary of the properties *)

(** *** Flows of a stage, frames *)

Definition outgoingOf (stageId : string) (l : list Flow.t) : list Flow.t :=
  List.filter (fun f => (Flow.fromStageId f =? stageId)%string) l.

Definition incomingOf (stageId : string) (l : list Flow.t) : list Flow.t :=
  List.filter (fun f => (Flow.toStageId f =? stageId)%string) l.

(** Two flows that agree on everything except possibly [value]. *)
Definition same_frame (f g : Flow.t) : Prop :=
  Flow.id f = Flow.id g
  /\ Flow.name f = Flow.name g
  /\ Flow.fromStageId f = Flow.fromStageId g
  /\ Flow.toStageId f = Flow.toStageId g
  /\ Flow.branchIndex f = Flow.branchIndex g
  /\ Flow.color f = Flow.color g.

(** The map that sets the value of every flow leaving [stageId], as
    written in [createFlowWithProportionalSplit] and in
    [recalculateSiblingFlowValues]. *)
Definition setOutgoing (stageId : string) (v : Q) (l : list Flow.t)
  : list Flow.t :=
  List.map (fun flow =>
    if (Flow.fromStageId flow =? stageId)%string
    then Flow.with_value flow v else flow) l.

(** Two lists of flows agree on every value up to [eps]. *)
Definition values_within (eps : Q) (l k : list Flow.t) : Prop :=
  Forall2 (fun a b => Qabs (Flow.value a - Flow.value b) <= eps) l k.

(** The ids and values of the flows of a graph, values in lowest terms. *)
Definition flowValues (st : State) : list (string * Q) :=
  List.map (fun f => (Flow.id f, Qred (Flow.value f))) (flows st).

(** *** Balance *)

(** A stage is balanced in a list of flows when it has no outgoing flow or
    its outgoing sum is within 0.01 of its incoming value: the condition
    under which [balanceFlows] leaves the stage alone. *)
Definition balanced_at (s : string) (fl : list Flow.t) : Prop :=
  outgoingOf s fl = [] \/ Qabs (Out_ s fl - In_ s fl) <= 1 # 100.

(** *** Manual edit *)

(** The quantities of the first redistribution of [handleFlowUpdate]. *)
Definition editOutgoing (flows : list Flow.t) (editingFlow : Flow.t)
  : list Flow.t :=
  outgoingOf (Flow.fromStageId editingFlow)
    (List.map (fun f => if (Flow.id f =? Flow.id editingFlow)%string
                        then Flow.with_value editingFlow
                               (clampedFlowValue flows editingFlow)
                        else f) flows).

Definition editOthers (flows : list Flow.t) (editingFlow : Flow.t)
  : list Flow.t :=
  List.filter (fun f => negb (Flow.id f =? Flow.id editingFlow)%string)
    (editOutgoing flows editingFlow).

Definition editRemaining (flows : list Flow.t) (editingFlow : Flow.t) : Q :=
  Js.Math_max 0
    (getIncomingFlowValue (Flow.fromStageId editingFlow) flows
     - clampedFlowValue flows editingFlow).

(** The first redistribution divides by a zero sum of the other flows. *)
Definition dividesByZero (flows : list Flow.t) (editingFlow : Flow.t) : Prop :=
  (1 < length (editOutgoing flows editingFlow))%nat
  /\ editOthers flows editingFlow <> []
  /\ 0 < editRemaining flows editingFlow
  /\ Js.sum Flow.value (editOthers flows editingFlow) == 0.

(** The spec's account of a zero sibling sum, at one edit: if the other
    flows of the source sum to zero, the first redistribution leaves each of
    them at the floor 0.01, and no redistribution divides by zero. *)
Definition zero_sum_floored (flows : list Flow.t) (editingFlow : Flow.t)
  : Prop :=
  (editOthers flows editingFlow <> [] ->
   Js.sum Flow.value (editOthers flows editingFlow) == 0 ->
   exists updatedFlows : list Flow.t,
     firstRedistribution flows editingFlow = Some updatedFlows
     /\ forall f : Flow.t,
          In f updatedFlows ->
          Flow.fromStageId f = Flow.fromStageId editingFlow ->
          Flow.id f <> Flow.id editingFlow ->
          Flow.value f == 1 # 100)
  /\ ~ dividesByZero flows editingFlow.

(** *** Acyclic graphs, deletion *)

(** The flow graph is acyclic: the stages can be ranked so that every flow
    leads to a stage of strictly smaller rank. *)
Definition ranked (rank : string -> nat) (l : list Flow.t) : Prop :=
  Forall (fun f => (rank (Flow.toStageId f) < rank (Flow.fromStageId f))%nat) l.

Definition acyclic (l : list Flow.t) : Prop :=
  exists rank : string -> nat, ranked rank l.

(** The flows that [handleStageDelete] keeps before recalculating. *)
Definition notTouching (stageId : string) (l : list Flow.t) : list Flow.t :=
  List.filter (fun f => negb (Flow.fromStageId f =? stageId)%string
                        && negb (Flow.toStageId f =? stageId)%string) l.

(** *** Layout *)

(** The spec's formula: the widths [max(minWidth, value * scale)] of the
    stacked flows plus [spacing * (count - 1)]. *)
Definition flowWidth (f : Flow.t) : Q :=
  Js.Math_max 20 (Flow.value f * HEIGHT_SCALE).

Definition sumWidths (l : list Flow.t) : Q :=
  fold_right (fun f acc => flowWidth f + acc) 0 l.

Definition stackFormula (l : list Flow.t) : Q :=
  sumWidths l + FLOW_SPACING * (Js.len l - 1).

Definition nodeHeight_spec (flows : list Flow.t) (stageId : string) : Q :=
  match incomingOf stageId flows, outgoingOf stageId flows with
  | _ :: _, _ => stackFormula (incomingOf stageId flows)
  | [], _ :: _ => stackFormula (outgoingOf stageId flows)
  | [], [] => MIN_MARKER_HEIGHT
  end.

(** A flow is hanging in a graph when no stage has its [toStageId]. *)
Definition hanging (st : State) (flow : Flow.t) : Prop :=
  forall s : Stage.t, In s (stages st) -> Stage.id s <> Flow.toStageId flow.

(** A graph with a hanging flow [b] and two rendered flows [a], [c]. *)
Definition st_with_hanging : State :=
  mkState [Stage.mk "1" "Start" 0 None None;
           Stage.mk "2" "Stage 2" 20 None None]
    [Flow.mk "a" "Flow 1" "1" "2" 50 (Some 0) None;
     Flow.mk "b" "Flow 2" "1" "9" 50 (Some 1) None;
     Flow.mk "c" "Flow 3" "1" "2" 10 None None].

(** *** Operation sequences from the initial state *)

Definition rootStage : Stage.t := Stage.mk "1" "Start" 0 None (Some "#667eea").

(** Three branches from the root, then the first flow edited to 100%. *)
Definition ops_edit_to_full : list Op :=
  [BranchToCanvas "1" 300 400 "A"; BranchToCanvas "1" 300 500 "B";
   BranchToCanvas "1" 300 600 "C"; ManualEdit "A" 100].

(** A chain [1 -> 2 -> 4 -> 5] with a sibling [3] of [2]; then [2] is
    deleted. *)
Definition ops_delete_inner : list Op :=
  [BranchToCanvas "1" 300 400 "2"; BranchToCanvas "1" 300 500 "3";
   BranchToCanvas "2" 500 400 "4"; BranchToCanvas "4" 700 400 "5";
   DeleteStage "2"].

(** [1 -> P], [P -> A -> C], [P -> B], and a link [B -> A] to the stage
    [A] that was created before [B]. *)
Definition ops_linked : list Op :=
  [BranchToCanvas "1" 300 400 "P"; BranchToCanvas "P" 700 400 "A";
   BranchToCanvas "A" 900 400 "C"; BranchToCanvas "P" 500 500 "B";
   BranchToStage "B" "A" "L"].

(** Two branches from the root, the first flow edited to 0%. *)
Definition ops_edit_to_zero : list Op :=
  [BranchToCanvas "1" 300 400 "A"; BranchToCanvas "1" 300 500 "B";
   ManualEdit "A" 0].

(** *** Self-loops, unique ids *)

(** No flow leaves [s] and enters [s]. *)
Definition no_self_loop (s : string) (l : list Flow.t) : Prop :=
  forall f : Flow.t, In f l -> Flow.fromStageId f = s -> Flow.toStageId f <> s.

(** The flows of a list have pairwise different ids. *)
Definition unique_ids (l : list Flow.t) : Prop :=
  List.NoDup (List.map Flow.id l).

(** *** Flows that a recalculation leaves alone *)

(** [g] is [f] up to its value, and is [f] itself when the source of [f]
    has rank at least [bound]. *)
Definition kept_above (rank : string -> nat) (bound : nat) (f g : Flow.t)
  : Prop :=
  same_frame f g
  /\ ((bound <= rank (Flow.fromStageId f))%nat -> g = f).

(** *** Flows that run left to right, cycles *)

(** Every flow of [l] leads to a stage further right, for the positions
    [pos] of the stage ids. *)
Definition rightward (pos : string -> Q) (l : list Flow.t) : Prop :=
  Forall (fun f => pos (Flow.fromStageId f) < pos (Flow.toStageId f)) l.

(** The number of flows of [l] that end to the right of [s]. *)
Definition flowsEndingRightOf (pos : string -> Q) (l : list Flow.t)
    (s : string) : nat :=
  length (List.filter (fun f => Js.lt (pos s) (pos (Flow.toStageId f))) l).

(** [reaches l a b]: the flows of [l] lead from stage [a] to stage [b] in
    one step or more. *)
Inductive reaches (l : list Flow.t) : string -> string -> Prop :=
| reaches_flow (f : Flow.t) :
    In f l -> reaches l (Flow.fromStageId f) (Flow.toStageId f)
| reaches_next (f : Flow.t) (c : string) :
    In f l -> reaches l (Flow.toStageId f) c ->
    reaches l (Flow.fromStageId f) c.

Definition on_cycle (s : string) (l : list Flow.t) : Prop := reaches l s s.

(** A graph with a cycle, built by the handlers: two branches to the
    canvas ([1 -> A], [A -> B]), a drag of stage [A] to the right of stage
    [B], and a link from [B] to [A]. *)
Definition drag_then_link : option State :=
  let click := handleCanvasClick 1200 1 (fun c _ => c) in
  let s1 := click "A" initialState true (Some "1") 300 100 in
  let s2 := click "B" s1 true (Some "A") 600 100 in
  match Js.find (fun s => (Stage.id s =? "A")%string) (stages s2) with
  | Some stageA =>
      match dragStage 1200 s2 stageA (Stage.position stageA) 100 600 0 with
      | Some s3 =>
          match Js.find (fun s => (Stage.id s =? "A")%string) (stages s3) with
          | Some draggedA =>
              Some (handleStageClick "C" s3 None (Some "B") draggedA)
          | None => None
          end
      | None => None
      end
  | None => None
  end.

(** *** Non-negative values *)

Definition nonneg (l : list Flow.t) : Prop :=
  Forall (fun f => 0 <= Flow.value f) l.

(** *** Sessions without drags, with fresh ids *)

(** [now] is not yet the id of a stage nor an endpoint of a flow. *)
Definition fresh (now : string) (st : State) : bool :=
  forallb (fun s => negb (Stage.id s =? now)%string) (stages st)
  && forallb (fun f => negb (Flow.fromStageId f =? now)%string
                       && negb (Flow.toStageId f =? now)%string) (flows st).

(** Every stage that the operations create gets an id that is fresh when
    it is created, as [Date.now()] gives when the clicks are at least a
    millisecond apart. *)
Fixpoint fresh_ops (canvasWidth zoom : Q)
    (generateSimilarColor : string -> Q -> string) (fuel : nat) (st : State)
    (ops : list Op) : bool :=
  match ops with
  | [] => true
  | op :: ops' =>
      match op with
      | BranchToCanvas _ _ _ now => fresh now st
      | _ => true
      end
      && match applyOp canvasWidth zoom generateSimilarColor fuel st op with
         | Some st' =>
             fresh_ops canvasWidth zoom generateSimilarColor fuel st' ops'
         | None => true
         end
  end.

(** [pos] gives every stage its position, is nowhere negative, the start
    stage is present, and every flow leads to the right. *)
Definition positioned (pos : string -> Q) (st : State) : Prop :=
  (forall s : string, 0 <= pos s)
  /\ In rootStage (stages st)
  /\ (forall s : Stage.t, In s (stages st) ->
        pos (Stage.id s) == Stage.position s)
  /\ rightward pos (flows st).

(** * Properties *)

(** ** Facts about the JavaScript helpers *)

Lemma Qle_bool_false (a b : Q) : Qle_bool a b = false -> b < a.
Proof.
  intros H. apply Qnot_le_lt. intros Hle.
  apply Qle_bool_iff in Hle. congruence.
Qed.

Lemma Math_max_spec (a b : Q) :
  (a <= b /\ Js.Math_max a b = b) \/ (b < a /\ Js.Math_max a b = a).
Proof.
  unfold Js.Math_max. destruct (Qle_bool a b) eqn:E.
  - left. split; [now apply Qle_bool_iff | reflexivity].
  - right. split; [now apply Qle_bool_false | reflexivity].
Qed.

Lemma Math_min_spec (a b : Q) :
  (a <= b /\ Js.Math_min a b = a) \/ (b < a /\ Js.Math_min a b = b).
Proof.
  unfold Js.Math_min. destruct (Qle_bool a b) eqn:E.
  - left. split; [now apply Qle_bool_iff | reflexivity].
  - right. split; [now apply Qle_bool_false | reflexivity].
Qed.

(** Case analysis on every [Math.max] / [Math.min] of the goal. *)
Ltac js_minmax_at a b spec :=
  let H := fresh "Hcmp" in
  let E := fresh "Ecmp" in
  destruct (spec a b) as [[H E] | [H E]]; rewrite E in *; clear E.

Ltac js_minmax :=
  repeat match goal with
  | |- context [Js.Math_max ?a ?b] => js_minmax_at a b Math_max_spec
  | |- context [Js.Math_min ?a ?b] => js_minmax_at a b Math_min_spec
  | _ : context [Js.Math_max ?a ?b] |- _ => js_minmax_at a b Math_max_spec
  | _ : context [Js.Math_min ?a ?b] |- _ => js_minmax_at a b Math_min_spec
  end.

(** The clamp to the axis range keeps a position that is in range. *)
Lemma clamp_in_range (x : Q) :
  CANVAS_MIN_POSITION <=
    Js.Math_max CANVAS_MIN_POSITION (Js.Math_min CANVAS_MAX_POSITION x)
  <= CANVAS_MAX_POSITION.
Proof. unfold CANVAS_MIN_POSITION, CANVAS_MAX_POSITION. js_minmax; lra. Qed.

Lemma clamp_id (x : Q) :
  CANVAS_MIN_POSITION <= x <= CANVAS_MAX_POSITION ->
  Js.Math_max CANVAS_MIN_POSITION (Js.Math_min CANVAS_MAX_POSITION x) == x.
Proof.
  unfold CANVAS_MIN_POSITION, CANVAS_MAX_POSITION. intros Hx.
  js_minmax; lra.
Qed.

(** [Math.round] of an integer is that integer. *)
Lemma Math_round_integer (x : Q) (m : Z) :
  x == inject_Z m -> Js.Math_round x = inject_Z m.
Proof.
  intros Hx. unfold Js.Math_round. f_equal.
  rewrite (Qfloor_comp _ (inject_Z m + (1 # 2))) by (rewrite Hx; reflexivity).
  pose proof (Qfloor_le (inject_Z m + (1 # 2))) as Hlo.
  pose proof (Qlt_floor (inject_Z m + (1 # 2))) as Hhi.
  set (k := Qfloor (inject_Z m + (1 # 2))) in *.
  unfold Qle, Qlt, inject_Z, Qplus in Hlo, Hhi. simpl in Hlo, Hhi. lia.
Qed.

(** ** Coordinate mapper *)

Section CoordinateMapper.

Variable canvasWidth : Q.
Hypothesis canvasWidth_pos : 0 < canvasWidth.

Lemma getStageX_linear (p : Q) :
  getStageX canvasWidth p == (p + 10) * (canvasWidth / 120).
Proof.
  unfold getStageX, CANVAS_RANGE, CANVAS_MIN_POSITION, CANVAS_MAX_POSITION.
  field.
Qed.

Lemma getStageX_monotone (p q : Q) :
  p <= q -> getStageX canvasWidth p <= getStageX canvasWidth q.
Proof.
  intros Hpq. rewrite !getStageX_linear.
  assert (0 <= canvasWidth / 120).
  { apply Qle_shift_div_l; lra. }
  nra.
Qed.

Lemma getPositionFromX_range (x : Q) :
  -10 <= getPositionFromX canvasWidth x <= 110.
Proof. unfold getPositionFromX. apply clamp_in_range. Qed.

Lemma getPositionFromX_getStageX (p : Q) :
  -10 <= p <= 110 ->
  getPositionFromX canvasWidth (getStageX canvasWidth p) == p.
Proof.
  intros Hp. unfold getPositionFromX.
  assert (E : getStageX canvasWidth p / canvasWidth * CANVAS_RANGE
              + CANVAS_MIN_POSITION == p).
  { unfold getStageX, CANVAS_RANGE, CANVAS_MIN_POSITION, CANVAS_MAX_POSITION.
    field. lra. }
  revert E.
  generalize (getStageX canvasWidth p / canvasWidth * CANVAS_RANGE
              + CANVAS_MIN_POSITION).
  intros y E. unfold CANVAS_MIN_POSITION, CANVAS_MAX_POSITION.
  js_minmax; lra.
Qed.

Lemma getStageX_getPositionFromX (x : Q) :
  0 <= x <= canvasWidth ->
  getStageX canvasWidth (getPositionFromX canvasWidth x) == x.
Proof.
  intros Hx. unfold getPositionFromX.
  assert (Hlo : CANVAS_MIN_POSITION
                <= x / canvasWidth * CANVAS_RANGE + CANVAS_MIN_POSITION).
  { unfold CANVAS_RANGE, CANVAS_MIN_POSITION, CANVAS_MAX_POSITION.
    assert (0 <= x / canvasWidth) by (apply Qle_shift_div_l; lra). lra. }
  assert (Hhi : x / canvasWidth * CANVAS_RANGE + CANVAS_MIN_POSITION
                <= CANVAS_MAX_POSITION).
  { unfold CANVAS_RANGE, CANVAS_MIN_POSITION, CANVAS_MAX_POSITION.
    assert (x / canvasWidth <= 1) by (apply Qle_shift_div_r; lra). lra. }
  rewrite getStageX_linear.
  rewrite (clamp_id _ (conj Hlo Hhi)).
  unfold CANVAS_RANGE, CANVAS_MIN_POSITION, CANVAS_MAX_POSITION.
  field. lra.
Qed.

End CoordinateMapper.

(** The two maps in exact arithmetic.  For a positive canvas width,
    [getStageX] is the linear map that sends -10 to 0 and 110 to the canvas
    width (so [-10,110] onto [0, canvasWidth]); [getPositionFromX] always
    lands in [-10,110] and inverts [getStageX] on [0, canvasWidth]; and for
    every position [p] in [-10,110], [getPositionFromX (getStageX p)] is
    [p]. *)
Theorem coordinate_round_trip (canvasWidth p : Q) :
  0 < canvasWidth ->
  -10 <= p <= 110 ->
  getStageX canvasWidth p == (p + 10) * (canvasWidth / 120)
  /\ getStageX canvasWidth (-10) == 0
  /\ getStageX canvasWidth 110 == canvasWidth
  /\ 0 <= getStageX canvasWidth p <= canvasWidth
  /\ (forall x, -10 <= getPositionFromX canvasWidth x <= 110)
  /\ (forall x, 0 <= x <= canvasWidth ->
        getStageX canvasWidth (getPositionFromX canvasWidth x) == x)
  /\ getPositionFromX canvasWidth (getStageX canvasWidth p) == p.
Proof.
  intros HW Hp.
  assert (E0 : getStageX canvasWidth (-10) == 0).
  { rewrite getStageX_linear by assumption. field. }
  assert (E1 : getStageX canvasWidth 110 == canvasWidth).
  { rewrite getStageX_linear by assumption. field. }
  split; [now apply getStageX_linear |].
  split; [exact E0 |].
  split; [exact E1 |].
  split.
  { split.
    - rewrite <- E0. apply getStageX_monotone; [assumption | lra].
    - rewrite <- E1 at 2. apply getStageX_monotone; [assumption | lra]. }
  split; [intros x; now apply getPositionFromX_range |].
  split; [intros x Hx; now apply getStageX_getPositionFromX |].
  now apply getPositionFromX_getStageX.
Qed.

Lemma coordinate_round_trip_witness :
  getPositionFromX 1200 (getStageX 1200 20) == 20.
Proof.
  apply (coordinate_round_trip 1200 20); [reflexivity | split; discriminate].
Defined.

(** ** Coordinate mapper with rounding *)

Lemma fl_nonneg (fl : Q -> Q) (x : Q) :
  Fl.rounds_to_nearest fl -> 0 <= x ->
  (1 - Fl.unit_roundoff) * x <= fl x <= (1 + Fl.unit_roundoff) * x.
Proof.
  intros H Hx. specialize (H x). rewrite (Qabs_pos x Hx) in H.
  apply Qabs_Qle_condition in H. unfold Fl.unit_roundoff in *. lra.
Qed.

Lemma fl_nonpos (fl : Q -> Q) (x : Q) :
  Fl.rounds_to_nearest fl -> x <= 0 ->
  (1 + Fl.unit_roundoff) * x <= fl x <= (1 - Fl.unit_roundoff) * x.
Proof.
  intros H Hx. specialize (H x). rewrite (Qabs_neg x Hx) in H.
  apply Qabs_Qle_condition in H. unfold Fl.unit_roundoff in *. lra.
Qed.

(** Scaling both sides of a relative bound. *)
Lemma rel_mul (lo hi a b c : Q) :
  0 <= c -> lo * b <= a <= hi * b -> lo * (b * c) <= a * c <= hi * (b * c).
Proof.
  intros Hc [H1 H2].
  assert (E1 : lo * (b * c) == lo * b * c) by ring.
  assert (E2 : hi * (b * c) == hi * b * c) by ring.
  rewrite E1, E2. split; now apply Qmult_le_compat_r.
Qed.

Lemma rel_div (lo hi a b c : Q) :
  0 < c -> lo * b <= a <= hi * b -> lo * (b / c) <= a / c <= hi * (b / c).
Proof.
  intros Hc H. unfold Qdiv. apply rel_mul; [| exact H].
  apply Qinv_le_0_compat. lra.
Qed.

Lemma rel_fl (fl : Q -> Q) (lo hi a b : Q) :
  Fl.rounds_to_nearest fl -> 0 <= lo -> 0 <= b ->
  lo * b <= a <= hi * b ->
  (1 - Fl.unit_roundoff) * lo * b <= fl a
  <= (1 + Fl.unit_roundoff) * hi * b.
Proof.
  intros H Hlo Hb [H1 H2].
  assert (Ha : 0 <= a).
  { apply Qle_trans with (lo * b); [| exact H1].
    now apply Qmult_le_0_compat. }
  destruct (fl_nonneg fl a H Ha) as [F1 F2].
  assert (E1 : (1 - Fl.unit_roundoff) * lo * b
               == (1 - Fl.unit_roundoff) * (lo * b)) by ring.
  assert (E2 : (1 + Fl.unit_roundoff) * hi * b
               == (1 + Fl.unit_roundoff) * (hi * b)) by ring.
  rewrite E1, E2. clear E1 E2.
  revert H1 H2. generalize (lo * b) (hi * b). intros lb hb H1 H2.
  unfold Fl.unit_roundoff in *. lra.
Qed.

(** The rounded [getStageX] is the exact one up to three roundings. *)
Lemma getStageX_fl_rel (fl : Q -> Q) (canvasWidth p : Q) :
  Fl.rounds_to_nearest fl -> 0 < canvasWidth -> -10 <= p <= 110 ->
  (1 - Fl.unit_roundoff) * (1 - Fl.unit_roundoff) * (1 - Fl.unit_roundoff)
  * getStageX canvasWidth p
  <= Fl.getStageX fl canvasWidth p
  <= (1 + Fl.unit_roundoff) * (1 + Fl.unit_roundoff) * (1 + Fl.unit_roundoff)
     * getStageX canvasWidth p.
Proof.
  intros H HW Hp. unfold Fl.getStageX, getStageX. cbv zeta.
  assert (HR : 0 < CANVAS_RANGE) by reflexivity.
  assert (Hy : 0 <= p - CANVAS_MIN_POSITION)
    by (unfold CANVAS_MIN_POSITION; lra).
  assert (Hu : 0 <= 1 - Fl.unit_roundoff) by discriminate.
  assert (Hn : 0 <= (p - CANVAS_MIN_POSITION) / CANVAS_RANGE).
  { apply Qle_shift_div_l; [exact HR | lra]. }
  pose proof (fl_nonneg fl _ H Hy) as B1.
  assert (B1' : (1 - Fl.unit_roundoff) * (p - CANVAS_MIN_POSITION)
                <= fl (p - CANVAS_MIN_POSITION)
                <= (1 + Fl.unit_roundoff) * (p - CANVAS_MIN_POSITION))
    by exact B1.
  pose proof (rel_div _ _ _ _ CANVAS_RANGE HR B1') as B2.
  pose proof (rel_fl fl _ _ _ _ H Hu Hn B2) as B3.
  pose proof (rel_mul _ _ _ _ canvasWidth (Qlt_le_weak _ _ HW) B3) as B4.
  assert (Hu2 : 0 <= (1 - Fl.unit_roundoff) * (1 - Fl.unit_roundoff))
    by discriminate.
  assert (He : 0 <= (p - CANVAS_MIN_POSITION) / CANVAS_RANGE * canvasWidth).
  { apply Qmult_le_0_compat; [exact Hn | lra]. }
  exact (rel_fl fl _ _ _ _ H Hu2 He B4).
Qed.

Lemma fl_abs (fl : Q -> Q) (x bound : Q) :
  Fl.rounds_to_nearest fl -> Qabs x <= bound ->
  - (Fl.unit_roundoff * bound) <= fl x - x <= Fl.unit_roundoff * bound.
Proof.
  intros H Hx. specialize (H x). apply Qabs_Qle_condition in H.
  assert (Fl.unit_roundoff * Qabs x <= Fl.unit_roundoff * bound).
  { apply Qmult_le_l; [reflexivity | exact Hx]. }
  lra.
Qed.

(** The rounded [getPositionFromX] stays within 1e-12 of the exact
    one, at every pixel. *)
Lemma getPositionFromX_fl_close (fl : Q -> Q) (canvasWidth x : Q) :
  Fl.rounds_to_nearest fl -> 0 < canvasWidth ->
  Qabs (Fl.getPositionFromX fl canvasWidth x - getPositionFromX canvasWidth x)
  <= 1 # 2000000000000.
Proof.
  intros H HW. unfold Fl.getPositionFromX, getPositionFromX. cbv zeta.
  set (q := x / canvasWidth).
  set (b1 := fl q).
  set (b2 := fl (b1 * CANVAS_RANGE)).
  set (b3 := fl (b2 + CANVAS_MIN_POSITION)).
  destruct (Qlt_le_dec q 0) as [Hq | Hq].
  - (* left of the canvas: both are -10, up to one rounding *)
    destruct (fl_nonpos fl q H (Qlt_le_weak _ _ Hq)) as [_ F1].
    fold b1 in F1.
    assert (Hv : b1 * CANVAS_RANGE <= 0).
    { unfold CANVAS_RANGE, CANVAS_MAX_POSITION, CANVAS_MIN_POSITION.
      unfold Fl.unit_roundoff in F1. lra. }
    destruct (fl_nonpos fl _ H Hv) as [_ F2]. fold b2 in F2.
    assert (Hs : b2 + CANVAS_MIN_POSITION <= 0).
    { unfold CANVAS_MIN_POSITION. unfold Fl.unit_roundoff in F2. lra. }
    destruct (fl_nonpos fl _ H Hs) as [_ F3]. fold b3 in F3.
    clearbody b1 b2 b3.
    unfold CANVAS_RANGE, CANVAS_MAX_POSITION, CANVAS_MIN_POSITION,
      Fl.unit_roundoff in *.
    apply Qabs_Qle_condition. js_minmax; lra.
  - destruct (fl_nonneg fl q H Hq) as [F1a F1b]. fold b1 in F1a, F1b.
    assert (Hv : 0 <= b1 * CANVAS_RANGE).
    { unfold CANVAS_RANGE, CANVAS_MAX_POSITION, CANVAS_MIN_POSITION.
      unfold Fl.unit_roundoff in F1a. lra. }
    destruct (fl_nonneg fl _ H Hv) as [F2a F2b]. fold b2 in F2a, F2b.
    destruct (Qlt_le_dec 2 q) as [Hfar | Hnear].
    + (* far right of the canvas: both are 110 *)
      assert (Hs : 0 <= b2 + CANVAS_MIN_POSITION).
      { unfold CANVAS_RANGE, CANVAS_MAX_POSITION, CANVAS_MIN_POSITION,
          Fl.unit_roundoff in *. lra. }
      destruct (fl_nonneg fl _ H Hs) as [F3 _]. fold b3 in F3.
      clearbody b1 b2 b3.
      unfold CANVAS_RANGE, CANVAS_MAX_POSITION, CANVAS_MIN_POSITION,
        Fl.unit_roundoff in *.
      apply Qabs_Qle_condition. js_minmax; lra.
    + assert (Hs : Qabs (b2 + CANVAS_MIN_POSITION) <= 251).
      { apply Qabs_Qle_condition.
        unfold CANVAS_RANGE, CANVAS_MAX_POSITION, CANVAS_MIN_POSITION,
          Fl.unit_roundoff in *. lra. }
      pose proof (fl_abs fl _ 251 H Hs) as F3. fold b3 in F3.
      clearbody b1 b2 b3.
      unfold CANVAS_RANGE, CANVAS_MAX_POSITION, CANVAS_MIN_POSITION,
        Fl.unit_roundoff in *.
      apply Qabs_Qle_condition. js_minmax; lra.
Qed.

Lemma getPositionFromX_exact_near (canvasWidth p y : Q) :
  0 < canvasWidth -> -10 <= p <= 110 ->
  (1 - Fl.unit_roundoff) * (1 - Fl.unit_roundoff) * (1 - Fl.unit_roundoff)
  * getStageX canvasWidth p
  <= y
  <= (1 + Fl.unit_roundoff) * (1 + Fl.unit_roundoff) * (1 + Fl.unit_roundoff)
     * getStageX canvasWidth p ->
  Qabs (getPositionFromX canvasWidth y - p) <= 1 # 2000000000000.
Proof.
  intros HW Hp Hy.
  pose proof (rel_div _ _ _ _ canvasWidth HW Hy) as Hq.
  assert (E : getStageX canvasWidth p / canvasWidth == (p + 10) / 120).
  { unfold getStageX, CANVAS_RANGE, CANVAS_MAX_POSITION, CANVAS_MIN_POSITION.
    field. lra. }
  rewrite E in Hq. clear E Hy.
  unfold getPositionFromX. cbv zeta.
  revert Hq. generalize (y / canvasWidth). intros q Hq.
  assert (E : (p + 10) / 120 == (p + 10) * (1 # 120)) by field.
  rewrite E in Hq. clear E.
  unfold CANVAS_RANGE, CANVAS_MAX_POSITION, CANVAS_MIN_POSITION,
    Fl.unit_roundoff in *.
  apply Qabs_Qle_condition. js_minmax; lra.
Qed.

Lemma getPositionFromX_left (canvasWidth x : Q) :
  0 < canvasWidth -> x <= 0 -> getPositionFromX canvasWidth x == -10.
Proof.
  intros HW Hx. unfold getPositionFromX. cbv zeta.
  assert (Hq : x / canvasWidth <= 0) by (apply Qle_shift_div_r; lra).
  revert Hq. generalize (x / canvasWidth). intros q Hq.
  unfold CANVAS_RANGE, CANVAS_MAX_POSITION, CANVAS_MIN_POSITION.
  js_minmax; lra.
Qed.

Lemma getPositionFromX_right (canvasWidth x : Q) :
  0 < canvasWidth -> canvasWidth <= x -> getPositionFromX canvasWidth x == 110.
Proof.
  intros HW Hx. unfold getPositionFromX. cbv zeta.
  assert (Hq : 1 <= x / canvasWidth) by (apply Qle_shift_div_l; lra).
  revert Hq. generalize (x / canvasWidth). intros q Hq.
  unfold CANVAS_RANGE, CANVAS_MAX_POSITION, CANVAS_MIN_POSITION.
  js_minmax; lra.
Qed.

Lemma fl_zero (fl : Q -> Q) (x : Q) :
  Fl.rounds_to_nearest fl -> x == 0 -> fl x == 0.
Proof.
  intros H Hx.
  assert (H0 : 0 <= x) by (rewrite Hx; apply Qle_refl).
  destruct (fl_nonneg fl x H H0) as [F1 F2].
  unfold Fl.unit_roundoff in *. lra.
Qed.

Lemma getStageX_fl_left (fl : Q -> Q) (canvasWidth : Q) :
  Fl.rounds_to_nearest fl -> Fl.getStageX fl canvasWidth (-10) == 0.
Proof.
  intros H. unfold Fl.getStageX. cbv zeta.
  apply (fl_zero fl _ H).
  assert (E2 : fl (fl (-10 - CANVAS_MIN_POSITION) / CANVAS_RANGE) == 0).
  { apply (fl_zero fl _ H).
    assert (E1 : fl (-10 - CANVAS_MIN_POSITION) == 0)
      by (apply (fl_zero fl _ H); reflexivity).
    rewrite E1. reflexivity. }
  rewrite E2. ring.
Qed.

(** The rounded [getStageX] inverts the rounded [getPositionFromX] on the
    canvas, up to a relative error of 1e-12. *)
Lemma getStageX_getPositionFromX_fl (fl : Q -> Q) (canvasWidth x : Q) :
  Fl.rounds_to_nearest fl -> 0 < canvasWidth -> 0 <= x <= canvasWidth ->
  Qabs (Fl.getStageX fl canvasWidth (Fl.getPositionFromX fl canvasWidth x)
        - x) <= (1 # 1000000000000) * canvasWidth.
Proof.
  intros H HW Hx.
  pose proof (getPositionFromX_fl_close fl canvasWidth x H HW) as Hz.
  assert (Hrange : -10 <= Fl.getPositionFromX fl canvasWidth x <= 110).
  { unfold Fl.getPositionFromX. apply clamp_in_range. }
  assert (He : getPositionFromX canvasWidth x == x / canvasWidth * 120 - 10).
  { unfold getPositionFromX. cbv zeta.
    assert (H0 : 0 <= x / canvasWidth) by (apply Qle_shift_div_l; lra).
    assert (H1 : x / canvasWidth <= 1) by (apply Qle_shift_div_r; lra).
    revert H0 H1. generalize (x / canvasWidth). intros q H0 H1.
    unfold CANVAS_RANGE, CANVAS_MAX_POSITION, CANVAS_MIN_POSITION.
    js_minmax; lra. }
  rewrite He in Hz. clear He.
  revert Hz Hrange. generalize (Fl.getPositionFromX fl canvasWidth x).
  intros z Hz Hrange.
  pose proof (getStageX_fl_rel fl canvasWidth z H HW Hrange) as Hrel.
  pose proof (rel_div _ _ _ _ canvasWidth HW Hrel) as Hq.
  assert (E : getStageX canvasWidth z / canvasWidth == (z + 10) * (1 # 120)).
  { unfold getStageX, CANVAS_RANGE, CANVAS_MAX_POSITION, CANVAS_MIN_POSITION.
    field. lra. }
  rewrite E in Hq. clear E Hrel.
  assert (Ey : Fl.getStageX fl canvasWidth z
               == Fl.getStageX fl canvasWidth z / canvasWidth * canvasWidth)
    by (field; lra).
  assert (Ex : x == x / canvasWidth * canvasWidth) by (field; lra).
  assert (H0 : 0 <= x / canvasWidth) by (apply Qle_shift_div_l; lra).
  assert (H1 : x / canvasWidth <= 1) by (apply Qle_shift_div_r; lra).
  apply Qabs_Qle_condition in Hz.
  revert Ey Ex Hq Hz H0 H1.
  generalize (Fl.getStageX fl canvasWidth z / canvasWidth).
  generalize (x / canvasWidth).
  generalize (Fl.getStageX fl canvasWidth z). intros y t q Ey Ex Hq Hz H0 H1.
  assert (Hd : - (1 # 1000000000000) <= q - t <= 1 # 1000000000000).
  { unfold Fl.unit_roundoff in Hq. lra. }
  assert (Hm : (q - t) * canvasWidth == y - x) by (rewrite Ey, Ex; ring).
  apply Qabs_Qle_condition. rewrite <- Hm. split.
  - assert (E : - ((1 # 1000000000000) * canvasWidth)
                == - (1 # 1000000000000) * canvasWidth) by ring.
    rewrite E. apply Qmult_le_compat_r; lra.
  - apply Qmult_le_compat_r; lra.
Qed.

(** C7.  With every arithmetic operation rounded to nearest (relative
    error at most 2^-53), on a canvas of positive width: for every position
    [p] in [-10,110] the round trip [getPositionFromX (getStageX p)] returns
    [p] up to 1e-12; [getStageX] is the linear map
    [(p + 10) / 120 * canvasWidth], which sends -10 to 0 and 110 to the
    canvas width, up to a relative error of 1e-15; [getPositionFromX] lands
    in [-10,110] and is, up to 1e-12 at every pixel, the clamped inverse of
    that linear map: [x / canvasWidth * 120 - 10] on the canvas, where
    [getStageX] inverts it, -10 to the left of the canvas and 110 to the
    right of it. *)
Theorem coordinate_round_trip_up_to_rounding (fl : Q -> Q) (canvasWidth : Q) :
  Fl.rounds_to_nearest fl ->
  0 < canvasWidth ->
  (forall p : Q, -10 <= p <= 110 ->
     Qabs (Fl.getPositionFromX fl canvasWidth (Fl.getStageX fl canvasWidth p)
           - p) <= 1 # 1000000000000
     /\ Qabs (Fl.getStageX fl canvasWidth p - (p + 10) / 120 * canvasWidth)
        <= (1 # 1000000000000000) * ((p + 10) / 120 * canvasWidth))
  /\ Fl.getStageX fl canvasWidth (-10) == 0
  /\ Qabs (Fl.getStageX fl canvasWidth 110 - canvasWidth)
     <= (1 # 1000000000000000) * canvasWidth
  /\ (forall x : Q,
        -10 <= Fl.getPositionFromX fl canvasWidth x <= 110
        /\ Qabs (Fl.getPositionFromX fl canvasWidth x
                 - Js.Math_max (-10)
                     (Js.Math_min 110 (x / canvasWidth * 120 - 10)))
           <= 1 # 1000000000000
        /\ (x <= 0 ->
            Qabs (Fl.getPositionFromX fl canvasWidth x - -10)
            <= 1 # 1000000000000)
        /\ (canvasWidth <= x ->
            Qabs (Fl.getPositionFromX fl canvasWidth x - 110)
            <= 1 # 1000000000000)
        /\ (0 <= x <= canvasWidth ->
            Qabs (Fl.getPositionFromX fl canvasWidth x
                  - (x / canvasWidth * 120 - 10)) <= 1 # 1000000000000
            /\ Qabs (Fl.getStageX fl canvasWidth
                       (Fl.getPositionFromX fl canvasWidth x) - x)
               <= (1 # 1000000000000) * canvasWidth)).
Proof.
  intros H HW.
  assert (Hlin : forall p : Q,
            getStageX canvasWidth p == (p + 10) / 120 * canvasWidth).
  { intros p. unfold getStageX, CANVAS_RANGE, CANVAS_MAX_POSITION,
      CANVAS_MIN_POSITION. field. }
  assert (Hrel : forall p : Q, -10 <= p <= 110 ->
            Qabs (Fl.getStageX fl canvasWidth p
                  - (p + 10) / 120 * canvasWidth)
            <= (1 # 1000000000000000) * ((p + 10) / 120 * canvasWidth)).
  { intros p Hp.
    pose proof (getStageX_fl_rel fl canvasWidth p H HW Hp) as Hrel.
    rewrite Hlin in Hrel.
    assert (He : 0 <= (p + 10) / 120 * canvasWidth).
    { apply Qmult_le_0_compat; [| lra]. apply Qle_shift_div_l; lra. }
    revert Hrel He. generalize ((p + 10) / 120 * canvasWidth).
    generalize (Fl.getStageX fl canvasWidth p). intros y e Hrel He.
    unfold Fl.unit_roundoff in Hrel.
    apply Qabs_Qle_condition. lra. }
  assert (Hclose : forall x e : Q,
            getPositionFromX canvasWidth x == e ->
            Qabs (Fl.getPositionFromX fl canvasWidth x - e)
            <= 1 # 1000000000000).
  { intros x e He.
    pose proof (getPositionFromX_fl_close fl canvasWidth x H HW) as H1.
    rewrite He in H1. apply Qabs_Qle_condition in H1.
    apply Qabs_Qle_condition. lra. }
  split; [| split; [| split]].
  - intros p Hp. split; [| now apply Hrel].
    pose proof (getPositionFromX_fl_close fl canvasWidth
                  (Fl.getStageX fl canvasWidth p) H HW) as H1.
    pose proof (getPositionFromX_exact_near canvasWidth p
                  (Fl.getStageX fl canvasWidth p) HW Hp
                  (getStageX_fl_rel fl canvasWidth p H HW Hp)) as H2.
    apply Qabs_Qle_condition in H1, H2. apply Qabs_Qle_condition.
    revert H1 H2.
    generalize (Fl.getPositionFromX fl canvasWidth
                  (Fl.getStageX fl canvasWidth p)).
    generalize (getPositionFromX canvasWidth
                  (Fl.getStageX fl canvasWidth p)).
    intros a b H1 H2. lra.
  - now apply getStageX_fl_left.
  - assert (Hp : -10 <= 110 <= 110) by (split; discriminate).
    pose proof (Hrel 110 Hp) as H1.
    assert (E : (110 + 10) / 120 * canvasWidth == canvasWidth) by field.
    rewrite E in H1. exact H1.
  - intros x. split; [unfold Fl.getPositionFromX; apply clamp_in_range |].
    split; [| split; [| split]].
    + apply Hclose. unfold getPositionFromX. cbv zeta.
      assert (E : x / canvasWidth * CANVAS_RANGE + CANVAS_MIN_POSITION
                  == x / canvasWidth * 120 - 10).
      { unfold CANVAS_RANGE, CANVAS_MAX_POSITION, CANVAS_MIN_POSITION. ring. }
      revert E.
      generalize (x / canvasWidth * CANVAS_RANGE + CANVAS_MIN_POSITION).
      generalize (x / canvasWidth * 120 - 10). intros e2 e1 E.
      unfold CANVAS_MAX_POSITION, CANVAS_MIN_POSITION.
      js_minmax; lra.
    + intros Hx. apply Hclose. now apply getPositionFromX_left.
    + intros Hx. apply Hclose. now apply getPositionFromX_right.
    + intros Hx. split; [| now apply getStageX_getPositionFromX_fl].
      apply Hclose. unfold getPositionFromX. cbv zeta.
      assert (H0 : 0 <= x / canvasWidth) by (apply Qle_shift_div_l; lra).
      assert (H1 : x / canvasWidth <= 1) by (apply Qle_shift_div_r; lra).
      revert H0 H1. generalize (x / canvasWidth). intros q H0 H1.
      unfold CANVAS_RANGE, CANVAS_MAX_POSITION, CANVAS_MIN_POSITION.
      js_minmax; lra.
Qed.

Lemma coordinate_round_trip_up_to_rounding_witness :
  let fl := fun x : Q => x * (1 + Fl.unit_roundoff) in
  Fl.rounds_to_nearest fl
  /\ Qabs (Fl.getPositionFromX fl 1200 (Fl.getStageX fl 1200 (1 # 10))
           - (1 # 10)) <= 1 # 1000000000000
  /\ ~ Fl.getPositionFromX fl 1200 (Fl.getStageX fl 1200 (1 # 10)) == 1 # 10.
Proof.
  intros fl.
  assert (Hfl : Fl.rounds_to_nearest fl).
  { intros x. unfold fl.
    assert (E : x * (1 + Fl.unit_roundoff) - x == Fl.unit_roundoff * x)
      by ring.
    rewrite E, Qabs_Qmult. apply Qmult_le_compat_r; [| apply Qabs_nonneg].
    rewrite Qabs_pos; [apply Qle_refl | discriminate]. }
  split; [exact Hfl |]. split.
  - assert (HW : 0 < 1200) by reflexivity.
    assert (Hp : -10 <= 1 # 10 <= 110) by (split; discriminate).
    exact (proj1 (proj1 (coordinate_round_trip_up_to_rounding fl 1200 Hfl HW)
                    (1 # 10) Hp)).
  - vm_compute. discriminate.
Defined.

(** In binary64 itself the round trip is not exact: at position 0.1 (the
    binary64 number nearest to it) on a canvas 1200 pixels wide it returns
    0.09999999999999964, and at 0.3 it does not return 0.3 either; both lie
    within 2^-40 of the position. *)
Lemma coordinate_round_trip_inexact_in_binary64 :
  let canvasWidth := 1200%float in
  let p := 0x1.999999999999ap-4%float in
  let q := 0x1.3333333333333p-2%float in
  PrimFloat.ltb 0 canvasWidth = true
  /\ (PrimFloat.leb (-10) p && PrimFloat.leb p 110)%bool = true
  /\ (PrimFloat.leb (-10) q && PrimFloat.leb q 110)%bool = true
  /\ B64.getPositionFromX canvasWidth (B64.getStageX canvasWidth p)
     = 0x1.999999999998p-4%float
  /\ PrimFloat.eqb
       (B64.getPositionFromX canvasWidth (B64.getStageX canvasWidth p)) p
     = false
  /\ PrimFloat.eqb
       (B64.getPositionFromX canvasWidth (B64.getStageX canvasWidth q)) q
     = false
  /\ PrimFloat.leb
       (PrimFloat.abs
          (B64.getPositionFromX canvasWidth (B64.getStageX canvasWidth p)
           - p)%float) 0x1p-40%float
     = true.
Proof.
  cbv zeta.
  split; [vm_compute; reflexivity |]. split; [vm_compute; reflexivity |].
  split; [vm_compute; reflexivity |]. split; [vm_compute; reflexivity |].
  split; [vm_compute; reflexivity |]. split; vm_compute; reflexivity.
Qed.

(** In binary64, at each of the 1201 ticker positions and canvas widths of
    800, 1200, 1366 and 1920 pixels, the round trip returns the position up
    to 2^-40.  With a canvas width of 0 a pixel to the right gives 110 (the
    quotient is [Infinity]) and the pixel 0 gives [NaN]. *)
Lemma coordinate_round_trip_binary64_tickers :
  forallb (fun canvasWidth =>
    forallb (fun k =>
      PrimFloat.leb
        (PrimFloat.abs
           (B64.getPositionFromX canvasWidth
              (B64.getStageX canvasWidth (B64.tickerPosition k))
            - B64.tickerPosition k)%float)
        0x1p-40%float) (seq 0 1201))
    [800%float; 1200%float; 1366%float; 1920%float] = true
  /\ B64.getPositionFromX 0 300 = 110%float
  /\ PrimFloat.is_nan (B64.getPositionFromX 0 0) = true.
Proof. split; [| split]; vm_compute; reflexivity. Qed.

(** C10.  [snapToTicker] lands in [-10,110] for every input and is
    idempotent. *)
Theorem snapToTicker_idempotent_bounded (p : Q) :
  -10 <= snapToTicker p <= 110
  /\ snapToTicker (snapToTicker p) == snapToTicker p.
Proof.
  split; [apply clamp_in_range |].
  assert (Hint : exists m : Z, snapToTicker p == inject_Z m / 10).
  { unfold snapToTicker, Js.Math_round, CANVAS_MIN_POSITION,
      CANVAS_MAX_POSITION.
    set (k := Qfloor (p * 10 + (1 # 2))).
    js_minmax;
      first [ exists k; reflexivity
            | exists 1100%Z; reflexivity
            | exists (-100)%Z; reflexivity ]. }
  destruct Hint as [m Hm].
  pose proof (clamp_in_range (Js.Math_round (p * 10) / 10)) as Hrange.
  fold (snapToTicker p) in Hrange.
  revert Hm Hrange. generalize (snapToTicker p). intros r Hm Hrange.
  unfold snapToTicker at 1.
  rewrite (Math_round_integer (r * 10) m) by (rewrite Hm; field).
  rewrite clamp_id; rewrite <- Hm; [reflexivity | exact Hrange].
Qed.

(** ** Branch creation and rebalance: values and frame *)

Lemma same_frame_refl (f : Flow.t) : same_frame f f.
Proof. repeat split. Qed.

Lemma same_frame_trans (f g h : Flow.t) :
  same_frame f g -> same_frame g h -> same_frame f h.
Proof. unfold same_frame. intuition congruence. Qed.

Lemma same_frame_with_value (f : Flow.t) (v : Q) :
  same_frame f (Flow.with_value f v).
Proof. repeat split. Qed.

Create HintDb frame.
#[local] Hint Resolve same_frame_refl same_frame_with_value : frame.

Lemma len_succ {A : Type} (l : list A) :
  inject_Z (Z.of_nat (S (length l))) == Js.len l + 1.
Proof.
  unfold Js.len. rewrite Nat2Z.inj_succ, <- Z.add_1_r, inject_Z_plus.
  reflexivity.
Qed.

Lemma setOutgoing_frame (stageId : string) (v : Q) (l : list Flow.t) :
  Forall2 same_frame l (setOutgoing stageId v l).
Proof.
  induction l as [| f l IH]; simpl; constructor; [| exact IH].
  destruct (Flow.fromStageId f =? stageId)%string; auto with frame.
Qed.

Lemma setOutgoing_outgoing_length (stageId : string) (v : Q)
    (l : list Flow.t) :
  length (outgoingOf stageId (setOutgoing stageId v l))
  = length (outgoingOf stageId l).
Proof.
  induction l as [| f l IH]; simpl; [reflexivity |].
  destruct (Flow.fromStageId f =? stageId)%string eqn:E; simpl;
    rewrite E; simpl; congruence.
Qed.

Lemma setOutgoing_value (stageId : string) (v : Q) (l : list Flow.t)
    (f : Flow.t) :
  In f (setOutgoing stageId v l) -> Flow.fromStageId f = stageId ->
  Flow.value f = v.
Proof.
  intros Hin Hfrom. apply in_map_iff in Hin. destruct Hin as [g [<- _]].
  destruct (Flow.fromStageId g =? stageId)%string eqn:E; [reflexivity |].
  apply String.eqb_neq in E. contradiction.
Qed.

Lemma createFlow_shape (flows existingFlows : list Flow.t)
    (now fromStageId toStageId : string) (flowColor : option string) :
  let share :=
    getIncomingFlowValue fromStageId flows
    / (Js.len (outgoingOf fromStageId existingFlows) + 1) in
  createFlowWithProportionalSplit flows now fromStageId toStageId
    existingFlows flowColor
  = (setOutgoing fromStageId share existingFlows
     ++ [Flow.mk now
           ("Flow " ++ Js.nat_toString (length existingFlows + 1))%string
           fromStageId toStageId share
           (Some (Js.len (outgoingOf fromStageId existingFlows)))
           (Some (Js.or_else flowColor DEFAULT_COLOR))])%list.
Proof. reflexivity. Qed.

(** C3.  After [createFlowWithProportionalSplit] from a stage that then has
    [k] children (the pre-existing outgoing flows plus the new one), every
    outgoing flow of that stage has the value [incomingValue / k], exactly
    and hence within 0.01; the new flow is appended last, leads from the
    stage to the target, and its [branchIndex] is the number of
    pre-existing outgoing flows. *)
Theorem createFlow_equal_split (flows existingFlows : list Flow.t)
    (now fromStageId toStageId : string) (flowColor : option string) :
  let preExisting :=
    List.filter (fun f => (Flow.fromStageId f =? fromStageId)%string)
      existingFlows in
  let result :=
    createFlowWithProportionalSplit flows now fromStageId toStageId
      existingFlows flowColor in
  let k := S (length preExisting) in
  let share := getIncomingFlowValue fromStageId flows / inject_Z (Z.of_nat k) in
  length (List.filter (fun f => (Flow.fromStageId f =? fromStageId)%string)
            result) = k
  /\ (forall f, In f result -> Flow.fromStageId f = fromStageId ->
        Flow.value f == share /\ Qabs (Flow.value f - share) <= 1 # 100)
  /\ exists (kept : list Flow.t) (newFlow : Flow.t),
       result = (kept ++ [newFlow])%list
       /\ length kept = length existingFlows
       /\ Flow.fromStageId newFlow = fromStageId
       /\ Flow.toStageId newFlow = toStageId
       /\ Flow.branchIndex newFlow
          = Some (inject_Z (Z.of_nat (length preExisting))).
Proof.
  intros preExisting result k share0.
  subst result. rewrite createFlow_shape. cbv zeta.
  fold preExisting. fold (outgoingOf fromStageId existingFlows) in preExisting.
  set (share := getIncomingFlowValue fromStageId flows
                / (Js.len (outgoingOf fromStageId existingFlows) + 1)).
  assert (Eshare : share == share0).
  { subst share share0 k preExisting. rewrite len_succ. reflexivity. }
  split.
  { rewrite List.filter_app, length_app. simpl.
    rewrite String.eqb_refl. simpl.
    fold (outgoingOf fromStageId (setOutgoing fromStageId share existingFlows)).
    rewrite setOutgoing_outgoing_length. subst k preExisting. lia. }
  split.
  - intros f Hin Hfrom.
    assert (E : Flow.value f == share0).
    { rewrite <- Eshare. apply in_app_or in Hin.
      destruct Hin as [Hin | [<- | []]]; [| reflexivity].
      now rewrite (setOutgoing_value _ _ _ _ Hin Hfrom). }
    split; [exact E |].
    apply Qabs_Qle_condition. split; lra.
  - eexists _, _. split; [reflexivity |].
    split; [apply length_map |]. repeat split.
Qed.

Lemma createFlow_equal_split_witness :
  let existing := [Flow.mk "a" "Flow 1" "1" "2" 100 (Some 0) None] in
  let result :=
    createFlowWithProportionalSplit existing "b" "1" "3" existing None in
  let f := Flow.mk "a" "Flow 1" "1" "2" (100 # 2) (Some 0) None in
  In f result /\ Flow.fromStageId f = "1" /\ Flow.value f == 100 / 2.
Proof.
  intros existing result f.
  assert (Hin : In f result) by (left; reflexivity).
  assert (Hfrom : Flow.fromStageId f = "1") by reflexivity.
  split; [exact Hin |]. split; [exact Hfrom |].
  exact (proj1 (proj1 (proj2 (createFlow_equal_split existing existing
                                "b" "1" "3" None)) f Hin Hfrom)).
Defined.

(** *** Frame of [balanceFlows] *)

Lemma Forall2_frame_insert (l k : list Flow.t) (i : nat) (cur : Flow.t)
    (v : Q) :
  Forall2 same_frame l k -> k !! i = Some cur ->
  Forall2 same_frame l (<[i := Flow.with_value cur v]> k).
Proof.
  intros HF Hi.
  destruct (Forall2_lookup_r _ _ _ _ _ HF Hi) as [x [Hx Hxc]].
  rewrite <- (list_insert_id l i x Hx).
  apply Forall2_insert; [exact HF |].
  eapply same_frame_trans; [exact Hxc | apply same_frame_with_value].
Qed.

Lemma balanceStage_frame (l k : list Flow.t) (stage : Stage.t) :
  Forall2 same_frame l k -> Forall2 same_frame l (balanceStage k stage).
Proof.
  intros HF. unfold balanceStage.
  destruct (0 <? length _)%nat; [| exact HF].
  destruct (Js.gt _ _); [| exact HF].
  generalize (getIncomingFlowValue (Stage.id stage) k
              / Js.len (List.filter
                          (fun f => (Flow.fromStageId f =? Stage.id stage)%string)
                          k)).
  intros v.
  generalize (List.filter
                (fun f => (Flow.fromStageId f =? Stage.id stage)%string) k).
  intros outgoing. revert k HF.
  induction outgoing as [| flow rest IH]; intros k HF; simpl; [exact HF |].
  apply IH.
  destruct (Js.findIndex _ k) as [index |]; [| exact HF].
  destruct (k !! index) as [cur |] eqn:Hcur; [| exact HF].
  now apply Forall2_frame_insert.
Qed.

Lemma balanceFlows_frame (stages : list Stage.t) (l k : list Flow.t) :
  Forall2 same_frame l k -> Forall2 same_frame l (balanceFlows stages k).
Proof.
  unfold balanceFlows. revert k.
  induction stages as [| s rest IH]; intros k HF; simpl; [exact HF |].
  apply IH. now apply balanceStage_frame.
Qed.

(** C9.  [createFlowWithProportionalSplit] keeps every input flow at its
    index with the same id, name, endpoints, branchIndex and colour, and
    appends exactly one flow; [balanceFlows] returns a list of the same
    length in which every flow differs from the input flow at its index at
    most in [value]. *)
Theorem branch_and_rebalance_frame (stages : list Stage.t)
    (flows existingFlows : list Flow.t) (now fromStageId toStageId : string)
    (flowColor : option string) :
  let created :=
    createFlowWithProportionalSplit flows now fromStageId toStageId
      existingFlows flowColor in
  let balanced := balanceFlows stages existingFlows in
  length created = S (length existingFlows)
  /\ Forall2 same_frame existingFlows (take (length existingFlows) created)
  /\ length balanced = length existingFlows
  /\ Forall2 same_frame existingFlows balanced.
Proof.
  intros created balanced. subst created. rewrite createFlow_shape.
  cbv zeta.
  split; [rewrite length_app; unfold setOutgoing; rewrite length_map;
          simpl; lia |].
  split.
  - rewrite take_app_length' by (symmetry; apply length_map).
    apply setOutgoing_frame.
  - assert (HF : Forall2 same_frame existingFlows balanced).
    { apply balanceFlows_frame. apply Forall2_same_length_lookup.
      split; [reflexivity |]. intros i x y Hx Hy.
      rewrite Hx in Hy. injection Hy as <-. apply same_frame_refl. }
    split; [symmetry; exact (Forall2_length _ _ _ HF) | exact HF].
Qed.

(** ** Stacking layout: node height *)

(** The loop of [getNodeHeight], started at index [length pre] with the
    accumulator [acc], adds the widths of the remaining flows and one
    spacing between each two of them. *)
Lemma stackedHeight_loop (post pre : list Flow.t) (acc : Q) :
  fold_left (fun (height : Q) (i : nat) =>
    match (pre ++ post) !! i with
    | Some flow =>
        let flowWidth := Js.Math_max 20 (Flow.value flow * HEIGHT_SCALE) in
        let height := height + flowWidth in
        if (i + 1 <? length (pre ++ post))%nat then height + FLOW_SPACING
        else height
    | None => height
    end) (seq (length pre) (length post)) acc
  == acc + sumWidths post
     + match post with
       | [] => 0
       | _ :: _ => FLOW_SPACING * (Js.len post - 1)
       end.
Proof.
  revert pre acc. induction post as [| f rest IH]; intros pre acc.
  - simpl. ring.
  - cbn [length seq fold_left].
    rewrite list_lookup_middle by reflexivity.
    replace (pre ++ f :: rest) with ((pre ++ [f]) ++ rest)
      by (rewrite <- app_assoc; reflexivity).
    replace (S (length pre)) with (length (pre ++ [f]))
      by (rewrite length_app; simpl; lia).
    rewrite IH. cbn [sumWidths fold_right]. fold (sumWidths rest).
    unfold flowWidth at 1.
    unfold Js.len at 2. cbn [length]. rewrite len_succ.
    destruct rest as [| g rest'].
    + replace (_ <? _)%nat with false
        by (symmetry; apply Nat.ltb_ge; rewrite !length_app; simpl; lia).
      unfold Js.len. simpl. ring.
    + replace (_ <? _)%nat with true
        by (symmetry; apply Nat.ltb_lt; rewrite !length_app; simpl; lia).
      cbv zeta. ring.
Qed.

Lemma stackedHeight_formula (l : list Flow.t) :
  l <> [] -> stackedHeight l == stackFormula l.
Proof.
  intros Hl. unfold stackedHeight.
  pose proof (stackedHeight_loop l [] 0) as H. simpl in H. rewrite H.
  unfold stackFormula. destruct l; [contradiction | ring].
Qed.

Lemma getNodeHeight_spec (flows : list Flow.t) (stageId : string) :
  getNodeHeight flows stageId == nodeHeight_spec flows stageId.
Proof.
  unfold getNodeHeight, nodeHeight_spec.
  fold (incomingOf stageId flows). fold (outgoingOf stageId flows).
  destruct (incomingOf stageId flows) as [| i li] eqn:Ei;
    destruct (outgoingOf stageId flows) as [| o lo] eqn:Eo; simpl length;
    cbn [Nat.eqb andb].
  - reflexivity.
  - apply stackedHeight_formula. discriminate.
  - apply stackedHeight_formula. discriminate.
  - apply stackedHeight_formula. discriminate.
Qed.

(** C6.  [getNodeHeight] is the stacked height of the incoming flows if
    there are any, else of the outgoing flows if there are any, else the
    minimum marker height 480; the stacked height of [n] flows is the sum
    of [max(20, value * 8)] plus [8 * (n - 1)].  With exactly two incoming
    flows of values 10 and 20 the height is 248. *)
Theorem getNodeHeight_formula (flows : list Flow.t) (stageId : string) :
  (incomingOf stageId flows <> [] ->
     getNodeHeight flows stageId
     == sumWidths (incomingOf stageId flows)
        + 8 * (Js.len (incomingOf stageId flows) - 1))
  /\ (incomingOf stageId flows = [] -> outgoingOf stageId flows <> [] ->
     getNodeHeight flows stageId
     == sumWidths (outgoingOf stageId flows)
        + 8 * (Js.len (outgoingOf stageId flows) - 1))
  /\ (incomingOf stageId flows = [] -> outgoingOf stageId flows = [] ->
     getNodeHeight flows stageId == MIN_MARKER_HEIGHT)
  /\ (forall f1 f2 : Flow.t,
        incomingOf stageId flows = [f1; f2] ->
        Flow.value f1 == 10 -> Flow.value f2 == 20 ->
        flowWidth f1 == 80 /\ flowWidth f2 == 160
        /\ getNodeHeight flows stageId == 248).
Proof.
  rewrite getNodeHeight_spec. unfold nodeHeight_spec, stackFormula.
  split; [| split; [| split]].
  - destruct (incomingOf stageId flows); [contradiction | reflexivity].
  - intros -> Ho.
    destruct (outgoingOf stageId flows); [contradiction | reflexivity].
  - intros -> ->. reflexivity.
  - intros f1 f2 E H1 H2.
    rewrite getNodeHeight_spec. unfold nodeHeight_spec, stackFormula.
    rewrite E.
    assert (W1 : flowWidth f1 == 80).
    { unfold flowWidth, HEIGHT_SCALE. js_minmax; lra. }
    assert (W2 : flowWidth f2 == 160).
    { unfold flowWidth, HEIGHT_SCALE. js_minmax; lra. }
    split; [exact W1 |]. split; [exact W2 |].
    unfold sumWidths, Js.len, FLOW_SPACING. simpl.
    rewrite W1, W2. reflexivity.
Qed.

Lemma getNodeHeight_formula_witness :
  let flows := [Flow.mk "a" "Flow 1" "1" "3" 10 (Some 0) None;
                Flow.mk "b" "Flow 2" "2" "3" 20 (Some 0) None] in
  getNodeHeight flows "3" == (80 + 160) + 8 * (2 - 1)
  /\ getNodeHeight flows "3" == 248
  /\ getNodeHeight flows "1" == 80
  /\ getNodeHeight flows "4" == 480.
Proof.
  intros flows.
  pose proof (getNodeHeight_formula flows "3") as [H3i [_ [_ H3]]].
  pose proof (getNodeHeight_formula flows "1") as [_ [H1 _]].
  pose proof (getNodeHeight_formula flows "4") as [_ [_ [H4 _]]].
  split; [| split; [| split]].
  - etransitivity; [apply H3i; discriminate | reflexivity].
  - exact (proj2 (proj2 (H3 _ _ eq_refl (Qeq_refl _) (Qeq_refl _)))).
  - etransitivity; [apply H1; [reflexivity | discriminate] | reflexivity].
  - apply H4; reflexivity.
Defined.

(** ** Stacking layout: hanging flows *)

Lemma find_none_intro {A : Type} (p : A -> bool) (l : list A) :
  (forall x, In x l -> p x = false) -> Js.find p l = None.
Proof.
  unfold Js.find. induction l as [| a l IH]; intros H; simpl; [reflexivity |].
  rewrite (H a) by (left; reflexivity).
  apply IH. intros x Hx. apply H. now right.
Qed.

Lemma lookup_map {A B : Type} (f : A -> B) (l : list A) (i : nat) (x : A) :
  l !! i = Some x -> List.map f l !! i = Some (f x).
Proof.
  revert i. induction l as [| a l IH]; intros [| i] H; simpl in *;
    try discriminate.
  - now injection H as ->.
  - now apply IH.
Qed.

Section Hanging.

Variables canvasWidth canvasHeight : Q.
Variable st : State.
Variable flow : Flow.t.
Hypothesis flow_hanging : hanging st flow.

Lemma hanging_toStage_missing :
  Js.find (fun s => (Stage.id s =? Flow.toStageId flow)%string) (stages st)
  = None.
Proof.
  apply find_none_intro. intros s Hs.
  apply String.eqb_neq. now apply flow_hanging.
Qed.

Lemma hanging_renderFlow :
  renderFlow canvasWidth canvasHeight st flow = None.
Proof.
  unfold renderFlow. rewrite hanging_toStage_missing.
  now destruct (Js.find _ (stages st)).
Qed.

Lemma hanging_not_incoming (stage : Stage.t) :
  In stage (stages st) -> ~ In flow (incomingFlowsOf st stage).
Proof.
  intros Hs Hin. unfold incomingFlowsOf in Hin.
  apply filter_In in Hin. destruct Hin as [_ E].
  apply String.eqb_eq in E. symmetry in E. revert E.
  now apply flow_hanging.
Qed.

End Hanging.

(** C8.  A flow whose [toStageId] matches no stage gets no geometry: the
    body of the flow render loop returns [null] for it, so its entry in the
    rendered flow layer is empty, and no stage marker receives it among its
    incoming flows.  The render pass is a total function of the graph: it
    yields one entry per flow, whatever the stages and flows are. *)
Theorem hanging_flow_excluded (canvasWidth canvasHeight : Q) (st : State)
    (flow : Flow.t) :
  hanging st flow ->
  renderFlow canvasWidth canvasHeight st flow = None
  /\ (forall i : nat, flows st !! i = Some flow ->
        renderFlows canvasWidth canvasHeight st !! i = Some None)
  /\ length (renderFlows canvasWidth canvasHeight st) = length (flows st)
  /\ (forall stage : Stage.t, In stage (stages st) ->
        ~ In flow (incomingFlowsOf st stage)
        /\ length (incomingFlowPositions canvasHeight st stage)
           = length (incomingFlowsOf st stage)).
Proof.
  intros Hh.
  pose proof (hanging_renderFlow canvasWidth canvasHeight st flow Hh) as Hr.
  split; [exact Hr |]. split.
  - intros i Hi. unfold renderFlows.
    rewrite (lookup_map _ _ _ _ Hi). now rewrite Hr.
  - split; [apply length_map |].
    intros stage Hs. split; [now apply hanging_not_incoming |].
    apply length_map.
Qed.

Lemma hanging_flow_excluded_witness :
  let st :=
    mkState [Stage.mk "1" "Start" 0 None None;
             Stage.mk "2" "Stage 2" 20 None None]
      [Flow.mk "a" "Flow 1" "1" "2" 50 (Some 0) None;
       Flow.mk "b" "Flow 2" "1" "9" 50 (Some 1) None] in
  renderFlow 1200 800 st (Flow.mk "b" "Flow 2" "1" "9" 50 (Some 1) None)
  = None.
Proof.
  intros st.
  apply (hanging_flow_excluded 1200 800 st).
  intros s [<- | [<- | []]]; discriminate.
Defined.

(** The layout of [st_with_hanging] on a 1200 x 800 canvas: the flows [a]
    and [c] are stacked on both sides (source centres 152 and 400, target
    centres 356 and 604), the hanging flow [b] has no geometry. *)
Example renderFlows_st_with_hanging :
  List.map (option_map (fun g => (Qred (fromX g), Qred (fromY g),
                                  Qred (toX g), Qred (toY g),
                                  Qred (width g))))
    (renderFlows 1200 800 st_with_hanging)
  = [Some (105, 152, 295, 356, 400); None; Some (105, 400, 295, 604, 80)].
Proof. vm_compute. reflexivity. Qed.

(** ** Subtree recalculation and stage deletion *)

Lemma Forall2_frame_refl (l : list Flow.t) : Forall2 same_frame l l.
Proof. induction l; constructor; auto with frame. Qed.

Lemma Forall2_frame_trans (l k m : list Flow.t) :
  Forall2 same_frame l k -> Forall2 same_frame k m -> Forall2 same_frame l m.
Proof.
  intros H. revert m. induction H as [| x y l k Hxy _ IH]; intros m Hm.
  - inversion Hm. constructor.
  - inversion Hm as [| y' z k' m' Hyz Hkm]; subst.
    constructor; [eapply same_frame_trans; eassumption | now apply IH].
Qed.

Lemma ranked_frame (rank : string -> nat) (l k : list Flow.t) :
  Forall2 same_frame l k -> ranked rank l -> ranked rank k.
Proof.
  unfold ranked. induction 1 as [| x y l k Hxy _ IH]; intros Hl.
  - constructor.
  - inversion Hl as [| ? ? Hx Hl']; subst.
    constructor; [| now apply IH].
    destruct Hxy as (_ & _ & Hf & Ht & _). now rewrite <- Hf, <- Ht.
Qed.

(** Whatever [recalculateSiblingFlowValues] returns differs from its input
    at most in the values. *)
Lemma recalculate_frame (fuel : nat) :
  forall (parentStageId : string) (l l' : list Flow.t),
    recalculateSiblingFlowValues fuel parentStageId l = Some l' ->
    Forall2 same_frame l l'.
Proof.
  induction fuel as [| fuel IH]; intros parent l l' H; simpl in H;
    [discriminate |].
  destruct (length _ =? 0)%nat.
  { injection H as <-. apply Forall2_frame_refl. }
  fold (setOutgoing parent
          (getIncomingFlowValue parent l
           / Js.len (List.filter
                       (fun f => (Flow.fromStageId f =? parent)%string) l)) l)
    in H.
  revert H.
  generalize (setOutgoing_frame parent
          (getIncomingFlowValue parent l
           / Js.len (List.filter
                       (fun f => (Flow.fromStageId f =? parent)%string) l)) l).
  generalize (setOutgoing parent
          (getIncomingFlowValue parent l
           / Js.len (List.filter
                       (fun f => (Flow.fromStageId f =? parent)%string) l)) l).
  generalize (List.filter
                (fun f => (Flow.fromStageId f =? parent)%string) l).
  intros siblings. induction siblings as [| s rest IHs]; intros u Hu H.
  - simpl in H. now injection H as <-.
  - simpl in H.
    destruct (recalculateSiblingFlowValues fuel (Flow.toStageId s) u)
      as [u' |] eqn:Eu.
    + apply (IHs u'); [| exact H].
      eapply Forall2_frame_trans; [exact Hu | now apply (IH _ _ _ Eu)].
    + exfalso. clear -H. induction rest; simpl in H; [discriminate | auto].
Qed.

(** On an acyclic graph the recursion returns: a fuel above the rank of the
    starting stage is enough. *)
Lemma recalculate_terminates (rank : string -> nat) (fuel : nat) :
  forall (parentStageId : string) (l : list Flow.t),
    ranked rank l -> (rank parentStageId < fuel)%nat ->
    exists l', recalculateSiblingFlowValues fuel parentStageId l = Some l'.
Proof.
  induction fuel as [| fuel IH]; intros parent l Hl Hfuel; [lia |].
  simpl. destruct (length _ =? 0)%nat; [eauto |].
  fold (setOutgoing parent
          (getIncomingFlowValue parent l
           / Js.len (List.filter
                       (fun f => (Flow.fromStageId f =? parent)%string) l)) l).
  assert (Hsib : Forall (fun s => (rank (Flow.toStageId s) < fuel)%nat)
                   (List.filter
                      (fun f => (Flow.fromStageId f =? parent)%string) l)).
  { apply List.Forall_forall. intros s Hs. apply filter_In in Hs.
    destruct Hs as [Hin E]. apply String.eqb_eq in E.
    unfold ranked in Hl. rewrite List.Forall_forall in Hl.
    specialize (Hl s Hin). rewrite E in Hl. lia. }
  revert Hsib.
  generalize (ranked_frame rank _ _
                (setOutgoing_frame parent
                   (getIncomingFlowValue parent l
                    / Js.len (List.filter
                                (fun f => (Flow.fromStageId f =? parent)%string)
                                l)) l) Hl).
  generalize (setOutgoing parent
          (getIncomingFlowValue parent l
           / Js.len (List.filter
                       (fun f => (Flow.fromStageId f =? parent)%string) l)) l).
  generalize (List.filter
                (fun f => (Flow.fromStageId f =? parent)%string) l).
  intros siblings. induction siblings as [| s rest IHs]; intros u Hu Hsib.
  - simpl. eauto.
  - simpl. inversion Hsib as [| ? ? Hs Hrest]; subst.
    destruct (IH (Flow.toStageId s) u Hu Hs) as [u' Eu]. rewrite Eu.
    apply IHs; [| exact Hrest].
    eapply ranked_frame; [| exact Hu]. now apply (recalculate_frame _ _ _ _ Eu).
Qed.

Lemma notTouching_spec (stageId : string) (l : list Flow.t) (f : Flow.t) :
  In f (notTouching stageId l)
  <-> In f l /\ Flow.fromStageId f <> stageId /\ Flow.toStageId f <> stageId.
Proof.
  unfold notTouching. rewrite filter_In, Bool.andb_true_iff,
    !Bool.negb_true_iff, !String.eqb_neq. tauto.
Qed.

Lemma ranked_filter (rank : string -> nat) (p : Flow.t -> bool)
    (l : list Flow.t) :
  ranked rank l -> ranked rank (List.filter p l).
Proof.
  unfold ranked. rewrite !List.Forall_forall. intros H f Hf.
  apply filter_In in Hf. now apply H.
Qed.

Section StageDelete.

Variable st : State.
Variable stageId : string.

Lemma delete_root (fuel : nat) :
  incomingOf stageId (flows st) = [] ->
  handleStageDelete fuel st stageId = Some st.
Proof.
  intros H. unfold handleStageDelete. fold (incomingOf stageId (flows st)).
  now rewrite H.
Qed.

Lemma delete_nonroot_result (fuel : nat) (st' : State) :
  incomingOf stageId (flows st) <> [] ->
  handleStageDelete fuel st stageId = Some st' ->
  stages st'
  = List.filter (fun s => negb (Stage.id s =? stageId)%string) (stages st)
  /\ Forall2 same_frame (notTouching stageId (flows st)) (flows st').
Proof.
  intros Hin H. unfold handleStageDelete in H.
  fold (incomingOf stageId (flows st)) in H.
  fold (notTouching stageId (flows st)) in H.
  destruct (incomingOf stageId (flows st)) as [| i li]; [contradiction |].
  simpl length in H. cbn [Nat.eqb] in H.
  destruct (option_map Flow.fromStageId _) as [parent |].
  - destruct (Js.truthy (Some parent)).
    + destruct (recalculateSiblingFlowValues fuel parent _) as [l' |] eqn:E;
        [| discriminate].
      simpl in H. injection H as <-. simpl.
      split; [reflexivity | now apply (recalculate_frame _ _ _ _ E)].
    + simpl in H. injection H as <-. simpl.
      split; [reflexivity | apply Forall2_frame_refl].
  - simpl in H. injection H as <-. simpl.
    split; [reflexivity | apply Forall2_frame_refl].
Qed.

Lemma delete_terminates :
  acyclic (flows st) ->
  exists (fuel : nat) (st' : State), handleStageDelete fuel st stageId = Some st'.
Proof.
  intros [rank Hrank]. unfold handleStageDelete.
  fold (notTouching stageId (flows st)).
  destruct (length _ =? 0)%nat; [exists 0%nat; eauto |].
  destruct (option_map Flow.fromStageId _) as [parent |];
    [| exists 0%nat; simpl; eauto].
  destruct (Js.truthy (Some parent)); [| exists 0%nat; simpl; eauto].
  destruct (recalculate_terminates rank (S (rank parent)) parent
              (notTouching stageId (flows st))) as [l' E];
    [now apply ranked_filter | lia |].
  exists (S (rank parent)). rewrite E. simpl. eauto.
Qed.

End StageDelete.

(** C5.  [handleStageDelete] on a stage without incoming flows changes
    nothing.  On a stage with an incoming flow, whenever the call returns,
    the stages are the former ones without that stage (all others stay, in
    order), and the flows are the former flows that do not touch the stage,
    changed at most in their values: no remaining flow starts or ends at the
    deleted stage.  The call does return on every acyclic flow graph. *)
Theorem deleteStage_root_protected_else_removed (st : State)
    (stageId : string) :
  (incomingOf stageId (flows st) = [] ->
     forall fuel : nat, handleStageDelete fuel st stageId = Some st)
  /\ (incomingOf stageId (flows st) <> [] ->
      (forall (fuel : nat) (st' : State),
         handleStageDelete fuel st stageId = Some st' ->
         stages st'
         = List.filter (fun s => negb (Stage.id s =? stageId)%string)
             (stages st)
         /\ (forall s : Stage.t,
               In s (stages st') <-> In s (stages st) /\ Stage.id s <> stageId)
         /\ Forall2 same_frame (notTouching stageId (flows st)) (flows st')
         /\ (forall f : Flow.t, In f (flows st') ->
               Flow.fromStageId f <> stageId /\ Flow.toStageId f <> stageId))
      /\ (acyclic (flows st) ->
          exists (fuel : nat) (st' : State),
            handleStageDelete fuel st stageId = Some st')).
Proof.
  split.
  - intros Hroot fuel. now apply delete_root.
  - intros Hin. split; [| apply delete_terminates].
    intros fuel st' H.
    destruct (delete_nonroot_result st stageId fuel st' Hin H) as [Hs Hf].
    split; [exact Hs |]. split; [| split; [exact Hf |]].
    + intros s. rewrite Hs, filter_In, Bool.negb_true_iff, String.eqb_neq.
      tauto.
    + intros f Hf'.
      apply list_elem_of_In, list_elem_of_lookup in Hf'.
      destruct Hf' as [i Hi].
      destruct (Forall2_lookup_r _ _ _ _ _ Hf Hi) as [g [Hg Hgf]].
      assert (Hg' : In g (notTouching stageId (flows st))).
      { apply list_elem_of_In, list_elem_of_lookup. eauto. }
      apply notTouching_spec in Hg'. destruct Hg' as (_ & Hfrom & Hto).
      destruct Hgf as (_ & _ & Ef & Et & _). now rewrite <- Ef, <- Et.
Qed.

Lemma deleteStage_root_protected_else_removed_witness :
  let st :=
    mkState [Stage.mk "1" "Start" 0 None None;
             Stage.mk "A" "Stage 2" 20 None None;
             Stage.mk "B" "Stage 3" 20 None None]
      [Flow.mk "A" "Flow 1" "1" "A" 80 (Some 0) None;
       Flow.mk "B" "Flow 2" "1" "B" 20 (Some 1) None] in
  let st' :=
    mkState [Stage.mk "1" "Start" 0 None None;
             Stage.mk "B" "Stage 3" 20 None None]
      [Flow.mk "B" "Flow 2" "1" "B" (100 # 1) (Some 1) None] in
  handleStageDelete 2 st "1" = Some st
  /\ handleStageDelete 2 st "A" = Some st'
  /\ (forall s : Stage.t,
        In s (stages st') <-> In s (stages st) /\ Stage.id s <> "A")
  /\ exists (fuel : nat) (st'' : State),
       handleStageDelete fuel st "A" = Some st''.
Proof.
  intros st st'.
  pose proof (deleteStage_root_protected_else_removed st "1") as [Hroot _].
  pose proof (deleteStage_root_protected_else_removed st "A") as [_ Hdel].
  assert (Hin : incomingOf "A" (flows st) <> []) by discriminate.
  destruct (Hdel Hin) as [Hres Hterm].
  assert (E : handleStageDelete 2 st "A" = Some st') by reflexivity.
  split; [apply Hroot; reflexivity |].
  split; [exact E |].
  split; [exact (proj1 (proj2 (Hres 2%nat st' E))) |].
  apply Hterm.
  exists (fun s => if (s =? "1")%string then 1%nat else 0%nat).
  repeat constructor.
Defined.

(** ** Manual edit: the first redistribution *)

Lemma gt_true_iff (a b : Q) : Js.gt a b = true <-> b < a.
Proof.
  unfold Js.gt. rewrite Bool.negb_true_iff. split.
  - apply Qle_bool_false.
  - intros H. destruct (Qle_bool a b) eqn:E; [| reflexivity].
    apply Qle_bool_iff in E. lra.
Qed.

Lemma length_pos_iff {A : Type} (l : list A) :
  (0 <? length l)%nat = true <-> l <> [].
Proof.
  destruct l as [| a l]; simpl; split; intros H.
  - discriminate H.
  - exfalso. now apply H.
  - discriminate.
  - reflexivity.
Qed.

Lemma bind_None_iff {A B : Type} (o : option A) (k : A -> option B) :
  (forall u, k u <> None) ->
  match o with Some u => k u | None => None end = None <-> o = None.
Proof.
  intros Hk. destruct o as [u |]; [| tauto].
  split; [intros H; now apply Hk in H | discriminate].
Qed.

(** The division of the second redistribution is guarded: it never has a
    zero divisor. *)
Lemma finalRedistribution_finite (stages : list Stage.t) (editingFlow : Flow.t)
    (clamped : Q) (updatedFlows : list Flow.t) :
  finalRedistribution stages editingFlow clamped updatedFlows <> None.
Proof.
  unfold finalRedistribution. cbv zeta.
  destruct (1 <? length _)%nat; [| discriminate].
  destruct (0 <? length _)%nat; [| discriminate].
  destruct (Js.gt (Js.Math_max 0 _) 0); [| discriminate]. cbn [andb].
  match goal with
  | |- context [Js.gt ?sum 0] => destruct (Js.gt sum 0) eqn:E;
      [apply gt_true_iff in E | discriminate]
  end.
  unfold Js.div.
  match goal with
  | |- context [Qeq_bool ?sum 0] => destruct (Qeq_bool sum 0) eqn:E0;
      [apply Qeq_bool_iff in E0; lra | discriminate]
  end.
Qed.

Lemma firstRedistribution_None_iff (flows : list Flow.t)
    (editingFlow : Flow.t) :
  firstRedistribution flows editingFlow = None
  <-> dividesByZero flows editingFlow.
Proof.
  unfold firstRedistribution, dividesByZero. cbv zeta.
  fold (outgoingOf (Flow.fromStageId editingFlow)
          (List.map (fun f => if (Flow.id f =? Flow.id editingFlow)%string
                              then Flow.with_value editingFlow
                                     (clampedFlowValue flows editingFlow)
                              else f) flows)).
  fold (editOutgoing flows editingFlow).
  fold (editOthers flows editingFlow).
  fold (editRemaining flows editingFlow).
  destruct (1 <? length (editOutgoing flows editingFlow))%nat eqn:E1.
  2:{ split; [discriminate |].
      intros [H _]. apply Nat.ltb_lt in H. congruence. }
  apply Nat.ltb_lt in E1.
  destruct (0 <? length (editOthers flows editingFlow))%nat eqn:E2.
  2:{ cbn [andb]. split; [discriminate |].
      intros (_ & H & _). apply length_pos_iff in H. congruence. }
  apply length_pos_iff in E2. cbn [andb].
  destruct (Js.gt (editRemaining flows editingFlow) 0) eqn:E3.
  2:{ split.
      - destruct (Js.le _ _); discriminate.
      - intros (_ & _ & H & _). apply gt_true_iff in H. congruence. }
  apply gt_true_iff in E3. unfold Js.div.
  destruct (Qeq_bool (Js.sum Flow.value (editOthers flows editingFlow)) 0)
    eqn:E4.
  - apply Qeq_bool_iff in E4. tauto.
  - apply Qeq_bool_neq in E4. split; [discriminate | tauto].
Qed.

(** [handleFlowUpdate] yields no finite result exactly when its first
    redistribution divides by zero. *)
Lemma handleFlowUpdate_None_iff (stages : list Stage.t) (flows : list Flow.t)
    (editingFlow : Flow.t) :
  handleFlowUpdate stages flows editingFlow = None
  <-> dividesByZero flows editingFlow.
Proof.
  rewrite <- firstRedistribution_None_iff. unfold handleFlowUpdate.
  apply bind_None_iff. intros u. apply finalRedistribution_finite.
Qed.

(** ** Scenarios from the initial state *)

Section Scenarios.

Variable generateSimilarColor : string -> Q -> string.

Local Abbreviation run1 := (run 1200 1 generateSimilarColor).
Local Abbreviation reachable1 := (reachable 1200 1 generateSimilarColor).

Lemma not_conserved (st : State) (s : Stage.t) (out inc : Q) :
  In s (stages st) ->
  Out_ (Stage.id s) (flows st) == out ->
  In_ (Stage.id s) (flows st) == inc ->
  0 < out -> 1 # 100 < Qabs (out - inc) ->
  ~ conservation st.
Proof.
  intros Hs Hout Hin Hpos Hgap Hc.
  specialize (Hc s Hs). unfold conserved_at in Hc.
  rewrite Hout, Hin in Hc. specialize (Hc Hpos).
  apply (Qlt_not_le _ _ Hgap). exact Hc.
Qed.

(** C1.  Conservation is not an invariant of the engine operations: after
    three branches from the root and a manual edit of the first flow to
    100%, the root sends out 100 + 100/3 + 100/3 against an incoming
    budget of 100. *)
Theorem conservation_broken_by_manual_edit :
  exists st : State,
    run1 1%nat initialState ops_edit_to_full = Some st
    /\ reachable1 st
    /\ List.map (fun f => (Flow.id f, Qred (Flow.value f))) (flows st)
       = [("A", 100); ("B", 100 # 3); ("C", 100 # 3)]
    /\ In rootStage (stages st)
    /\ Out_ "1" (flows st) == 500 # 3
    /\ In_ "1" (flows st) == 100
    /\ ~ conservation st.
Proof.
  eexists. split; [vm_compute; reflexivity |].
  split; [exists 1%nat, ops_edit_to_full; vm_compute; reflexivity |].
  split; [vm_compute; reflexivity |].
  assert (Hroot : forall l, In rootStage (rootStage :: l))
    by (intros; left; reflexivity).
  split; [apply Hroot |].
  assert (Hout : forall a b c : option string,
            Out_ "1" [Flow.mk "A" "Flow 1" "1" "A" (10000 # 100) (Some 0) a;
                      Flow.mk "B" "Flow 2" "1" "B" (100 # 3) (Some 1) b;
                      Flow.mk "C" "Flow 3" "1" "C" (100 # 3) (Some 2) c]
            == 500 # 3) by (intros; vm_compute; reflexivity).
  split; [apply Hout |].
  split; [vm_compute; reflexivity |].
  eapply (not_conserved _ rootStage (500 # 3) 100);
    [apply Hroot | apply Hout | vm_compute | |]; reflexivity.
Qed.

(** Deleting an inner stage leaves its children as roots with their old
    outgoing values: stage [4] keeps sending 50 against a root budget of
    100. *)
Lemma conservation_broken_by_delete :
  exists st : State,
    run1 2%nat initialState ops_delete_inner = Some st
    /\ List.map (fun f => (Flow.id f, Qred (Flow.value f))) (flows st)
       = [("3", 100); ("5", 50)]
    /\ (exists s, In s (stages st) /\ Stage.id s = "4")
    /\ Out_ "4" (flows st) == 50
    /\ In_ "4" (flows st) == 100
    /\ ~ conservation st.
Proof.
  eexists. split; [vm_compute; reflexivity |].
  split; [vm_compute; reflexivity |].
  split; [eexists; split; [right; right; left; reflexivity | reflexivity] |].
  split; [vm_compute; reflexivity |].
  split; [vm_compute; reflexivity |].
  eapply (not_conserved _ _ 50 100);
    [right; right; left; reflexivity | vm_compute | vm_compute | |];
    reflexivity.
Qed.

(** C2.  [balanceFlows] is not idempotent.  In the graph reached by
    [ops_linked], a further branch from the root hands [balanceFlows] the
    list [created]; one pass leaves the flow [A -> C] at 75 (stage [A] is
    visited before its parent [B] is rebalanced), a second pass moves it to
    50. *)
Theorem balanceFlows_not_idempotent :
  exists st : State,
    run1 1%nat initialState ops_linked = Some st
    /\ let created :=
         createFlowWithProportionalSplit (flows st) "E" "1" "E" (flows st)
           None in
       let once := balanceFlows (stages st) created in
       let twice := balanceFlows (stages st) once in
       List.map (fun f => (Flow.id f, Qred (Flow.value f))) created
       = [("P", 50); ("A", 50); ("C", 100); ("B", 50); ("L", 50); ("E", 50)]
       /\ List.map (fun f => (Flow.id f, Qred (Flow.value f))) once
          = [("P", 50); ("A", 25); ("C", 75); ("B", 25); ("L", 25); ("E", 50)]
       /\ List.map (fun f => (Flow.id f, Qred (Flow.value f))) twice
          = [("P", 50); ("A", 25); ("C", 50); ("B", 25); ("L", 25); ("E", 50)]
       /\ ~ values_within (1 # 100) twice once.
Proof.
  eexists. split; [vm_compute; reflexivity |].
  cbv zeta.
  split; [vm_compute; reflexivity |].
  split; [vm_compute; reflexivity |].
  split; [vm_compute; reflexivity |].
  intros H.
  match type of H with
  | values_within _ ?t ?o =>
      assert (Ht : exists x, t !! 2%nat = Some x /\ Flow.value x == 50)
        by (eexists; split; vm_compute; reflexivity);
      assert (Ho : exists y, o !! 2%nat = Some y /\ Flow.value y == 75)
        by (eexists; split; vm_compute; reflexivity)
  end.
  destruct Ht as [x [Hx Vx]]. destruct Ho as [y [Hy Vy]].
  pose proof (Forall2_lookup_lr _ _ _ _ _ _ H Hx Hy) as Hxy.
  cbv beta in Hxy. rewrite Vx, Vy in Hxy.
  revert Hxy. apply Qlt_not_le. reflexivity.
Qed.

(** The same defect seen as a broken invariant: after the further branch,
    stage [A] receives 25 + 25 and sends 75. *)
Lemma conservation_broken_by_branch :
  exists st : State,
    run1 1%nat initialState
      (ops_linked ++ [BranchToCanvas "1" 300 600 "E"]) = Some st
    /\ (exists s, In s (stages st) /\ Stage.id s = "A")
    /\ Out_ "A" (flows st) == 75
    /\ In_ "A" (flows st) == 50
    /\ ~ conservation st.
Proof.
  eexists. split; [vm_compute; reflexivity |].
  split; [eexists; split; [right; right; left; reflexivity | reflexivity] |].
  split; [vm_compute; reflexivity |].
  split; [vm_compute; reflexivity |].
  eapply (not_conserved _ _ 75 50);
    [right; right; left; reflexivity | vm_compute | vm_compute | |];
    reflexivity.
Qed.

(** The zero sibling input is reachable.  After two branches from the root
    and an edit of the first flow to 0%, the flows are [A = 0] and
    [B = 100]; editing [B] to 50% leaves 50 to distribute over the other
    flows, whose sum is 0: the guard
    [otherFlows.length > 0 && remainingValue > 0] holds and the quotient
    [remainingValue / otherFlowsSum] is not finite. *)
Lemma zero_sibling_input_reachable :
  exists st : State,
    run1 1%nat initialState ops_edit_to_zero = Some st
    /\ List.map (fun f => (Flow.id f, Flow.fromStageId f, Qred (Flow.value f)))
         (flows st)
       = [("A", "1", 0); ("B", "1", 100)]
    /\ exists flowB : Flow.t,
         Js.find (fun f => (Flow.id f =? "B")%string) (flows st) = Some flowB
         /\ let editingFlow := Flow.with_value flowB 50 in
            List.map Flow.id (editOthers (flows st) editingFlow) = ["A"]
            /\ Js.sum Flow.value (editOthers (flows st) editingFlow) == 0
            /\ editRemaining (flows st) editingFlow == 50
            /\ dividesByZero (flows st) editingFlow
            /\ handleFlowUpdate (stages st) (flows st) editingFlow = None
            /\ applyOp 1200 1 generateSimilarColor 1 st (ManualEdit "B" 50)
               = None.
Proof.
  eexists. split; [vm_compute; reflexivity |].
  split; [vm_compute; reflexivity |].
  eexists. split; [vm_compute; reflexivity |].
  cbv zeta.
  split; [vm_compute; reflexivity |].
  split; [vm_compute; reflexivity |].
  split; [vm_compute; reflexivity |].
  match goal with
  | |- dividesByZero ?fl ?e /\ _ =>
      assert (Hd : dividesByZero fl e)
  end.
  { unfold dividesByZero.
    split; [vm_compute; lia |].
    split; [vm_compute; discriminate |].
    split; vm_compute; reflexivity. }
  split; [exact Hd |].
  split; [now apply handleFlowUpdate_None_iff |].
  vm_compute. reflexivity.
Qed.

(** The scenarios A, B and C of the spec: one branch carries 100, two
    branches 50 each, an edit of the first to 80% gives 80 and 20, and
    deleting the first stage leaves 100 on the second flow. *)
Lemma spec_scenarios_A_B_C :
  option_map flowValues
    (run1 1%nat initialState [BranchToCanvas "1" 300 400 "A"])
  = Some [("A", 100)]
  /\ option_map flowValues
       (run1 1%nat initialState
          [BranchToCanvas "1" 300 400 "A"; BranchToCanvas "1" 300 500 "B"])
     = Some [("A", 50); ("B", 50)]
  /\ option_map flowValues
       (run1 1%nat initialState
          [BranchToCanvas "1" 300 400 "A"; BranchToCanvas "1" 300 500 "B";
           ManualEdit "A" 80])
     = Some [("A", 80); ("B", 20)]
  /\ option_map flowValues
       (run1 2%nat initialState
          [BranchToCanvas "1" 300 400 "A"; BranchToCanvas "1" 300 500 "B";
           ManualEdit "A" 80; DeleteStage "A"])
     = Some [("B", 100)].
Proof. repeat split; vm_compute; reflexivity. Qed.

End Scenarios.

(** ** Manual edit: floor and guarded division *)

Section ManualEdit.

Variable flows : list Flow.t.
Variable editingFlow : Flow.t.

Hypothesis several_outgoing : (1 < length (editOutgoing flows editingFlow))%nat.
Hypothesis some_others : editOthers flows editingFlow <> [].

(** With no budget left, the other flows of the source get the floor. *)
Lemma firstRedistribution_floor :
  editRemaining flows editingFlow <= 0 ->
  exists updatedFlows : list Flow.t,
    firstRedistribution flows editingFlow = Some updatedFlows
    /\ forall f : Flow.t,
         In f updatedFlows ->
         Flow.fromStageId f = Flow.fromStageId editingFlow ->
         Flow.id f <> Flow.id editingFlow ->
         Flow.value f = 1 # 100.
Proof.
  intros Hrem. unfold firstRedistribution. cbv zeta.
  fold (outgoingOf (Flow.fromStageId editingFlow)
          (List.map (fun f => if (Flow.id f =? Flow.id editingFlow)%string
                              then Flow.with_value editingFlow
                                     (clampedFlowValue flows editingFlow)
                              else f) flows)).
  fold (editOutgoing flows editingFlow).
  fold (editOthers flows editingFlow).
  fold (editRemaining flows editingFlow).
  apply Nat.ltb_lt in several_outgoing. rewrite several_outgoing.
  apply length_pos_iff in some_others. rewrite some_others. cbn [andb].
  assert (E3 : Js.gt (editRemaining flows editingFlow) 0 = false).
  { destruct (Js.gt _ 0) eqn:E; [| reflexivity].
    apply gt_true_iff in E. lra. }
  assert (E4 : Js.le (editRemaining flows editingFlow) 0 = true)
    by now apply Qle_bool_iff.
  rewrite E3, E4. eexists. split; [reflexivity |].
  intros f Hin Hfrom Hid. apply in_map_iff in Hin.
  destruct Hin as [g [<- _]].
  destruct (Flow.fromStageId g =? Flow.fromStageId editingFlow)%string eqn:Ef;
    destruct (Flow.id g =? Flow.id editingFlow)%string eqn:Ei;
    cbn [andb negb] in *; try reflexivity.
  - apply String.eqb_eq in Ei. contradiction.
  - apply String.eqb_neq in Ef. contradiction.
  - apply String.eqb_neq in Ef. contradiction.
Qed.

(** With a non-zero sum of the others, the first division is defined. *)
Lemma firstRedistribution_nonzero_sum :
  ~ Js.sum Flow.value (editOthers flows editingFlow) == 0 ->
  firstRedistribution flows editingFlow <> None.
Proof.
  intros Hsum H. apply firstRedistribution_None_iff in H.
  destruct H as (_ & _ & _ & H). contradiction.
Qed.

End ManualEdit.

(** Where the redistribution is safe.  In [handleFlowUpdate] with several
    outgoing flows of the source stage, some of them other than the edited
    one: when the edited value leaves no budget ([remainingValue <= 0]), the
    first redistribution sets each other flow to the floor 0.01; when the
    other flows do not sum to zero, the first redistribution does not
    divide by zero; and the second redistribution never divides by zero. *)
Theorem manual_edit_floor_and_guard (stages : list Stage.t)
    (flows : list Flow.t) (editingFlow : Flow.t) :
  (1 < length (editOutgoing flows editingFlow))%nat ->
  editOthers flows editingFlow <> [] ->
  (editRemaining flows editingFlow <= 0 ->
     exists updatedFlows : list Flow.t,
       firstRedistribution flows editingFlow = Some updatedFlows
       /\ forall f : Flow.t,
            In f updatedFlows ->
            Flow.fromStageId f = Flow.fromStageId editingFlow ->
            Flow.id f <> Flow.id editingFlow ->
            Flow.value f = 1 # 100)
  /\ (~ Js.sum Flow.value (editOthers flows editingFlow) == 0 ->
      firstRedistribution flows editingFlow <> None
      /\ handleFlowUpdate stages flows editingFlow <> None)
  /\ (forall (clamped : Q) (updatedFlows : list Flow.t),
        finalRedistribution stages editingFlow clamped updatedFlows <> None).
Proof.
  intros Hout Hothers. split; [| split].
  - now apply firstRedistribution_floor.
  - intros Hsum. split; [now apply firstRedistribution_nonzero_sum |].
    intros H. apply handleFlowUpdate_None_iff in H.
    destruct H as (_ & _ & _ & H). contradiction.
  - intros clamped u. apply finalRedistribution_finite.
Qed.

Lemma manual_edit_floor_and_guard_witness :
  let flows := [Flow.mk "A" "Flow 1" "1" "A" 50 (Some 0) None;
                Flow.mk "B" "Flow 2" "1" "B" 50 (Some 1) None] in
  let editingFlow := Flow.mk "A" "Flow 1" "1" "A" 100 (Some 0) None in
  firstRedistribution flows editingFlow
  = Some [Flow.mk "A" "Flow 1" "1" "A" (10000 # 100) (Some 0) None;
          Flow.mk "B" "Flow 2" "1" "B" (1 # 100) (Some 1) None]
  /\ (forall f : Flow.t,
        In f [Flow.mk "A" "Flow 1" "1" "A" (10000 # 100) (Some 0) None;
              Flow.mk "B" "Flow 2" "1" "B" (1 # 100) (Some 1) None] ->
        Flow.fromStageId f = "1" -> Flow.id f <> "A" ->
        Flow.value f = 1 # 100)
  /\ handleFlowUpdate [] flows editingFlow <> None.
Proof.
  intros flows editingFlow.
  assert (Hout : (1 < length (editOutgoing flows editingFlow))%nat)
    by (vm_compute; lia).
  assert (Hothers : editOthers flows editingFlow <> []) by discriminate.
  destruct (manual_edit_floor_and_guard [] flows editingFlow Hout Hothers)
    as (Hfloor & Hsum & _).
  destruct Hfloor as [u [Eu Hu]]; [vm_compute; discriminate |].
  assert (E : firstRedistribution flows editingFlow
              = Some [Flow.mk "A" "Flow 1" "1" "A" (10000 # 100) (Some 0) None;
                      Flow.mk "B" "Flow 2" "1" "B" (1 # 100) (Some 1) None])
    by reflexivity.
  split; [exact E |].
  rewrite E in Eu. injection Eu as <-.
  split; [exact Hu |].
  apply Hsum. vm_compute. discriminate.
Defined.

(** C4.  The redistribution of [handleFlowUpdate] does divide by a zero
    sibling sum.  After two branches from the root and an edit of the first
    flow to 0%, the flows are [A = 0] and [B = 100]; editing [B] to 50%
    leaves 50 to share among the other flows, whose values sum to 0: the
    guard [otherFlows.length > 0 && remainingValue > 0] holds, so the floor
    0.01 is not applied and [scaleFactor = 50 / 0] is not finite.  In
    binary64 the value stored for [A] is [0 * Infinity], that is [NaN]. *)
Theorem manual_edit_divides_by_zero_sum
    (generateSimilarColor : string -> Q -> string) :
  exists (st : State) (flowB : Flow.t),
    run 1200 1 generateSimilarColor 1 initialState ops_edit_to_zero = Some st
    /\ List.map (fun f => (Flow.id f, Flow.fromStageId f, Qred (Flow.value f)))
         (flows st)
       = [("A", "1", 0); ("B", "1", 100)]
    /\ Js.find (fun f => (Flow.id f =? "B")%string) (flows st) = Some flowB
    /\ let editingFlow := Flow.with_value flowB 50 in
       List.map Flow.id (editOthers (flows st) editingFlow) = ["A"]
       /\ Js.sum Flow.value (editOthers (flows st) editingFlow) == 0
       /\ editRemaining (flows st) editingFlow == 50
       /\ dividesByZero (flows st) editingFlow
       /\ firstRedistribution (flows st) editingFlow = None
       /\ handleFlowUpdate (stages st) (flows st) editingFlow = None
       /\ ~ zero_sum_floored (flows st) editingFlow
       /\ List.map PrimFloat.is_nan
            (B64.redistributeOthers 100 (B64.clampedFlowValue 50 100)
               [0%float])
          = [true].
Proof.
  destruct (zero_sibling_input_reachable generateSimilarColor)
    as (st & Hrun & Hvalues & flowB & Hfind & Hedit).
  cbv zeta in Hedit.
  destruct Hedit as (Hothers & Hsum & Hrem & Hdiv & Hupdate & _).
  exists st, flowB. split; [exact Hrun |]. split; [exact Hvalues |].
  split; [exact Hfind |]. cbv zeta.
  split; [exact Hothers |]. split; [exact Hsum |]. split; [exact Hrem |].
  split; [exact Hdiv |].
  split; [now apply firstRedistribution_None_iff |].
  split; [exact Hupdate |].
  split; [intros [_ Hsafe]; exact (Hsafe Hdiv) |].
  vm_compute. reflexivity.
Qed.

(** The balance test at the floor value.  After a sibling has been set to
    0.01 under a source whose other flow takes the whole budget of 100, the
    outgoing sum is [100 + 0.01]: in exact arithmetic it is not more than
    0.01 away from 100, in binary64 it is. *)
Lemma balance_test_at_floor :
  Js.gt (Js.Math_abs (100 + (1 # 100) - 100)) (1 # 100) = false
  /\ B64.outOfBalance (100 + 0x1.47ae147ae147bp-7)%float 100%float = true.
Proof. split; vm_compute; reflexivity. Qed.

(** ** Rebalance on a balanced graph *)

Lemma balanceStage_balanced (fl : list Flow.t) (stage : Stage.t) :
  balanced_at (Stage.id stage) fl -> balanceStage fl stage = fl.
Proof.
  unfold balanced_at, balanceStage, Out_, In_, outgoingOf.
  intros [Hnone | Hbal].
  - now rewrite Hnone.
  - destruct (0 <? length _)%nat; [| reflexivity].
    destruct (Js.gt _ _) eqn:E; [| reflexivity].
    apply gt_true_iff in E. unfold Js.Math_abs in E. lra.
Qed.

(** If every listed stage is balanced, [balanceFlows] changes nothing: a
    pass that balanced all stages would make a second pass a no-op. *)
Lemma balanceFlows_fixed_point (stages : list Stage.t) (fl : list Flow.t) :
  (forall s : Stage.t, In s stages -> balanced_at (Stage.id s) fl) ->
  balanceFlows stages fl = fl.
Proof.
  unfold balanceFlows. induction stages as [| s rest IH]; intros H; simpl;
    [reflexivity |].
  rewrite balanceStage_balanced by (apply H; now left).
  apply IH. intros s' Hs'. apply H. now right.
Qed.

(** * Further properties of the component *)

(** ** Ticker axis *)

(** [snapToTicker] returns a tenth of an integer between -100 and 1100. *)
Lemma snapToTicker_tenth (p : Q) :
  exists m : Z, (-100 <= m <= 1100)%Z /\ snapToTicker p == inject_Z m / 10.
Proof.
  unfold snapToTicker, Js.Math_round, CANVAS_MIN_POSITION, CANVAS_MAX_POSITION.
  set (k := Qfloor (p * 10 + (1 # 2))).
  js_minmax;
    first [ exists k; split; [| reflexivity];
            unfold Qlt, Qle, Qdiv, Qmult, Qinv, inject_Z in *;
            simpl in *; lia
          | exists 1100%Z; split; [lia | reflexivity]
          | exists (-100)%Z; split; [lia | reflexivity] ].
Qed.

Lemma ticker_lookup (k : nat) :
  (k < 1201)%nat ->
  getTickerPositions !! k
  = Some (mkTicker (inject_Z (-100 + Z.of_nat k) / 10)
            (Z.rem (-100 + Z.of_nat k) 10 =? 0)%Z).
Proof.
  intros Hk. unfold getTickerPositions.
  apply (lookup_map
           (fun k : nat =>
              mkTicker (inject_Z (-100 + Z.of_nat k) / 10)
                (Z.rem (-100 + Z.of_nat k) 10 =? 0)%Z)
           (seq 0 1201) k k).
  rewrite lookup_seq. split; [reflexivity | exact Hk].
Qed.

Lemma ticker_In (t : Ticker) :
  In t getTickerPositions <->
  exists i : Z, (-100 <= i <= 1100)%Z
    /\ t = mkTicker (inject_Z i / 10) (Z.rem i 10 =? 0)%Z.
Proof.
  unfold getTickerPositions. rewrite in_map_iff. split.
  - intros [k [<- Hk]]. apply in_seq in Hk.
    exists (-100 + Z.of_nat k)%Z. split; [lia | reflexivity].
  - intros [i [Hi ->]]. exists (Z.to_nat (i + 100)).
    split; [| apply in_seq; lia].
    replace (-100 + Z.of_nat (Z.to_nat (i + 100)))%Z with i by lia.
    reflexivity.
Qed.

(** X1.  [getTickerPositions] yields 1201 tickers, the [k]-th at
    [-10 + k / 10], from -10 to 110; a ticker is major exactly when its
    position is an integer; every ticker position is left unchanged by
    [snapToTicker]; and [snapToTicker] of any position is the position of
    one of the tickers. *)
Theorem tickers_cover_snapped_positions :
  length getTickerPositions = 1201%nat
  /\ (forall k : nat, (k < 1201)%nat ->
        exists t : Ticker,
          getTickerPositions !! k = Some t
          /\ tickerPosition t == -10 + inject_Z (Z.of_nat k) / 10)
  /\ (forall t : Ticker, In t getTickerPositions ->
        -10 <= tickerPosition t <= 110
        /\ (isMajor t = true <-> exists z : Z, tickerPosition t == inject_Z z)
        /\ snapToTicker (tickerPosition t) == tickerPosition t)
  /\ (forall p : Q, exists t : Ticker,
        In t getTickerPositions /\ tickerPosition t == snapToTicker p).
Proof.
  split; [reflexivity |]. split; [| split].
  - intros k Hk. eexists. split; [now apply ticker_lookup |].
    cbn [tickerPosition]. rewrite inject_Z_plus. field.
  - intros t Ht. apply ticker_In in Ht. destruct Ht as [i [Hi ->]].
    cbn [tickerPosition isMajor].
    assert (Hrange : -10 <= inject_Z i / 10 <= 110).
    { unfold Qle, Qdiv, Qmult, Qinv, inject_Z. simpl. lia. }
    split; [exact Hrange |]. split.
    + rewrite Z.eqb_eq. split.
      * intros Hrem. apply Z.rem_divide in Hrem; [| lia].
        destruct Hrem as [z Hz]. exists z. subst i.
        rewrite inject_Z_mult. field.
      * intros [z Hz]. apply Z.rem_divide; [lia |]. exists z.
        unfold Qeq, Qdiv, Qmult, Qinv, inject_Z in Hz. simpl in Hz. lia.
    + unfold snapToTicker.
      rewrite (Math_round_integer (inject_Z i / 10 * 10) i) by field.
      apply clamp_id. exact Hrange.
  - intros p. destruct (snapToTicker_tenth p) as [m [Hm Em]].
    exists (mkTicker (inject_Z m / 10) (Z.rem m 10 =? 0)%Z).
    split; [apply ticker_In; eauto |]. cbn [tickerPosition]. now rewrite Em.
Qed.

(** ** The flow editor *)

(** A map that changes values only keeps every frame. *)
Lemma map_frame (h : Flow.t -> Flow.t) (l : list Flow.t) :
  (forall f, same_frame f (h f)) -> Forall2 same_frame l (List.map h l).
Proof. intros Hh. induction l; simpl; constructor; auto. Qed.

(** The redistribution maps of [handleFlowUpdate] change values only, and
    never a flow that has the id of the edited flow. *)
Lemma redistribute_spec (editingFlow : Flow.t) (source : string)
    (newValue : Flow.t -> Q) (l : list Flow.t) :
  let r :=
    List.map (fun flow =>
      if (Flow.fromStageId flow =? source)%string
         && negb (Flow.id flow =? Flow.id editingFlow)%string
      then Flow.with_value flow (newValue flow) else flow) l in
  Forall2 same_frame l r
  /\ forall g, In g r -> Flow.id g = Flow.id editingFlow -> In g l.
Proof.
  cbv zeta. split.
  - apply map_frame. intros f.
    destruct (_ && _); auto with frame.
  - intros g Hg Hid. apply in_map_iff in Hg. destruct Hg as [f [<- Hf]].
    destruct (Flow.fromStageId f =? source)%string;
      destruct (Flow.id f =? Flow.id editingFlow)%string eqn:E;
      cbn [andb negb] in *; try exact Hf.
    apply String.eqb_neq in E. contradiction.
Qed.

(** Putting the edited flow in place of every flow with its id. *)
Lemma reapply_spec (editingFlow actual : Flow.t) (l : list Flow.t) :
  Flow.id actual = Flow.id editingFlow ->
  let r :=
    List.map (fun f => if (Flow.id f =? Flow.id editingFlow)%string
                       then actual else f) l in
  Forall2 (fun f g =>
             same_frame
               (if (Flow.id f =? Flow.id editingFlow)%string then actual else f)
               g) l r
  /\ forall g, In g r -> Flow.id g = Flow.id editingFlow -> g = actual.
Proof.
  intros Hid. cbv zeta. split.
  - induction l as [| f l IH]; simpl; constructor; [| exact IH].
    apply same_frame_refl.
  - intros g Hg Hg'. apply in_map_iff in Hg. destruct Hg as [f [<- Hf]].
    destruct (Flow.id f =? Flow.id editingFlow)%string eqn:E; [reflexivity |].
    apply String.eqb_neq in E. contradiction.
Qed.

(** A frame-preserving step keeps the frames of the list in which the
    edited flow has been put. *)
Lemma edited_frame_step (editingFlow actual : Flow.t) (l u u' : list Flow.t) :
  Forall2 (fun f g =>
             same_frame
               (if (Flow.id f =? Flow.id editingFlow)%string then actual else f)
               g) l u ->
  Forall2 same_frame u u' ->
  Forall2 (fun f g =>
             same_frame
               (if (Flow.id f =? Flow.id editingFlow)%string then actual else f)
               g) l u'.
Proof.
  intros H. revert u'. induction H as [| f g l u Hfg _ IH]; intros u' Hu.
  - inversion Hu. constructor.
  - inversion Hu as [| g' g'' u0 u0' Hgg Huu]; subst.
    constructor; [eapply same_frame_trans; eassumption | now apply IH].
Qed.

Lemma edited_frame_reapply (editingFlow actual : Flow.t)
    (l k : list Flow.t) :
  Flow.id actual = Flow.id editingFlow ->
  Forall2 (fun f g =>
             same_frame
               (if (Flow.id f =? Flow.id editingFlow)%string then actual else f)
               g) l k ->
  Forall2 (fun f g =>
             same_frame
               (if (Flow.id f =? Flow.id editingFlow)%string then actual else f)
               g) l
    (List.map (fun f => if (Flow.id f =? Flow.id editingFlow)%string
                        then actual else f) k).
Proof.
  intros Hid H. induction H as [| f g l k Hfg _ IH]; simpl; constructor;
    [| exact IH].
  destruct (Flow.id g =? Flow.id editingFlow)%string eqn:Eg; [| exact Hfg].
  apply String.eqb_eq in Eg.
  destruct (Flow.id f =? Flow.id editingFlow)%string eqn:Ef;
    [apply same_frame_refl |].
  apply String.eqb_neq in Ef. destruct Hfg as [Hi _]. congruence.
Qed.

Lemma clampedFlowValue_range (flows : list Flow.t) (editingFlow : Flow.t) :
  0 <= getIncomingFlowValue (Flow.fromStageId editingFlow) flows ->
  0 <= clampedFlowValue flows editingFlow
       <= getIncomingFlowValue (Flow.fromStageId editingFlow) flows.
Proof.
  intros Hin. unfold clampedFlowValue. cbv zeta.
  generalize dependent (getIncomingFlowValue (Flow.fromStageId editingFlow)
                          flows).
  intros inc Hin. js_minmax; lra.
Qed.

(** The frames of the list that [handleFlowUpdate] returns: the edited
    flow, with its clamped value, in place of every flow with its id. *)
Lemma handleFlowUpdate_frames (stages : list Stage.t) (flows : list Flow.t)
    (editingFlow : Flow.t) (result : list Flow.t) :
  let actual :=
    Flow.with_value editingFlow (clampedFlowValue flows editingFlow) in
  handleFlowUpdate stages flows editingFlow = Some result ->
  Forall2 (fun f g =>
             same_frame
               (if (Flow.id f =? Flow.id editingFlow)%string
                then actual else f) g) flows result
  /\ forall g, In g result -> Flow.id g = Flow.id editingFlow -> g = actual.
Proof.
  intros actual H.
  assert (Hid : Flow.id actual = Flow.id editingFlow) by reflexivity.
  unfold handleFlowUpdate in H.
  destruct (firstRedistribution flows editingFlow) as [u |] eqn:E1;
    [| discriminate].
  (* the list handed to balanceFlows *)
  assert (Hu : Forall2 (fun f g =>
             same_frame
               (if (Flow.id f =? Flow.id editingFlow)%string
                then actual else f) g) flows u).
  { unfold firstRedistribution in E1. cbv zeta in E1.
    fold actual in E1.
    pose proof (proj1 (reapply_spec editingFlow actual flows Hid)) as H0.
    cbv zeta in H0.
    repeat match type of E1 with
           | (if ?b then _ else _) = _ => destruct b
           | match ?o with Some _ => _ | None => _ end = _ =>
               destruct o; [| discriminate]
           end;
      injection E1 as <-; try exact H0;
      (eapply edited_frame_step; [exact H0 |];
       apply (proj1 (redistribute_spec editingFlow _ _ _))). }
  unfold finalRedistribution in H. cbv zeta in H. fold actual in H.
  set (u3 := List.map (fun f => if (Flow.id f =? Flow.id editingFlow)%string
                                then actual else f)
               (balanceFlows stages u)) in *.
  assert (Hu3 : Forall2 (fun f g =>
             same_frame
               (if (Flow.id f =? Flow.id editingFlow)%string
                then actual else f) g) flows u3
           /\ forall g, In g u3 -> Flow.id g = Flow.id editingFlow ->
                        g = actual).
  { split.
    - apply edited_frame_reapply; [exact Hid |].
      eapply edited_frame_step; [exact Hu |].
      apply balanceFlows_frame, Forall2_frame_refl.
    - apply (proj2 (reapply_spec editingFlow actual
                      (balanceFlows stages u) Hid)). }
  destruct Hu3 as [Hf3 Hv3].
  repeat match type of H with
         | (if ?b then _ else _) = _ => destruct b
         | match ?o with Some _ => _ | None => _ end = _ =>
             destruct o; [| discriminate]
         end;
    injection H as <-; try (split; assumption).
  pose proof (redistribute_spec editingFlow (Flow.fromStageId editingFlow)
                (fun flow => Flow.value flow * q) u3) as [Hs1 Hs2].
  cbv zeta in Hs1, Hs2. split.
  - eapply edited_frame_step; [exact Hf3 | exact Hs1].
  - intros g Hg Hg'. apply Hv3; [now apply Hs2 | exact Hg'].
Qed.

(** X3.  Whenever [handleFlowUpdate] returns, the list has the length of
    the input; every flow with the id of the edited flow is exactly the
    edited flow with its clamped value; every other flow keeps its id,
    name, endpoints, branchIndex and colour; and the clamped value lies
    between 0 and the incoming value of the source stage when that is not
    negative. *)
Theorem handleFlowUpdate_keeps_edit (stages : list Stage.t)
    (flows : list Flow.t) (editingFlow : Flow.t) (result : list Flow.t) :
  handleFlowUpdate stages flows editingFlow = Some result ->
  length result = length flows
  /\ Forall2 (fun f g =>
                same_frame
                  (if (Flow.id f =? Flow.id editingFlow)%string
                   then editingFlow else f) g) flows result
  /\ (forall g : Flow.t, In g result -> Flow.id g = Flow.id editingFlow ->
        g = Flow.with_value editingFlow (clampedFlowValue flows editingFlow))
  /\ (0 <= getIncomingFlowValue (Flow.fromStageId editingFlow) flows ->
      0 <= clampedFlowValue flows editingFlow
           <= getIncomingFlowValue (Flow.fromStageId editingFlow) flows).
Proof.
  intros H. set (actual := Flow.with_value editingFlow
                             (clampedFlowValue flows editingFlow)).
  pose proof (handleFlowUpdate_frames stages flows editingFlow result H)
    as Hmain.
  cbv zeta in Hmain. fold actual in Hmain.
  destruct Hmain as [HF HV].
  split; [symmetry; exact (Forall2_length _ _ _ HF) |].
  split; [| split; [exact HV | apply clampedFlowValue_range]].
  eapply Forall2_impl; [exact HF |]. intros f g Hfg. cbv beta in *.
  destruct (Flow.id f =? Flow.id editingFlow)%string; [| exact Hfg].
  eapply same_frame_trans; [apply same_frame_with_value | exact Hfg].
Qed.

Lemma handleFlowUpdate_keeps_edit_witness :
  let flows := [Flow.mk "A" "Flow 1" "1" "A" 50 (Some 0) None;
                Flow.mk "B" "Flow 2" "1" "B" 50 (Some 1) None] in
  let editingFlow := Flow.mk "A" "Main" "1" "A" 80 (Some 0) None in
  exists result : list Flow.t,
    handleFlowUpdate [Stage.mk "1" "Start" 0 None None] flows editingFlow
    = Some result
    /\ List.map (fun f => (Flow.name f, Qred (Flow.value f))) result
       = [("Main", 80); ("Flow 2", 20)]
    /\ length result = length flows
    /\ forall g : Flow.t, In g result -> Flow.id g = "A" ->
         g = Flow.with_value editingFlow (clampedFlowValue flows editingFlow).
Proof.
  intros flows editingFlow. eexists.
  assert (E : handleFlowUpdate [Stage.mk "1" "Start" 0 None None] flows
                editingFlow = Some _) by (vm_compute; reflexivity).
  destruct (handleFlowUpdate_keeps_edit _ _ _ _ E) as (Hlen & _ & Hv & _).
  split; [exact E |]. split; [reflexivity |].
  split; [exact Hlen | exact Hv].
Defined.

(** X2.  Opening the editor on a known flow selects it and shows its value
    as a percentage between 0 and 100 of the incoming value of its source;
    the value that saving this percentage unchanged gives to the flow is
    within 0.01 of the value it had.  This holds for a flow whose value lies
    between 0 and the incoming value of its source. *)
Theorem flow_editor_round_trip (flows : list Flow.t) (flowId : string)
    (flow : Flow.t) :
  Js.find (fun f => (Flow.id f =? flowId)%string) flows = Some flow ->
  0 <= Flow.value flow
       <= getIncomingFlowValue (Flow.fromStageId flow) flows ->
  exists editingFlow : Flow.t,
    handleFlowClick flows None None flowId = (Some flowId, Some editingFlow)
    /\ same_frame flow editingFlow
    /\ 0 <= Flow.value editingFlow <= 100
    /\ Qabs (clampedFlowValue flows editingFlow - Flow.value flow)
       <= 1 # 100.
Proof.
  intros Hfind Hv. unfold handleFlowClick. rewrite Hfind.
  eexists. split; [reflexivity |].
  split; [apply same_frame_with_value |].
  unfold clampedFlowValue. cbn [Flow.with_value Flow.value Flow.fromStageId].
  revert Hv.
  generalize (getIncomingFlowValue (Flow.fromStageId flow) flows).
  generalize (Flow.value flow). intros v inc Hv.
  destruct (Js.gt inc 0) eqn:E.
  - apply gt_true_iff in E.
    assert (E1 : v / inc * 100 / 100 * inc == v) by (field; lra).
    assert (H0 : 0 <= v / inc) by (apply Qle_shift_div_l; lra).
    assert (H1 : v / inc <= 1) by (apply Qle_shift_div_r; lra).
    split; [lra |].
    revert E1. generalize (v / inc * 100 / 100 * inc). intros y E1.
    apply Qabs_Qle_condition. js_minmax; lra.
  - assert (Hinc : inc <= 0).
    { destruct (Qlt_le_dec 0 inc) as [Hlt | Hle]; [| exact Hle].
      apply gt_true_iff in Hlt. congruence. }
    split; [lra |].
    assert (E1 : 0 / 100 * inc == 0) by field.
    revert E1. generalize (0 / 100 * inc). intros y E1.
    apply Qabs_Qle_condition. js_minmax; lra.
Qed.

Lemma flow_editor_round_trip_witness :
  let flows := [Flow.mk "A" "Flow 1" "1" "A" 80 (Some 0) None;
                Flow.mk "B" "Flow 2" "1" "B" 20 (Some 1) None;
                Flow.mk "C" "Flow 3" "A" "C" 20 (Some 0) None] in
  exists editingFlow : Flow.t,
    handleFlowClick flows None None "C" = (Some "C", Some editingFlow)
    /\ Flow.value editingFlow == 25
    /\ Qabs (clampedFlowValue flows editingFlow - 20) <= 1 # 100.
Proof.
  intros flows.
  destruct (flow_editor_round_trip flows "C"
              (Flow.mk "C" "Flow 3" "A" "C" 20 (Some 0) None))
    as [e (He & _ & _ & Hc)];
    [reflexivity | split; discriminate |].
  exists e. split; [exact He |]. split; [| exact Hc].
  injection He as <-. reflexivity.
Defined.

(** ** Sums of flow values *)

Lemma sum_shift {A : Type} (g : A -> Q) (l : list A) (a : Q) :
  fold_left (fun acc x => acc + g x) l a == a + Js.sum g l.
Proof.
  unfold Js.sum. revert a. induction l as [| x l IH]; intros a; simpl.
  - ring.
  - rewrite IH, (IH (0 + g x)). ring.
Qed.

Lemma sum_cons {A : Type} (g : A -> Q) (x : A) (l : list A) :
  Js.sum g (x :: l) == g x + Js.sum g l.
Proof. unfold Js.sum at 1. simpl. rewrite sum_shift. ring. Qed.

Lemma sum_app {A : Type} (g : A -> Q) (l k : list A) :
  Js.sum g (l ++ k) == Js.sum g l + Js.sum g k.
Proof.
  induction l as [| x l IH]; simpl.
  - unfold Js.sum at 2. simpl. ring.
  - rewrite !sum_cons, IH. ring.
Qed.

Lemma len_cons {A : Type} (x : A) (l : list A) :
  Js.len (x :: l) == Js.len l + 1.
Proof. apply len_succ. Qed.

(** A sum of [n] values that are all [v] is [n * v]. *)
Lemma sum_all_equal (v : Q) (l : list Flow.t) :
  (forall f, In f l -> Flow.value f == v) ->
  Js.sum Flow.value l == Js.len l * v.
Proof.
  induction l as [| x l IH]; intros H.
  - unfold Js.sum, Js.len. simpl. ring.
  - rewrite sum_cons, len_cons, IH by (intros f Hf; apply H; now right).
    rewrite (H x) by now left. ring.
Qed.

Lemma sum_nonneg (l : list Flow.t) :
  Forall (fun f => 0 <= Flow.value f) l -> 0 <= Js.sum Flow.value l.
Proof.
  induction 1 as [| x l Hx _ IH].
  - unfold Js.sum. simpl. lra.
  - rewrite sum_cons. lra.
Qed.

Lemma len_pos {A : Type} (l : list A) : l <> [] -> 0 < Js.len l.
Proof.
  destruct l as [| x l]; [contradiction |]. intros _.
  rewrite len_cons. unfold Js.len.
  assert (0 <= inject_Z (Z.of_nat (length l))).
  { unfold Qle, inject_Z. simpl. lia. }
  lra.
Qed.

Lemma len_nonneg {A : Type} (l : list A) : 0 <= Js.len l.
Proof. unfold Js.len, Qle, inject_Z. simpl. lia. Qed.

(** An equal split over the outgoing flows sums to the budget. *)
Lemma equal_split_sum (budget : Q) (l : list Flow.t) :
  l <> [] ->
  (forall f, In f l -> Flow.value f == budget / Js.len l) ->
  Js.sum Flow.value l == budget.
Proof.
  intros Hl H. rewrite (sum_all_equal _ _ H).
  pose proof (len_pos l Hl). field. lra.
Qed.

(** ** Frames and the flows of a stage *)

Lemma frame_outgoingOf (s : string) (l k : list Flow.t) :
  Forall2 same_frame l k ->
  Forall2 same_frame (outgoingOf s l) (outgoingOf s k).
Proof.
  unfold outgoingOf. induction 1 as [| f g l k Hfg _ IH]; simpl;
    [constructor |].
  destruct Hfg as (Hi & Hn & Hf & Ht & Hb & Hc). rewrite <- Hf.
  destruct (Flow.fromStageId f =? s)%string; [constructor |]; auto.
  repeat split; assumption.
Qed.

Lemma frame_incomingOf (s : string) (l k : list Flow.t) :
  Forall2 same_frame l k ->
  Forall2 same_frame (incomingOf s l) (incomingOf s k).
Proof.
  unfold incomingOf. induction 1 as [| f g l k Hfg _ IH]; simpl;
    [constructor |].
  destruct Hfg as (Hi & Hn & Hf & Ht & Hb & Hc). rewrite <- Ht.
  destruct (Flow.toStageId f =? s)%string; [constructor |]; auto.
  repeat split; assumption.
Qed.

Lemma frame_In (l k : list Flow.t) (g : Flow.t) :
  Forall2 same_frame l k -> In g k -> exists f, In f l /\ same_frame f g.
Proof.
  induction 1 as [| f g' l k Hfg _ IH]; intros Hg; [contradiction |].
  destruct Hg as [<- | Hg].
  - exists f. split; [now left | exact Hfg].
  - destruct (IH Hg) as [f' [Hf' Hs]]. exists f'. split; [now right | exact Hs].
Qed.

Lemma frame_no_self_loop (s : string) (l k : list Flow.t) :
  Forall2 same_frame l k -> no_self_loop s l -> no_self_loop s k.
Proof.
  intros HF Hl g Hg Hfrom. destruct (frame_In _ _ _ HF Hg) as [f [Hf Hs]].
  destruct Hs as (_ & _ & Ef & Et & _). rewrite <- Et. apply (Hl f Hf).
  congruence.
Qed.

Lemma frame_unique_ids (l k : list Flow.t) :
  Forall2 same_frame l k -> unique_ids l -> unique_ids k.
Proof.
  unfold unique_ids. intros HF.
  replace (List.map Flow.id k) with (List.map Flow.id l); [auto |].
  induction HF as [| f g l k Hfg _ IH]; simpl; [reflexivity |].
  destruct Hfg as [Hi _]. now rewrite Hi, IH.
Qed.

(** Setting the outgoing values of [s] does not touch the flows into [s]
    when [s] has no self-loop. *)
Lemma setOutgoing_incoming (s : string) (v : Q) (l : list Flow.t) :
  no_self_loop s l -> incomingOf s (setOutgoing s v l) = incomingOf s l.
Proof.
  unfold incomingOf, setOutgoing. induction l as [| f l IH]; intros H; simpl;
    [reflexivity |].
  assert (IH' : List.filter (fun f => (Flow.toStageId f =? s)%string)
                  (List.map (fun flow =>
                     if (Flow.fromStageId flow =? s)%string
                     then Flow.with_value flow v else flow) l)
                = List.filter (fun f => (Flow.toStageId f =? s)%string) l).
  { apply IH. intros g Hg. apply H. now right. }
  destruct (Flow.fromStageId f =? s)%string eqn:Ef.
  - apply String.eqb_eq in Ef.
    assert (Et : (Flow.toStageId f =? s)%string = false).
    { apply String.eqb_neq. apply (H f); [now left | exact Ef]. }
    cbn [Flow.with_value Flow.toStageId]. rewrite Et. exact IH'.
  - destruct (Flow.toStageId f =? s)%string; [f_equal |]; exact IH'.
Qed.

Lemma In_incomingOf (s : string) (l : list Flow.t) :
  In_ s l = if (length (incomingOf s l) =? 0)%nat then 100
            else Js.sum Flow.value (incomingOf s l).
Proof. reflexivity. Qed.

Lemma setOutgoing_Out (s : string) (v : Q) (l : list Flow.t) :
  Out_ s (setOutgoing s v l) == Js.len (outgoingOf s l) * v.
Proof.
  unfold Out_. fold (outgoingOf s (setOutgoing s v l)).
  rewrite (sum_all_equal v).
  - unfold Js.len. now rewrite setOutgoing_outgoing_length.
  - intros f Hf. unfold outgoingOf in Hf. apply filter_In in Hf.
    destruct Hf as [Hf Ef]. apply String.eqb_eq in Ef.
    now rewrite (setOutgoing_value _ _ _ _ Hf Ef).
Qed.

(** X4.  Branch creation conserves the branching stage: in the list
    returned by [createFlowWithProportionalSplit] on the current flows, the
    outgoing values of the source stage sum to its incoming value as it
    was before, within 0.01; if the target is another stage and the source
    has no self-loop, the incoming value is unchanged and the source stage
    is conserved. *)
Theorem createFlow_conserves_source (flows : list Flow.t)
    (now fromStageId toStageId : string) (flowColor : option string) :
  let result :=
    createFlowWithProportionalSplit flows now fromStageId toStageId flows
      flowColor in
  Qabs (Out_ fromStageId result - In_ fromStageId flows) <= 1 # 100
  /\ (toStageId <> fromStageId -> no_self_loop fromStageId flows ->
      In_ fromStageId result = In_ fromStageId flows
      /\ conserved_at fromStageId result).
Proof.
  intros result. subst result. rewrite createFlow_shape. cbv zeta.
  set (share := getIncomingFlowValue fromStageId flows
                / (Js.len (outgoingOf fromStageId flows) + 1)).
  set (newFlow := Flow.mk _ _ _ _ _ _ _).
  assert (Hout : Out_ fromStageId
                   (setOutgoing fromStageId share flows ++ [newFlow])
                 == In_ fromStageId flows).
  { unfold Out_. rewrite List.filter_app, sum_app.
    fold (Out_ fromStageId (setOutgoing fromStageId share flows)).
    rewrite setOutgoing_Out. simpl. rewrite String.eqb_refl.
    unfold Js.sum at 1. simpl. subst share. unfold In_.
    pose proof (len_nonneg (outgoingOf fromStageId flows)). field. lra. }
  assert (Hclose : Qabs (Out_ fromStageId
                            (setOutgoing fromStageId share flows ++ [newFlow])
                          - In_ fromStageId flows) <= 1 # 100).
  { rewrite Hout. apply Qabs_Qle_condition. split; lra. }
  split; [exact Hclose |]. intros Hne Hloop.
  assert (Hin : In_ fromStageId
                  (setOutgoing fromStageId share flows ++ [newFlow])
                = In_ fromStageId flows).
  { rewrite !In_incomingOf. unfold incomingOf at 1 2.
    rewrite !List.filter_app. simpl.
    replace (toStageId =? fromStageId)%string with false
      by (symmetry; now apply String.eqb_neq).
    rewrite !app_nil_r.
    fold (incomingOf fromStageId (setOutgoing fromStageId share flows)).
    now rewrite setOutgoing_incoming. }
  split; [exact Hin |]. unfold conserved_at. rewrite Hin.
  intros _. exact Hclose.
Qed.

Lemma createFlow_conserves_source_witness :
  let flows := [Flow.mk "a" "Flow 1" "1" "2" 60 (Some 0) None;
                Flow.mk "b" "Flow 2" "2" "3" 10 (Some 0) None;
                Flow.mk "c" "Flow 3" "2" "4" 50 (Some 1) None] in
  let result :=
    createFlowWithProportionalSplit flows "d" "2" "5" flows None in
  Qabs (Out_ "2" result - In_ "2" flows) <= 1 # 100
  /\ In_ "2" result = In_ "2" flows
  /\ conserved_at "2" result.
Proof.
  intros flows result.
  destruct (createFlow_conserves_source flows "d" "2" "5" None)
    as [Hout Hrest].
  destruct Hrest as (Hin & Hc).
  - discriminate.
  - intros f [<- | [<- | [<- | []]]] Hf; discriminate.
  - split; [exact Hout |]. split; [exact Hin | exact Hc].
Defined.

(** ** Subtree recalculation on an acyclic graph *)

Lemma Forall2_In_r {A B : Type} (R : A -> B -> Prop) (l : list A)
    (k : list B) (y : B) :
  Forall2 R l k -> In y k -> exists x, In x l /\ R x y.
Proof.
  induction 1 as [| x y' l k Hxy _ IH]; intros Hy; [contradiction |].
  destruct Hy as [<- | Hy].
  - exists x. split; [now left | exact Hxy].
  - destruct (IH Hy) as [x' [Hx' Hr]]. exists x'. split; [now right | exact Hr].
Qed.

Lemma kept_above_frame (rank : string -> nat) (bound : nat)
    (l k : list Flow.t) :
  Forall2 (kept_above rank bound) l k -> Forall2 same_frame l k.
Proof. intros H. eapply Forall2_impl; [exact H |]. now intros f g [Hs _]. Qed.

Lemma kept_above_mono (rank : string -> nat) (b b' : nat)
    (l k : list Flow.t) :
  (b <= b')%nat ->
  Forall2 (kept_above rank b) l k -> Forall2 (kept_above rank b') l k.
Proof.
  intros Hb H. eapply Forall2_impl; [exact H |].
  intros f g [Hs Hk]. split; [exact Hs |]. intros Hr. apply Hk. lia.
Qed.

Lemma kept_above_trans (rank : string -> nat) (b : nat)
    (l k m : list Flow.t) :
  Forall2 (kept_above rank b) l k -> Forall2 (kept_above rank b) k m ->
  Forall2 (kept_above rank b) l m.
Proof.
  intros H. revert m. induction H as [| f g l k Hfg _ IH]; intros m Hm.
  - inversion Hm. constructor.
  - inversion Hm as [| g' h k' m' Hgh Hkm]; subst.
    constructor; [| now apply IH].
    destruct Hfg as [Sfg Kfg], Hgh as [Sgh Kgh]. split.
    + eapply same_frame_trans; eassumption.
    + intros Hr. rewrite <- (Kfg Hr). apply Kgh.
      destruct Sfg as (_ & _ & Ef & _). now rewrite <- Ef.
Qed.

Lemma kept_above_refl (rank : string -> nat) (b : nat) (l : list Flow.t) :
  Forall2 (kept_above rank b) l l.
Proof.
  induction l; constructor; [| assumption].
  split; [apply same_frame_refl | reflexivity].
Qed.

Lemma setOutgoing_kept (rank : string -> nat) (s : string) (v : Q)
    (l : list Flow.t) :
  Forall2 (kept_above rank (S (rank s))) l (setOutgoing s v l).
Proof.
  induction l as [| f l IH]; simpl; constructor; [| exact IH].
  destruct (Flow.fromStageId f =? s)%string eqn:E.
  - apply String.eqb_eq in E. split; [apply same_frame_with_value |].
    rewrite E. lia.
  - split; [apply same_frame_refl | reflexivity].
Qed.

Lemma setOutgoing_none (s : string) (v : Q) (l : list Flow.t) :
  outgoingOf s l = [] -> setOutgoing s v l = l.
Proof.
  unfold outgoingOf. induction l as [| f l IH]; simpl; [reflexivity |].
  destruct (Flow.fromStageId f =? s)%string; [discriminate |].
  intros H. now rewrite IH.
Qed.

(** The recursion below a stage changes neither the flows that leave the
    stage nor those of stages of higher rank: its result is the list in
    which the outgoing flows of the stage have the equal share, up to the
    values of flows of lower rank. *)
Lemma recalculate_kept (rank : string -> nat) (fuel : nat) :
  forall (p : string) (l l' : list Flow.t),
    ranked rank l ->
    recalculateSiblingFlowValues fuel p l = Some l' ->
    Forall2 (kept_above rank (rank p))
      (setOutgoing p (getIncomingFlowValue p l / Js.len (outgoingOf p l)) l)
      l'.
Proof.
  induction fuel as [| fuel IH]; intros p l l' Hl H; simpl in H;
    [discriminate |].
  fold (outgoingOf p l) in H.
  destruct (length (outgoingOf p l) =? 0)%nat eqn:E0.
  { injection H as <-. apply Nat.eqb_eq in E0.
    rewrite setOutgoing_none by (now destruct (outgoingOf p l)).
    apply kept_above_refl. }
  fold (setOutgoing p
          (getIncomingFlowValue p l / Js.len (outgoingOf p l)) l) in H.
  assert (Hsib : Forall (fun s => (rank (Flow.toStageId s) < rank p)%nat)
                   (outgoingOf p l)).
  { apply List.Forall_forall. intros s Hs. unfold outgoingOf in Hs.
    apply filter_In in Hs. destruct Hs as [Hin E]. apply String.eqb_eq in E.
    unfold ranked in Hl. rewrite List.Forall_forall in Hl.
    specialize (Hl s Hin). now rewrite E in Hl. }
  assert (Hu0 : ranked rank
                  (setOutgoing p
                     (getIncomingFlowValue p l / Js.len (outgoingOf p l)) l))
    by (eapply ranked_frame; [apply setOutgoing_frame | exact Hl]).
  revert H Hsib Hu0.
  generalize (setOutgoing p
                (getIncomingFlowValue p l / Js.len (outgoingOf p l)) l).
  generalize (outgoingOf p l).
  intros siblings. induction siblings as [| s rest IHs]; intros u H Hsib Hu.
  - simpl in H. injection H as <-. apply kept_above_refl.
  - simpl in H. inversion Hsib as [| ? ? Hs Hrest]; subst.
    destruct (recalculateSiblingFlowValues fuel (Flow.toStageId s) u)
      as [u' |] eqn:Eu.
    + pose proof (IH _ _ _ Hu Eu) as Hchild.
      assert (Hstep : Forall2 (kept_above rank (rank p)) u u').
      { eapply kept_above_trans.
        - eapply kept_above_mono; [| apply setOutgoing_kept]. exact Hs.
        - eapply kept_above_mono; [| exact Hchild]. lia. }
      eapply kept_above_trans; [exact Hstep |].
      apply IHs; [exact H | exact Hrest |].
      eapply ranked_frame; [| exact Hu].
      now apply (recalculate_frame _ _ _ _ Eu).
    + exfalso. clear -H. induction rest; simpl in H; [discriminate | auto].
Qed.

Lemma kept_outgoingOf (rank : string -> nat) (b : nat) (p : string)
    (u l' : list Flow.t) :
  (b <= rank p)%nat ->
  Forall2 (kept_above rank b) u l' -> outgoingOf p l' = outgoingOf p u.
Proof.
  intros Hb. unfold outgoingOf.
  induction 1 as [| f g u l' [Hs Hk] _ IH]; simpl; [reflexivity |].
  destruct Hs as (_ & _ & Ef & _). rewrite <- Ef.
  destruct (Flow.fromStageId f =? p)%string eqn:E; [| exact IH].
  apply String.eqb_eq in E. rewrite Hk by (rewrite E; lia). now rewrite IH.
Qed.

Lemma kept_incomingOf (rank : string -> nat) (b : nat) (p : string)
    (u l' : list Flow.t) :
  (b <= S (rank p))%nat -> ranked rank u ->
  Forall2 (kept_above rank b) u l' -> incomingOf p l' = incomingOf p u.
Proof.
  intros Hb Hu H. unfold incomingOf.
  induction H as [| f g u l' [Hs Hk] _ IH]; simpl; [reflexivity |].
  inversion Hu as [| ? ? Hf Hu']; subst.
  destruct Hs as (_ & _ & _ & Et & _). rewrite <- Et.
  destruct (Flow.toStageId f =? p)%string eqn:E; [| now apply IH].
  apply String.eqb_eq in E. rewrite E in Hf.
  rewrite Hk by lia. now rewrite IH.
Qed.

Lemma ranked_no_self_loop (rank : string -> nat) (s : string)
    (l : list Flow.t) :
  ranked rank l -> no_self_loop s l.
Proof.
  unfold ranked. rewrite List.Forall_forall. intros H f Hf Hfrom Hto.
  specialize (H f Hf). rewrite Hfrom, Hto in H. lia.
Qed.

Section RecalculateConserves.

Variable rank : string -> nat.
Variables (fuel : nat) (p : string) (l l' : list Flow.t).
Hypothesis l_ranked : ranked rank l.
Hypothesis returns : recalculateSiblingFlowValues fuel p l = Some l'.

Lemma recalculate_untouched :
  Forall2 (kept_above rank (S (rank p))) l l'.
Proof.
  eapply kept_above_trans; [apply setOutgoing_kept |].
  eapply kept_above_mono; [| apply (recalculate_kept _ _ _ _ _ l_ranked returns)].
  lia.
Qed.

Lemma recalculate_incoming : In_ p l' = In_ p l.
Proof.
  rewrite !In_incomingOf.
  now rewrite (kept_incomingOf rank _ p l l' (Nat.le_refl _) l_ranked
                 recalculate_untouched).
Qed.

Lemma recalculate_outgoing_value (g : Flow.t) :
  In g l' -> Flow.fromStageId g = p ->
  Flow.value g = In_ p l / Js.len (outgoingOf p l).
Proof.
  intros Hg Hfrom.
  destruct (Forall2_In_r _ _ _ _
              (recalculate_kept _ _ _ _ _ l_ranked returns) Hg)
    as [f [Hf [Hs Hk]]].
  assert (Ef : Flow.fromStageId f = p).
  { destruct Hs as (_ & _ & E & _). congruence. }
  rewrite Hk by (rewrite Ef; lia).
  apply (setOutgoing_value _ _ _ _ Hf Ef).
Qed.

Lemma recalculate_conserved : conserved_at p l'.
Proof.
  unfold conserved_at, Out_. fold (outgoingOf p l'). intros Hpos.
  assert (Hlen : length (outgoingOf p l') = length (outgoingOf p l)).
  { symmetry.
    exact (Forall2_length _ _ _
             (frame_outgoingOf p l l'
                (kept_above_frame _ _ _ _ recalculate_untouched))). }
  assert (Hne : outgoingOf p l <> []).
  { intros E. rewrite E in Hlen. destruct (outgoingOf p l'); [| discriminate].
    unfold Js.sum in Hpos. simpl in Hpos. lra. }
  assert (Hsum : Js.sum Flow.value (outgoingOf p l') == In_ p l').
  { rewrite recalculate_incoming.
    rewrite (sum_all_equal (In_ p l / Js.len (outgoingOf p l))).
    - unfold Js.len at 1. rewrite Hlen. fold (Js.len (outgoingOf p l)).
      pose proof (len_pos _ Hne). field. lra.
    - intros g Hg. unfold outgoingOf in Hg. apply filter_In in Hg.
      destruct Hg as [Hg E]. apply String.eqb_eq in E.
      now rewrite (recalculate_outgoing_value g Hg E). }
  rewrite Hsum. apply Qabs_Qle_condition. split; lra.
Qed.

End RecalculateConserves.

(** X5.  On an acyclic flow graph (ranked so that every flow leads to a
    lower rank), whenever [recalculateSiblingFlowValues] returns: the flows
    that leave stages of higher rank than the starting stage are untouched,
    the incoming value of the starting stage is unchanged, each of its
    outgoing flows carries that incoming value divided by their number, and
    the starting stage is conserved. *)
Theorem recalculate_conserves_start (rank : string -> nat) (fuel : nat)
    (p : string) (l l' : list Flow.t) :
  ranked rank l ->
  recalculateSiblingFlowValues fuel p l = Some l' ->
  (forall (i : nat) (f : Flow.t),
     l !! i = Some f -> (rank p < rank (Flow.fromStageId f))%nat ->
     l' !! i = Some f)
  /\ In_ p l' = In_ p l
  /\ (forall g : Flow.t, In g l' -> Flow.fromStageId g = p ->
        Flow.value g = In_ p l / Js.len (outgoingOf p l))
  /\ conserved_at p l'.
Proof.
  intros Hl H. split; [| split; [| split]].
  - intros i f Hi Hr.
    destruct (Forall2_lookup_l _ _ _ _ _
                (recalculate_untouched rank fuel p l l' Hl H) Hi)
      as [g [Hg [_ Hk]]].
    rewrite Hg. f_equal. apply Hk. lia.
  - exact (recalculate_incoming rank fuel p l l' Hl H).
  - exact (recalculate_outgoing_value rank fuel p l l' Hl H).
  - exact (recalculate_conserved rank fuel p l l' Hl H).
Qed.

Lemma recalculate_conserves_start_witness :
  let l := [Flow.mk "a" "Flow 1" "1" "2" 100 (Some 0) None;
            Flow.mk "b" "Flow 2" "2" "3" 10 (Some 0) None;
            Flow.mk "c" "Flow 3" "2" "4" 50 (Some 1) None;
            Flow.mk "d" "Flow 4" "3" "5" 7 (Some 0) None] in
  exists l' : list Flow.t,
    recalculateSiblingFlowValues 3 "2" l = Some l'
    /\ List.map (fun f => (Flow.id f, Qred (Flow.value f))) l'
       = [("a", 100); ("b", 50); ("c", 50); ("d", 50)]
    /\ l' !! 0%nat = l !! 0%nat
    /\ conserved_at "2" l'.
Proof.
  intros l. eexists.
  assert (E : recalculateSiblingFlowValues 3 "2" l = Some _)
    by (vm_compute; reflexivity).
  pose (rank := fun s : string =>
          if (s =? "1")%string then 3%nat
          else if (s =? "2")%string then 2%nat
          else if (s =? "3")%string then 1%nat else 0%nat).
  assert (Hl : ranked rank l) by (repeat constructor).
  destruct (recalculate_conserves_start rank _ _ _ _ Hl E)
    as (Hkeep & _ & _ & Hc).
  split; [exact E |]. split; [reflexivity |].
  split; [apply (Hkeep 0%nat); [reflexivity | vm_compute; lia] | exact Hc].
Defined.

(** ** Disconnecting a flow, deleting a stage: what is repaired *)

Lemma find_some_In {A : Type} (p : A -> bool) (l : list A) (x : A) :
  Js.find p l = Some x -> In x l /\ p x = true.
Proof. apply List.find_some. Qed.

Lemma filter_other_ids_frame (flowId : string) (l : list Flow.t) (g : Flow.t) :
  In g (List.filter (fun f => negb (Flow.id f =? flowId)%string) l) ->
  Flow.id g <> flowId.
Proof.
  intros H. apply filter_In in H. destruct H as [_ H].
  now apply Bool.negb_true_iff, String.eqb_neq in H.
Qed.

(** X6.  [handleDisconnectParent] with an unknown flow id changes nothing.
    Whenever it returns, the stages are unchanged and the flows are the
    former flows with another id, changed at most in their values, so that
    no flow with the given id is left.  It returns on every acyclic flow
    graph. *)
Theorem disconnect_removes_flow (st : State) (flowId : string) :
  (Js.find (fun f => (Flow.id f =? flowId)%string) (flows st) = None ->
     forall fuel : nat, handleDisconnectParent fuel st flowId = Some st)
  /\ (forall (fuel : nat) (st' : State),
        handleDisconnectParent fuel st flowId = Some st' ->
        stages st' = stages st
        /\ Forall2 same_frame
             (List.filter (fun f => negb (Flow.id f =? flowId)%string)
                (flows st))
             (flows st')
        /\ (forall g : Flow.t, In g (flows st') -> Flow.id g <> flowId))
  /\ (acyclic (flows st) ->
      exists (fuel : nat) (st' : State),
        handleDisconnectParent fuel st flowId = Some st').
Proof.
  split; [| split].
  - intros Hnone fuel. unfold handleDisconnectParent. now rewrite Hnone.
  - intros fuel st' H.
    assert (Hmain : stages st' = stages st
              /\ Forall2 same_frame
                   (List.filter (fun f => negb (Flow.id f =? flowId)%string)
                      (flows st)) (flows st')).
    { unfold handleDisconnectParent in H.
      destruct (Js.find _ (flows st)) as [flow |] eqn:Ef.
      - set (l1 := List.filter
                     (fun f => negb (Flow.id f =? flowId)%string) (flows st))
          in *.
        assert (H2 : exists l2,
                  Forall2 same_frame l1 l2
                  /\ option_map (mkState (stages st))
                       (if Js.truthy (Some (Flow.toStageId flow))
                        then recalculateSiblingFlowValues fuel
                               (Flow.toStageId flow) l2
                        else Some l2) = Some st').
        { destruct (Js.truthy (Some (Flow.fromStageId flow))).
          - destruct (recalculateSiblingFlowValues fuel
                        (Flow.fromStageId flow) l1) as [l2 |] eqn:E1;
              [| discriminate].
            exists l2. split; [now apply (recalculate_frame _ _ _ _ E1) |].
            exact H.
          - exists l1. split; [apply Forall2_frame_refl | exact H]. }
        destruct H2 as [l2 [HF2 H2]].
        destruct (Js.truthy (Some (Flow.toStageId flow))).
        + destruct (recalculateSiblingFlowValues fuel (Flow.toStageId flow) l2)
            as [l3 |] eqn:E2; [| discriminate].
          simpl in H2. injection H2 as <-. simpl. split; [reflexivity |].
          eapply Forall2_frame_trans; [exact HF2 |].
          now apply (recalculate_frame _ _ _ _ E2).
        + simpl in H2. injection H2 as <-. simpl. split; [reflexivity |].
          exact HF2.
      - injection H as <-. split; [reflexivity |].
        replace (List.filter _ (flows st)) with (flows st);
          [apply Forall2_frame_refl |].
        symmetry. apply List.forallb_filter_id. apply List.forallb_forall.
        intros x Hx. apply Bool.negb_true_iff.
        unfold Js.find in Ef. apply (List.find_none _ _ Ef x Hx). }
    destruct Hmain as [Hs HF]. split; [exact Hs |]. split; [exact HF |].
    intros g Hg. destruct (frame_In _ _ _ HF Hg) as [f [Hf Hfg]].
    destruct Hfg as [Hi _]. rewrite <- Hi.
    now apply filter_other_ids_frame in Hf.
  - intros [rank Hrank]. unfold handleDisconnectParent.
    destruct (Js.find _ (flows st)) as [flow |]; [| exists 0%nat; eauto].
    set (l1 := List.filter
                 (fun f => negb (Flow.id f =? flowId)%string) (flows st)).
    assert (Hl1 : ranked rank l1) by now apply ranked_filter.
    set (n := S (rank (Flow.fromStageId flow) + rank (Flow.toStageId flow))).
    exists n.
    assert (H2 : exists l2,
              ranked rank l2
              /\ (if Js.truthy (Some (Flow.fromStageId flow))
                  then recalculateSiblingFlowValues n
                         (Flow.fromStageId flow) l1
                  else Some l1) = Some l2).
    { destruct (Js.truthy (Some (Flow.fromStageId flow))).
      - destruct (recalculate_terminates rank n (Flow.fromStageId flow) l1)
          as [l2 E]; [exact Hl1 | subst n; lia |].
        exists l2. split; [| exact E].
        eapply ranked_frame; [| exact Hl1].
        now apply (recalculate_frame _ _ _ _ E).
      - exists l1. split; [exact Hl1 | reflexivity]. }
    destruct H2 as [l2 [Hl2 ->]].
    destruct (Js.truthy (Some (Flow.toStageId flow))); [| simpl; eauto].
    destruct (recalculate_terminates rank n (Flow.toStageId flow) l2)
      as [l3 E]; [exact Hl2 | subst n; lia |].
    rewrite E. simpl. eauto.
Qed.

Lemma disconnect_removes_flow_witness :
  let st :=
    mkState [Stage.mk "1" "Start" 0 None None;
             Stage.mk "A" "Stage 2" 20 None None;
             Stage.mk "B" "Stage 3" 20 None None]
      [Flow.mk "a" "Flow 1" "1" "A" 80 (Some 0) None;
       Flow.mk "b" "Flow 2" "1" "B" 20 (Some 1) None] in
  handleDisconnectParent 2 st "x" = Some st
  /\ exists st' : State,
       handleDisconnectParent 2 st "a" = Some st'
       /\ flowValues st' = [("b", 100)]
       /\ stages st' = stages st
       /\ forall g : Flow.t, In g (flows st') -> Flow.id g <> "a".
Proof.
  intros st.
  destruct (disconnect_removes_flow st "x") as [Hnone _].
  destruct (disconnect_removes_flow st "a") as [_ [Hres _]].
  split; [apply Hnone; reflexivity |].
  eexists.
  assert (E : handleDisconnectParent 2 st "a" = Some _)
    by (vm_compute; reflexivity).
  destruct (Hres _ _ E) as (Hs & _ & Hg).
  split; [exact E |]. split; [reflexivity |]. split; [exact Hs | exact Hg].
Defined.

(** X7.  On an acyclic flow graph, after [handleDisconnectParent] has
    removed a flow between two stages with non-empty ids, both former
    endpoints are conserved: the remaining outgoing flows of the former
    source sum to its incoming value, and the outgoing flows of the former
    target, now without that incoming flow, sum to its new incoming
    value. *)
Theorem disconnect_conserves_endpoints (rank : string -> nat) (fuel : nat)
    (st st' : State) (flowId : string) (flow : Flow.t) :
  ranked rank (flows st) ->
  Js.find (fun f => (Flow.id f =? flowId)%string) (flows st) = Some flow ->
  Flow.fromStageId flow <> "" ->
  Flow.toStageId flow <> "" ->
  handleDisconnectParent fuel st flowId = Some st' ->
  conserved_at (Flow.fromStageId flow) (flows st')
  /\ conserved_at (Flow.toStageId flow) (flows st').
Proof.
  intros Hr Hfind Hfrom Hto H. unfold handleDisconnectParent in H.
  rewrite Hfind in H.
  assert (T1 : Js.truthy (Some (Flow.fromStageId flow)) = true).
  { simpl. now apply Bool.negb_true_iff, String.eqb_neq. }
  assert (T2 : Js.truthy (Some (Flow.toStageId flow)) = true).
  { simpl. now apply Bool.negb_true_iff, String.eqb_neq. }
  rewrite T1 in H.
  set (l1 := List.filter
               (fun f => negb (Flow.id f =? flowId)%string) (flows st)) in *.
  assert (Hl1 : ranked rank l1) by now apply ranked_filter.
  destruct (recalculateSiblingFlowValues fuel (Flow.fromStageId flow) l1)
    as [l2 |] eqn:E1; [| discriminate].
  rewrite T2 in H.
  destruct (recalculateSiblingFlowValues fuel (Flow.toStageId flow) l2)
    as [l3 |] eqn:E2; [| discriminate].
  simpl in H. injection H as <-. simpl.
  assert (Hl2 : ranked rank l2).
  { eapply ranked_frame; [| exact Hl1].
    now apply (recalculate_frame _ _ _ _ E1). }
  split; [| exact (recalculate_conserved rank fuel _ l2 l3 Hl2 E2)].
  pose proof (recalculate_conserved rank fuel _ l1 l2 Hl1 E1) as Hc.
  assert (Hlt : (rank (Flow.toStageId flow)
                 < rank (Flow.fromStageId flow))%nat).
  { apply find_some_In in Hfind. destruct Hfind as [Hin _].
    unfold ranked in Hr. rewrite List.Forall_forall in Hr. now apply Hr. }
  pose proof (recalculate_untouched rank fuel _ l2 l3 Hl2 E2) as Hk.
  unfold conserved_at, Out_, In_ in *.
  fold (outgoingOf (Flow.fromStageId flow) l3).
  fold (outgoingOf (Flow.fromStageId flow) l2) in Hc.
  change (getIncomingFlowValue (Flow.fromStageId flow) l3)
    with (In_ (Flow.fromStageId flow) l3).
  change (getIncomingFlowValue (Flow.fromStageId flow) l2)
    with (In_ (Flow.fromStageId flow) l2) in Hc.
  rewrite In_incomingOf in *.
  rewrite (kept_outgoingOf rank _ _ l2 l3 Hlt Hk).
  rewrite (kept_incomingOf rank _ (Flow.fromStageId flow) l2 l3
             (le_n_S _ _ (Nat.lt_le_incl _ _ Hlt)) Hl2 Hk).
  exact Hc.
Qed.

Lemma disconnect_conserves_endpoints_witness :
  let st :=
    mkState [Stage.mk "1" "Start" 0 None None;
             Stage.mk "A" "Stage 2" 20 None None;
             Stage.mk "B" "Stage 3" 20 None None;
             Stage.mk "C" "Stage 4" 40 None None]
      [Flow.mk "a" "Flow 1" "1" "A" 80 (Some 0) None;
       Flow.mk "b" "Flow 2" "1" "B" 20 (Some 1) None;
       Flow.mk "c" "Flow 3" "A" "C" 80 (Some 0) None] in
  exists st' : State,
    handleDisconnectParent 3 st "a" = Some st'
    /\ flowValues st' = [("b", 100); ("c", 100)]
    /\ conserved_at "1" (flows st') /\ conserved_at "A" (flows st').
Proof.
  intros st. eexists.
  assert (E : handleDisconnectParent 3 st "a" = Some _)
    by (vm_compute; reflexivity).
  pose (rank := fun s : string =>
          if (s =? "1")%string then 2%nat
          else if (s =? "C")%string then 0%nat else 1%nat).
  assert (Hr : ranked rank (flows st)) by (repeat constructor).
  assert (Hf : "1" <> "") by discriminate.
  assert (Ht : "A" <> "") by discriminate.
  destruct (disconnect_conserves_endpoints rank 3 st _ "a"
              (Flow.mk "a" "Flow 1" "1" "A" 80 (Some 0) None) Hr
              eq_refl Hf Ht E) as [H1 H2].
  split; [exact E |]. split; [reflexivity |]. split; [exact H1 | exact H2].
Defined.

(** X8.  On an acyclic flow graph, after [handleStageDelete] has removed a
    stage whose first incoming flow comes from a stage with a non-empty
    id, that former parent is conserved: its remaining outgoing flows sum
    to its incoming value. *)
Theorem deleteStage_conserves_parent (rank : string -> nat) (fuel : nat)
    (st st' : State) (stageId : string) (incomingFlow : Flow.t) :
  ranked rank (flows st) ->
  Js.find (fun f => (Flow.toStageId f =? stageId)%string) (flows st)
  = Some incomingFlow ->
  Flow.fromStageId incomingFlow <> "" ->
  handleStageDelete fuel st stageId = Some st' ->
  conserved_at (Flow.fromStageId incomingFlow) (flows st').
Proof.
  intros Hr Hfind Hfrom H. unfold handleStageDelete in H.
  rewrite Hfind in H. cbn [option_map] in H.
  assert (Hne : (length (List.filter
                           (fun f => (Flow.toStageId f =? stageId)%string)
                           (flows st)) =? 0)%nat = false).
  { apply Nat.eqb_neq. apply find_some_In in Hfind.
    destruct Hfind as [Hin E]. intros Hlen.
    assert (Hin' : In incomingFlow
                     (List.filter
                        (fun f => (Flow.toStageId f =? stageId)%string)
                        (flows st))) by (apply filter_In; now split).
    destruct (List.filter _ (flows st)); [contradiction | discriminate]. }
  rewrite Hne in H.
  assert (T : Js.truthy (Some (Flow.fromStageId incomingFlow)) = true).
  { simpl. now apply Bool.negb_true_iff, String.eqb_neq. }
  rewrite T in H. fold (notTouching stageId (flows st)) in H.
  destruct (recalculateSiblingFlowValues fuel _ _) as [l' |] eqn:E;
    [| discriminate].
  simpl in H. injection H as <-. simpl.
  apply (recalculate_conserved rank fuel _ (notTouching stageId (flows st)));
    [now apply ranked_filter | exact E].
Qed.

Lemma deleteStage_conserves_parent_witness :
  let st :=
    mkState [Stage.mk "1" "Start" 0 None None;
             Stage.mk "A" "Stage 2" 20 None None;
             Stage.mk "B" "Stage 3" 20 None None]
      [Flow.mk "a" "Flow 1" "1" "A" 80 (Some 0) None;
       Flow.mk "b" "Flow 2" "1" "B" 20 (Some 1) None] in
  exists st' : State,
    handleStageDelete 2 st "A" = Some st'
    /\ flowValues st' = [("b", 100)]
    /\ conserved_at "1" (flows st').
Proof.
  intros st. eexists.
  assert (E : handleStageDelete 2 st "A" = Some _)
    by (vm_compute; reflexivity).
  pose (rank := fun s : string => if (s =? "1")%string then 1%nat else 0%nat).
  assert (Hr : ranked rank (flows st)) by (repeat constructor).
  assert (Hf : "1" <> "") by discriminate.
  pose proof (deleteStage_conserves_parent rank 2 st _ "A"
                (Flow.mk "a" "Flow 1" "1" "A" 80 (Some 0) None) Hr
                eq_refl Hf E) as Hc.
  split; [exact E |]. split; [reflexivity | exact Hc].
Defined.

(** ** Rebalancing one stage *)

Lemma map_id_on {A : Type} (h : A -> A) (l : list A) :
  (forall x, In x l -> h x = x) -> List.map h l = l.
Proof.
  induction l as [| a l IH]; intros H; simpl; [reflexivity |].
  rewrite (H a) by now left. f_equal. apply IH. intros x Hx. apply H. now right.
Qed.

(** With unique ids, the update through [findIndex] changes exactly the
    flow that has the id. *)
Lemma update_by_id (v : Q) (x : string) (l : list Flow.t) :
  unique_ids l ->
  match Js.findIndex (fun f => (Flow.id f =? x)%string) l with
  | Some index =>
      match l !! index with
      | Some current => <[index := Flow.with_value current v]> l
      | None => l
      end
  | None => l
  end
  = List.map (fun f => if (Flow.id f =? x)%string
                       then Flow.with_value f v else f) l.
Proof.
  unfold unique_ids. induction l as [| f l IH]; intros Hu; [reflexivity |].
  simpl in Hu. inversion Hu as [| ? ? Hnotin Hu']; subst.
  cbn [Js.findIndex List.map].
  destruct (Flow.id f =? x)%string eqn:E.
  - apply String.eqb_eq in E. simpl. f_equal. symmetry. apply map_id_on.
    intros g Hg. destruct (Flow.id g =? x)%string eqn:Eg; [| reflexivity].
    apply String.eqb_eq in Eg. exfalso. apply Hnotin. rewrite E, <- Eg.
    now apply in_map.
  - specialize (IH Hu').
    destruct (Js.findIndex _ l) as [j |]; simpl.
    + destruct (l !! j) as [cur |]; simpl; now rewrite <- IH.
    + now rewrite <- IH.
Qed.

Lemma map_value_unique_ids (h : Flow.t -> Flow.t) (l : list Flow.t) :
  (forall f, Flow.id (h f) = Flow.id f) ->
  unique_ids l -> unique_ids (List.map h l).
Proof.
  unfold unique_ids. intros Hh Hu. rewrite List.map_map.
  now rewrite (List.map_ext _ Flow.id Hh).
Qed.

(** The inner loop of [balanceFlows] sets the value of the flows whose id
    is the id of one of the listed flows. *)
Lemma update_loop_by_id (v : Q) (out : list Flow.t) :
  forall upd : list Flow.t,
    unique_ids upd ->
    fold_left (fun (updatedFlows : list Flow.t) (flow : Flow.t) =>
      match Js.findIndex (fun f => (Flow.id f =? Flow.id flow)%string)
              updatedFlows with
      | Some index =>
          match updatedFlows !! index with
          | Some current =>
              <[index := Flow.with_value current v]> updatedFlows
          | None => updatedFlows
          end
      | None => updatedFlows
      end) out upd
    = List.map (fun f =>
        if existsb (fun o => (Flow.id f =? Flow.id o)%string) out
        then Flow.with_value f v else f) upd.
Proof.
  induction out as [| flow rest IH]; intros upd Hu; simpl.
  - symmetry. now apply map_id_on.
  - rewrite (update_by_id v (Flow.id flow) upd Hu).
    rewrite IH.
    2:{ apply map_value_unique_ids; [| exact Hu].
        intros f. now destruct (Flow.id f =? Flow.id flow)%string. }
    rewrite List.map_map. apply List.map_ext. intros f.
    destruct (Flow.id f =? Flow.id flow)%string eqn:E; cbn [orb].
    + cbn [Flow.with_value Flow.id].
      now destruct (existsb _ rest).
    + reflexivity.
Qed.

Lemma unique_ids_inj (l : list Flow.t) (f g : Flow.t) :
  unique_ids l -> In f l -> In g l -> Flow.id f = Flow.id g -> f = g.
Proof.
  unfold unique_ids. induction l as [| a l IH]; intros Hu Hf Hg E;
    [contradiction |].
  simpl in Hu. inversion Hu as [| ? ? Hnotin Hu']; subst.
  destruct Hf as [<- | Hf], Hg as [<- | Hg]; auto.
  - exfalso. apply Hnotin. rewrite E. now apply in_map.
  - exfalso. apply Hnotin. rewrite <- E. now apply in_map.
Qed.

(** With unique ids, [balanceFlows] treats a stage as follows: if it has
    outgoing flows whose sum is more than 0.01 away from the incoming
    value, they all get the equal share; otherwise nothing changes. *)
Lemma balanceStage_unique_ids (l : list Flow.t) (stage : Stage.t) :
  unique_ids l ->
  balanceStage l stage
  = if (0 <? length (outgoingOf (Stage.id stage) l))%nat
       && Js.gt (Js.Math_abs (Out_ (Stage.id stage) l
                              - In_ (Stage.id stage) l)) (1 # 100)
    then setOutgoing (Stage.id stage)
           (In_ (Stage.id stage) l / Js.len (outgoingOf (Stage.id stage) l)) l
    else l.
Proof.
  intros Hu. unfold balanceStage, Out_, In_.
  fold (outgoingOf (Stage.id stage) l).
  destruct (0 <? length _)%nat; [| reflexivity]. cbn [andb].
  destruct (Js.gt _ _); [| reflexivity].
  rewrite (update_loop_by_id _ _ l Hu). unfold setOutgoing.
  apply List.map_ext_in. intros f Hf.
  destruct (Flow.fromStageId f =? Stage.id stage)%string eqn:E.
  - replace (existsb _ _) with true; [reflexivity |].
    symmetry. apply existsb_exists. exists f.
    split; [| apply String.eqb_refl].
    unfold outgoingOf. apply filter_In. now split.
  - replace (existsb _ _) with false; [reflexivity |].
    symmetry. apply Bool.not_true_is_false. intros Hex.
    apply existsb_exists in Hex. destruct Hex as [o [Ho Eo]].
    apply String.eqb_eq in Eo. unfold outgoingOf in Ho.
    apply filter_In in Ho. destruct Ho as [Ho Efrom].
    rewrite (unique_ids_inj l f o Hu Hf Ho Eo) in E. congruence.
Qed.

Lemma balanceStage_balances (l : list Flow.t) (stage : Stage.t) :
  unique_ids l -> no_self_loop (Stage.id stage) l ->
  balanced_at (Stage.id stage) (balanceStage l stage).
Proof.
  intros Hu Hloop. rewrite (balanceStage_unique_ids l stage Hu).
  set (s := Stage.id stage).
  destruct (0 <? length (outgoingOf s l))%nat eqn:E0.
  2:{ left. cbn [andb].
      assert (Eo : outgoingOf s l = [])
        by (destruct (outgoingOf s l); [reflexivity | discriminate]).
      exact Eo. }
  cbn [andb]. destruct (Js.gt _ _) eqn:E1.
  - right. rewrite setOutgoing_Out.
    assert (Hin : In_ s (setOutgoing s (In_ s l / Js.len (outgoingOf s l)) l)
                  = In_ s l).
    { rewrite !In_incomingOf. now rewrite setOutgoing_incoming. }
    rewrite Hin.
    assert (Hne : outgoingOf s l <> []) by now apply length_pos_iff.
    pose proof (len_pos _ Hne).
    assert (E : Js.len (outgoingOf s l)
                * (In_ s l / Js.len (outgoingOf s l)) - In_ s l == 0)
      by (field; lra).
    rewrite E. discriminate.
  - right. destruct (Qlt_le_dec (1 # 100)
                       (Js.Math_abs (Out_ s l - In_ s l))) as [Hlt | Hle];
      [| exact Hle].
    apply gt_true_iff in Hlt. congruence.
Qed.

(** X9.  When the flows have pairwise different ids, one step of
    [balanceFlows] on a stage either leaves the list as it is (no outgoing
    flow, or outgoing sum within 0.01 of the incoming value) or gives every
    outgoing flow of the stage the equal share and changes nothing else;
    if the stage has no self-loop it is balanced afterwards.  Hence the
    stage that [balanceFlows] visits last is balanced in the result. *)
Theorem balanceFlows_balances_last_stage (stages : list Stage.t)
    (stage : Stage.t) (l : list Flow.t) :
  unique_ids l ->
  no_self_loop (Stage.id stage) l ->
  (balanceStage l stage = l
   \/ balanceStage l stage
      = setOutgoing (Stage.id stage)
          (In_ (Stage.id stage) l / Js.len (outgoingOf (Stage.id stage) l)) l)
  /\ balanced_at (Stage.id stage) (balanceStage l stage)
  /\ balanced_at (Stage.id stage) (balanceFlows (stages ++ [stage]) l).
Proof.
  intros Hu Hloop. split; [| split].
  - rewrite (balanceStage_unique_ids l stage Hu).
    destruct (_ && _); [now right | now left].
  - now apply balanceStage_balances.
  - unfold balanceFlows. rewrite fold_left_app. simpl.
    fold (balanceFlows stages l).
    assert (HF : Forall2 same_frame l (balanceFlows stages l))
      by apply balanceFlows_frame, Forall2_frame_refl.
    apply balanceStage_balances.
    + eapply frame_unique_ids; eassumption.
    + eapply frame_no_self_loop; eassumption.
Qed.

Lemma balanceFlows_balances_last_stage_witness :
  let l := [Flow.mk "a" "Flow 1" "1" "2" 100 (Some 0) None;
            Flow.mk "b" "Flow 2" "2" "3" 10 (Some 0) None;
            Flow.mk "c" "Flow 3" "2" "4" 50 (Some 1) None] in
  let stage1 := Stage.mk "1" "Start" 0 None None in
  let stage2 := Stage.mk "2" "Stage 2" 20 None None in
  List.map (fun f => (Flow.id f, Qred (Flow.value f)))
    (balanceFlows [stage1; stage2] l)
  = [("a", 100); ("b", 50); ("c", 50)]
  /\ balanced_at "2" (balanceFlows ([stage1] ++ [stage2]) l).
Proof.
  intros l stage1 stage2. split; [reflexivity |].
  apply (balanceFlows_balances_last_stage [stage1] stage2 l).
  - unfold unique_ids. simpl.
    repeat constructor; simpl; intuition discriminate.
  - intros f [<- | [<- | [<- | []]]] Hf; discriminate.
Defined.

(** ** Click handlers: flows are created towards the right *)

Lemma frame_app_last (l r : list Flow.t) (x : Flow.t) :
  Forall2 same_frame (l ++ [x]) r ->
  exists (kept : list Flow.t) (newFlow : Flow.t),
    r = kept ++ [newFlow] /\ Forall2 same_frame l kept /\ same_frame x newFlow.
Proof.
  intros H. apply Forall2_app_inv_l in H.
  destruct H as (kept & tl & Hk & Ht & ->).
  inversion Ht as [| ? y ? tl' Hxy Hnil]; subst. inversion Hnil; subst.
  now exists kept, y.
Qed.

(** The flows after a branch creation: the former flows, changed at most
    in their values, followed by one flow from the source to the target. *)
Lemma branch_flows_shape (stages : list Stage.t) (flows : list Flow.t)
    (now source target : string) (flowColor : option string) :
  exists (kept : list Flow.t) (newFlow : Flow.t),
    balanceFlows stages
      (createFlowWithProportionalSplit flows now source target flows
         flowColor)
    = kept ++ [newFlow]
    /\ Forall2 same_frame flows kept
    /\ Flow.id newFlow = now
    /\ Flow.fromStageId newFlow = source
    /\ Flow.toStageId newFlow = target.
Proof.
  rewrite createFlow_shape. cbv zeta.
  set (created := _ ++ [_]).
  pose proof (balanceFlows_frame stages created created
                (Forall2_frame_refl created)) as HF.
  subst created. apply frame_app_last in HF.
  destruct HF as (kept & newFlow & -> & Hk & Hn).
  exists kept, newFlow. split; [reflexivity |]. split.
  - eapply Forall2_frame_trans; [apply setOutgoing_frame | exact Hk].
  - destruct Hn as (Hi & _ & Hf & Ht & _). cbn in Hi, Hf, Ht. auto.
Qed.

Lemma getStageX_lt (canvasWidth p q : Q) :
  0 < canvasWidth ->
  getStageX canvasWidth p < getStageX canvasWidth q -> p < q.
Proof.
  intros HW H. rewrite !getStageX_linear in H.
  assert (0 < canvasWidth / 120) by (apply Qlt_shift_div_l; lra).
  nra.
Qed.

(** X10.  [handleStageClick] never changes the stages.  It changes the
    flows only when a stage other than the clicked one is selected, exists,
    and lies strictly to the left of the clicked stage; the flows are then
    the former flows, changed at most in their values, followed by one new
    flow from the selected stage to the clicked stage.  A click on a stage
    that is not strictly to the right of the selected stage changes
    nothing. *)
Theorem handleStageClick_links_rightwards (now : string) (st : State)
    (editingStage : option Stage.t) (selectedStageId : option string)
    (stage : Stage.t) :
  let st' := handleStageClick now st editingStage selectedStageId stage in
  stages st' = stages st
  /\ (st' = st
      \/ exists (selected : string) (selectedStage : Stage.t)
                (kept : list Flow.t) (newFlow : Flow.t),
           selectedStageId = Some selected
           /\ selected <> Stage.id stage
           /\ Js.find (fun s => (Stage.id s =? selected)%string) (stages st)
              = Some selectedStage
           /\ Stage.position selectedStage < Stage.position stage
           /\ flows st' = kept ++ [newFlow]
           /\ Forall2 same_frame (flows st) kept
           /\ Flow.fromStageId newFlow = selected
           /\ Flow.toStageId newFlow = Stage.id stage)
  /\ (forall (selected : string) (selectedStage : Stage.t),
        selectedStageId = Some selected ->
        Js.find (fun s => (Stage.id s =? selected)%string) (stages st)
        = Some selectedStage ->
        Stage.position stage <= Stage.position selectedStage ->
        st' = st).
Proof.
  cbv zeta. unfold handleStageClick.
  destruct (match editingStage with Some _ => _ | None => _ end).
  { split; [reflexivity |]. split; [now left | reflexivity]. }
  destruct selectedStageId as [selected |].
  2:{ split; [reflexivity |]. split; [now left | reflexivity]. }
  destruct (Js.truthy (Some selected)
            && negb (selected =? Stage.id stage)%string) eqn:Eg.
  2:{ split; [reflexivity |]. split; [now left | reflexivity]. }
  apply Bool.andb_true_iff in Eg. destruct Eg as [_ Ene].
  apply Bool.negb_true_iff, String.eqb_neq in Ene.
  destruct (Js.find _ (stages st)) as [selectedStage |] eqn:Ef.
  2:{ split; [reflexivity |]. split; [now left |].
      intros sel ss [= <-] H. congruence. }
  destruct (Js.gt (Stage.position stage) (Stage.position selectedStage))
    eqn:Egt.
  - apply gt_true_iff in Egt. split; [reflexivity |]. split.
    + right.
      destruct (branch_flows_shape (stages st) (flows st) now selected
                  (Stage.id stage)
                  (Some (Js.or_else (Stage.color stage) DEFAULT_COLOR)))
        as (kept & newFlow & E & Hk & _ & Hfrom & Hto).
      exists selected, selectedStage, kept, newFlow. simpl. rewrite E.
      repeat (split; [first [reflexivity | assumption] |]). assumption.
    + intros sel ss [= <-] H Hle. rewrite Ef in H. injection H as <-. lra.
  - split; [reflexivity |]. split; [now left | reflexivity].
Qed.

Lemma handleStageClick_links_rightwards_witness :
  let st :=
    mkState [Stage.mk "1" "Start" 0 None None;
             Stage.mk "A" "Stage 2" 40 None None;
             Stage.mk "B" "Stage 3" 20 None None]
      [Flow.mk "a" "Flow 1" "1" "A" 50 (Some 0) None;
       Flow.mk "b" "Flow 2" "1" "B" 50 (Some 1) None] in
  handleStageClick "c" st None (Some "A")
    (Stage.mk "B" "Stage 3" 20 None None) = st
  /\ flowValues (handleStageClick "c" st None (Some "B")
                   (Stage.mk "A" "Stage 2" 40 None None))
     = [("a", 50); ("b", 50); ("c", 50)].
Proof.
  intros st. split; [| reflexivity].
  apply (handleStageClick_links_rightwards "c" st None (Some "A")
           (Stage.mk "B" "Stage 3" 20 None None))
    with (selected := "A") (selectedStage := Stage.mk "A" "Stage 2" 40 None None);
    [reflexivity | reflexivity | discriminate].
Defined.

Lemma snapToTicker_le_max (p : Q) : snapToTicker p <= 110.
Proof. apply (clamp_in_range (Js.Math_round (p * 10) / 10)). Qed.

Section CanvasClick.

Variables canvasWidth zoom : Q.
Variable generateSimilarColor : string -> Q -> string.
Variables (now : string) (st : State) (isCreatingBranch : bool).
Variables (selectedStageId : option string) (clickX clickY : Q).

Let st' : State :=
  handleCanvasClick canvasWidth zoom generateSimilarColor now st
    isCreatingBranch selectedStageId clickX clickY.

(** What a click on the canvas that changes the graph has done. *)
Lemma handleCanvasClick_change :
  st' = st
  \/ exists (selected : string) (fromStage newStage : Stage.t)
            (kept : list Flow.t) (newFlow : Flow.t),
       isCreatingBranch = true
       /\ selectedStageId = Some selected
       /\ Js.find (fun s => (Stage.id s =? selected)%string) (stages st)
          = Some fromStage
       /\ getStageX canvasWidth (Stage.position fromStage) + 1 < clickX
       /\ stages st' = stages st ++ [newStage]
       /\ Stage.id newStage = now
       /\ Stage.yPosition newStage = Some clickY
       /\ getStageX canvasWidth (Stage.position fromStage) + 1
          < getStageX canvasWidth (Stage.position newStage)
       /\ Stage.position newStage <= 110
       /\ flows st' = kept ++ [newFlow]
       /\ Forall2 same_frame (flows st) kept
       /\ Flow.fromStageId newFlow = selected
       /\ Flow.toStageId newFlow = now.
Proof.
  subst st'. unfold handleCanvasClick.
  destruct isCreatingBranch; [| now left]. cbn [negb orb].
  destruct (negb (Js.truthy selectedStageId)); [now left |].
  destruct selectedStageId as [selected |]; [| now left].
  destruct (Js.find _ (stages st)) as [fromStage |] eqn:Ef; [| now left].
  cbv zeta.
  destruct (Js.le clickX _) eqn:Eclick; [now left |].
  apply Qle_bool_false in Eclick.
  set (fromX := getStageX canvasWidth (Stage.position fromStage)) in *.
  set (snapped := snapToTicker (getPositionFromX canvasWidth clickX)).
  set (next := Js.Math_min
                 (Js.Math_floor (Stage.position fromStage * 10) / 10
                  + (1 # 10)) CANVAS_MAX_POSITION).
  assert (Hadj : forall newPosition : Q,
            (if Js.le (getStageX canvasWidth snapped) (fromX + 1)
             then if Js.le (getStageX canvasWidth next) (fromX + 1)
                  then None else Some next
             else Some snapped) = Some newPosition ->
            fromX + 1 < getStageX canvasWidth newPosition
            /\ newPosition <= 110).
  { intros newPosition H.
    destruct (Js.le (getStageX canvasWidth snapped) (fromX + 1)) eqn:E1.
    - destruct (Js.le (getStageX canvasWidth next) (fromX + 1)) eqn:E2;
        [discriminate |].
      injection H as <-. split; [now apply Qle_bool_false |].
      subst next. unfold CANVAS_MAX_POSITION. js_minmax; lra.
    - injection H as <-. split; [now apply Qle_bool_false |].
      apply (snapToTicker_le_max
               (getPositionFromX canvasWidth clickX)). }
  destruct (if Js.le (getStageX canvasWidth snapped) (fromX + 1)
            then _ else _) as [newPosition |] eqn:Eadj; [| now left].
  destruct (Hadj newPosition eq_refl) as [Hright Hmax].
  destruct (match Js.div 10 zoom with Some _ => _ | None => _ end);
    [now left |].
  right.
  match goal with
  | |- context [mkState (stages st ++ [?ns]) (balanceFlows _ ?created)] =>
      set (newStage := ns)
  end.
  destruct (branch_flows_shape (stages st) (flows st) now selected
              (Stage.id newStage)
              (Some (generateSimilarColor
                       (Js.or_else
                          match Js.find
                                  (fun s => (Stage.id s =? selected)%string)
                                  (stages st) with
                          | Some p => Stage.color p
                          | None => None
                          end DEFAULT_COLOR)
                       (Js.len
                          (List.filter
                             (fun s =>
                                match Js.find
                                        (fun f =>
                                           (Flow.toStageId f =? Stage.id s)%string
                                           && (Flow.fromStageId f =? selected)%string)
                                        (flows st) with
                                | Some _ => true
                                | None => false
                                end) (stages st))))))
    as (kept & newFlow & E & Hk & _ & Hfrom & Hto).
  exists selected, fromStage, newStage, kept, newFlow.
  cbn [stages flows]. rewrite Ef in E. rewrite E.
  repeat (split; [first [reflexivity | assumption] |]). exact Hto.
Qed.

End CanvasClick.

(** X11.  On a canvas of positive width, a click on the canvas either
    changes nothing or appends exactly one stage and one flow: the click was
    more than one pixel to the right of the selected stage, the new stage
    lies strictly to the right of the selected stage and not beyond position
    110, and the flows are the former flows, changed at most in their
    values, followed by a flow from the selected stage to the new stage. *)
Theorem canvasClick_creates_stage_to_the_right (canvasWidth zoom : Q)
    (generateSimilarColor : string -> Q -> string) (now : string)
    (st : State) (isCreatingBranch : bool) (selectedStageId : option string)
    (clickX clickY : Q) :
  0 < canvasWidth ->
  let st' :=
    handleCanvasClick canvasWidth zoom generateSimilarColor now st
      isCreatingBranch selectedStageId clickX clickY in
  st' = st
  \/ exists (selected : string) (fromStage newStage : Stage.t)
            (kept : list Flow.t) (newFlow : Flow.t),
       selectedStageId = Some selected
       /\ Js.find (fun s => (Stage.id s =? selected)%string) (stages st)
          = Some fromStage
       /\ getStageX canvasWidth (Stage.position fromStage) + 1 < clickX
       /\ stages st' = stages st ++ [newStage]
       /\ Stage.id newStage = now
       /\ Stage.position fromStage < Stage.position newStage
       /\ Stage.position newStage <= 110
       /\ flows st' = kept ++ [newFlow]
       /\ Forall2 same_frame (flows st) kept
       /\ Flow.fromStageId newFlow = selected
       /\ Flow.toStageId newFlow = now.
Proof.
  intros HW st'.
  destruct (handleCanvasClick_change canvasWidth zoom generateSimilarColor
              now st isCreatingBranch selectedStageId clickX clickY)
    as [H | (selected & fromStage & newStage & kept & newFlow & _ & Hsel & Hf
             & Hclick & Hst & Hid & _ & Hright & Hmax & Hfl & Hk & Hfrom
             & Hto)];
    [now left | right].
  exists selected, fromStage, newStage, kept, newFlow.
  repeat (split; [first [assumption | reflexivity] |]).
  split; [| repeat (split; [first [assumption | reflexivity] |]); assumption].
  apply (getStageX_lt canvasWidth); [exact HW | lra].
Qed.

Lemma canvasClick_creates_stage_to_the_right_witness :
  let st' :=
    handleCanvasClick 1200 1 (fun c _ => c) "A" initialState true (Some "1")
      300 100 in
  st' = initialState
  \/ exists (selected : string) (fromStage newStage : Stage.t)
            (kept : list Flow.t) (newFlow : Flow.t),
       Some "1" = Some selected
       /\ Js.find (fun s => (Stage.id s =? selected)%string)
            (stages initialState) = Some fromStage
       /\ getStageX 1200 (Stage.position fromStage) + 1 < 300
       /\ stages st' = stages initialState ++ [newStage]
       /\ Stage.id newStage = "A"
       /\ Stage.position fromStage < Stage.position newStage
       /\ Stage.position newStage <= 110
       /\ flows st' = kept ++ [newFlow]
       /\ Forall2 same_frame (flows initialState) kept
       /\ Flow.fromStageId newFlow = selected
       /\ Flow.toStageId newFlow = "A".
Proof.
  apply (canvasClick_creates_stage_to_the_right 1200 1 (fun c _ => c) "A"
           initialState true (Some "1") 300 100).
  reflexivity.
Defined.

(** ** Cycles and the recursion of [recalculateSiblingFlowValues] *)

Lemma frame_In_l (l k : list Flow.t) (f : Flow.t) :
  Forall2 same_frame l k -> In f l -> exists g, In g k /\ same_frame f g.
Proof.
  induction 1 as [| f' g l k Hfg _ IH]; intros Hf; [contradiction |].
  destruct Hf as [<- | Hf].
  - exists g. split; [now left | exact Hfg].
  - destruct (IH Hf) as [g' [Hg' Hs]]. exists g'. split; [now right | exact Hs].
Qed.

Lemma reaches_frame (l k : list Flow.t) (a b : string) :
  Forall2 same_frame l k -> reaches l a b -> reaches k a b.
Proof.
  intros HF. induction 1 as [f Hf | f c Hf _ IH];
    destruct (frame_In_l _ _ _ HF Hf) as [g [Hg (_ & _ & Ef & Et & _)]];
    rewrite Ef, ?Et.
  - now apply reaches_flow.
  - apply reaches_next; [exact Hg |]. now rewrite <- Et.
Qed.

Lemma reaches_trans (l : list Flow.t) (a b c : string) :
  reaches l a b -> reaches l b c -> reaches l a c.
Proof.
  induction 1 as [f Hf | f d Hf _ IH]; intros Hc.
  - now apply reaches_next.
  - apply reaches_next; [exact Hf | now apply IH].
Qed.

(** A stage on a cycle has an outgoing flow to a stage on a cycle. *)
Lemma cycle_next (l : list Flow.t) (s : string) :
  on_cycle s l ->
  exists f : Flow.t,
    In f l /\ Flow.fromStageId f = s /\ on_cycle (Flow.toStageId f) l.
Proof.
  unfold on_cycle. intros H.
  assert (Hs : forall a b : string, reaches l a b ->
            exists f : Flow.t,
              In f l /\ Flow.fromStageId f = a
              /\ (Flow.toStageId f = b \/ reaches l (Flow.toStageId f) b)).
  { intros a b Hab. destruct Hab as [f Hf | f c Hf Hc]; exists f; auto. }
  specialize (Hs s s H).
  destruct Hs as (f & Hf & Hfrom & [Hto | Hto]); exists f;
    (split; [exact Hf |]); (split; [exact Hfrom |]).
  - pose proof (reaches_flow l f Hf) as Hff. rewrite Hfrom in Hff.
    now rewrite Hto in *.
  - apply (reaches_trans l _ s); [exact Hto |].
    rewrite <- Hfrom. now apply reaches_flow.
Qed.

Lemma recalculate_children_None (fuel : nat) (siblingFlows : list Flow.t) :
  fold_left (fun (updatedFlows : option (list Flow.t)) siblingFlow =>
    match updatedFlows with
    | Some updatedFlows =>
        recalculateSiblingFlowValues fuel (Flow.toStageId siblingFlow)
          updatedFlows
    | None => None
    end) siblingFlows None = None.
Proof. induction siblingFlows as [| x sibs IH]; [reflexivity | exact IH]. Qed.

Lemma recalculate_cycle (fuel : nat) :
  forall (s : string) (l : list Flow.t),
    on_cycle s l -> recalculateSiblingFlowValues fuel s l = None.
Proof.
  induction fuel as [| fuel IH]; intros s l H; [reflexivity |].
  destruct (cycle_next l s H) as (f & Hf & Hfrom & Hc).
  simpl.
  assert (Hsib : In f (List.filter
                         (fun f => (Flow.fromStageId f =? s)%string) l)).
  { apply filter_In. split; [exact Hf | now apply String.eqb_eq]. }
  destruct (length _ =? 0)%nat eqn:E0.
  { apply Nat.eqb_eq in E0.
    destruct (List.filter _ l); [contradiction | discriminate]. }
  clear E0.
  assert (Hfold : forall (sibs : list Flow.t) (acc : option (list Flow.t)),
            In f sibs ->
            (forall l0, acc = Some l0 -> Forall2 same_frame l l0) ->
            fold_left (fun (updatedFlows : option (list Flow.t)) siblingFlow =>
              match updatedFlows with
              | Some updatedFlows =>
                  recalculateSiblingFlowValues fuel
                    (Flow.toStageId siblingFlow) updatedFlows
              | None => None
              end) sibs acc = None).
  { induction sibs as [| x sibs IHs]; intros acc Hin Hacc; [contradiction |].
    simpl. destruct Hin as [-> | Hin].
    - destruct acc as [l0 |]; [| apply recalculate_children_None].
      rewrite (IH (Flow.toStageId f) l0);
        [apply recalculate_children_None |].
      apply (reaches_frame l); [now apply Hacc | exact Hc].
    - apply IHs; [exact Hin |]. intros l1 H1.
      destruct acc as [l0 |]; [| discriminate].
      eapply Forall2_frame_trans; [now apply Hacc |].
      eapply recalculate_frame. exact H1. }
  apply Hfold; [exact Hsib |].
  intros l0 [= <-]. apply (setOutgoing_frame s _ l).
Qed.

(** X12.  [recalculateSiblingFlowValues] never returns when the stage it
    starts from lies on a cycle of flows: the recursion exceeds every bound
    on its depth.  So [handleDisconnectParent] does not return for a flow
    whose target stage lies on a cycle of the other flows. *)
Theorem recalculate_never_returns_on_cycle (st : State) (flowId : string)
    (flow : Flow.t) :
  let others :=
    List.filter (fun f => negb (Flow.id f =? flowId)%string) (flows st) in
  Js.find (fun f => (Flow.id f =? flowId)%string) (flows st) = Some flow ->
  Flow.toStageId flow <> ""%string ->
  on_cycle (Flow.toStageId flow) others ->
  forall fuel : nat,
    recalculateSiblingFlowValues fuel (Flow.toStageId flow) others = None
    /\ handleDisconnectParent fuel st flowId = None.
Proof.
  intros others Ef Hne H fuel. split; [now apply recalculate_cycle |].
  unfold handleDisconnectParent. rewrite Ef. cbv zeta. fold others.
  destruct (if Js.truthy (Some (Flow.fromStageId flow)) then _ else _)
    as [l1 |] eqn:E1; [| reflexivity].
  assert (HF : Forall2 same_frame others l1).
  { destruct (Js.truthy (Some (Flow.fromStageId flow))).
    - eapply recalculate_frame. exact E1.
    - injection E1 as <-. apply Forall2_frame_refl. }
  assert (Hs : Js.truthy (Some (Flow.toStageId flow)) = true).
  { simpl. now apply Bool.negb_true_iff, String.eqb_neq. }
  rewrite Hs.
  rewrite (recalculate_cycle fuel (Flow.toStageId flow) l1); [reflexivity |].
  now apply (reaches_frame others).
Qed.

Lemma recalculate_never_returns_on_cycle_witness :
  exists st : State,
    drag_then_link = Some st
    /\ forall fuel : nat,
         recalculateSiblingFlowValues fuel "A"
           (List.filter (fun f => negb (Flow.id f =? "A")%string) (flows st))
         = None
         /\ handleDisconnectParent fuel st "A" = None.
Proof.
  eexists. split; [vm_compute; reflexivity |].
  refine (recalculate_never_returns_on_cycle _ "A"
            (Flow.mk "A" "Flow 1" "1" "A" 100 (Some 0) (Some "#667eea"))
            _ _ _).
  - vm_compute. reflexivity.
  - discriminate.
  - unfold on_cycle. vm_compute.
    match goal with
    | |- reaches [?b; ?c] _ _ =>
        apply (reaches_next _ b "A");
          [left; reflexivity
          | apply (reaches_flow _ c); right; left; reflexivity]
    end.
Defined.

(** ** Flows that run left to right *)

Lemma lt_true_iff (a b : Q) : Js.lt a b = true <-> a < b.
Proof. unfold Js.lt. apply (gt_true_iff b a). Qed.

Lemma filter_length_mono {A : Type} (p q : A -> bool) (l : list A) :
  (forall x, p x = true -> q x = true) ->
  (length (List.filter p l) <= length (List.filter q l))%nat.
Proof.
  intros Hpq. induction l as [| x l IH]; simpl; [lia |].
  destruct (p x) eqn:Ep.
  - rewrite (Hpq x Ep). simpl. lia.
  - destruct (q x); simpl; lia.
Qed.

Lemma filter_length_lt {A : Type} (p q : A -> bool) (l : list A) (g : A) :
  (forall x, p x = true -> q x = true) ->
  In g l -> p g = false -> q g = true ->
  (length (List.filter p l) < length (List.filter q l))%nat.
Proof.
  intros Hpq Hg Hp Hq. induction l as [| x l IH]; [contradiction |].
  simpl. destruct Hg as [-> | Hg].
  - rewrite Hp, Hq. simpl.
    pose proof (filter_length_mono p q l Hpq). lia.
  - specialize (IH Hg). destruct (p x) eqn:Ep.
    + rewrite (Hpq x Ep). simpl. lia.
    + destruct (q x); simpl; lia.
Qed.

Lemma rightward_ranked (pos : string -> Q) (l : list Flow.t) :
  rightward pos l -> ranked (flowsEndingRightOf pos l) l.
Proof.
  unfold rightward, ranked. rewrite !List.Forall_forall. intros H g Hg.
  unfold flowsEndingRightOf. apply (filter_length_lt _ _ l g).
  - intros f Hf. apply lt_true_iff in Hf. apply lt_true_iff.
    specialize (H g Hg). lra.
  - exact Hg.
  - destruct (Js.lt _ _) eqn:E; [| reflexivity].
    apply lt_true_iff in E. lra.
  - apply lt_true_iff. now apply H.
Qed.

Lemma flowsEndingRightOf_le (pos : string -> Q) (l : list Flow.t)
    (s : string) :
  (flowsEndingRightOf pos l s <= length l)%nat.
Proof.
  unfold flowsEndingRightOf.
  induction l as [| x l IH]; simpl; [lia |].
  destruct (Js.lt _ _); simpl; lia.
Qed.

(** X13.  A graph whose flows all lead from a stage to a stage with a
    greater position has no cycle, and on such a graph [handleStageDelete]
    and [handleDisconnectParent] return; the recursion of
    [recalculateSiblingFlowValues] is at most as deep as there are
    flows, plus one. *)
Theorem rightward_flows_delete_and_disconnect_return (pos : string -> Q)
    (st : State) :
  rightward pos (flows st) ->
  acyclic (flows st)
  /\ (forall stageId : string,
        exists st' : State,
          handleStageDelete (S (length (flows st))) st stageId = Some st')
  /\ (forall flowId : string,
        exists st' : State,
          handleDisconnectParent (S (length (flows st))) st flowId
          = Some st').
Proof.
  intros H. pose proof (rightward_ranked pos (flows st) H) as Hr.
  set (rank := flowsEndingRightOf pos (flows st)) in *.
  assert (Hfuel : forall s : string, (rank s < S (length (flows st)))%nat).
  { intros s. pose proof (flowsEndingRightOf_le pos (flows st) s).
    subst rank. lia. }
  split; [now exists rank |]. split.
  - intros stageId. unfold handleStageDelete.
    destruct (length _ =? 0)%nat; [eauto |]. cbv zeta.
    destruct (option_map Flow.fromStageId _) as [parent |]; [| simpl; eauto].
    destruct (Js.truthy (Some parent)); [| simpl; eauto].
    destruct (recalculate_terminates rank (S (length (flows st))) parent
                (List.filter
                   (fun f => negb (Flow.fromStageId f =? stageId)%string
                             && negb (Flow.toStageId f =? stageId)%string)
                   (flows st)))
      as [l' El]; [now apply ranked_filter | apply Hfuel |].
    rewrite El. simpl. eauto.
  - intros flowId. unfold handleDisconnectParent.
    destruct (Js.find _ (flows st)) as [flow |]; [| eauto]. cbv zeta.
    set (others := List.filter _ (flows st)).
    assert (Ho : ranked rank others) by now apply ranked_filter.
    assert (H1 : exists l1,
              (if Js.truthy (Some (Flow.fromStageId flow))
               then recalculateSiblingFlowValues (S (length (flows st)))
                      (Flow.fromStageId flow) others
               else Some others) = Some l1
              /\ ranked rank l1).
    { destruct (Js.truthy (Some (Flow.fromStageId flow))).
      - destruct (recalculate_terminates rank (S (length (flows st)))
                    (Flow.fromStageId flow) others Ho (Hfuel _)) as [l1 E1].
        exists l1. split; [exact E1 |].
        eapply ranked_frame; [eapply recalculate_frame; exact E1 | exact Ho].
      - now exists others. }
    destruct H1 as (l1 & -> & Hl1).
    destruct (Js.truthy (Some (Flow.toStageId flow))); [| simpl; eauto].
    destruct (recalculate_terminates rank (S (length (flows st)))
                (Flow.toStageId flow) l1 Hl1 (Hfuel _)) as [l2 E2].
    rewrite E2. simpl. eauto.
Qed.

Lemma rightward_flows_delete_and_disconnect_return_witness :
  let st :=
    mkState [Stage.mk "1" "Start" 0 None None;
             Stage.mk "A" "Stage 2" 20 None None;
             Stage.mk "B" "Stage 3" 50 None None]
      [Flow.mk "A" "Flow 1" "1" "A" 100 (Some 0) None;
       Flow.mk "B" "Flow 2" "A" "B" 100 (Some 0) None] in
  acyclic (flows st)
  /\ (forall stageId : string,
        exists st' : State, handleStageDelete 3 st stageId = Some st')
  /\ (forall flowId : string,
        exists st' : State, handleDisconnectParent 3 st flowId = Some st').
Proof.
  intros st.
  apply (rightward_flows_delete_and_disconnect_return
           (fun s => if (s =? "1")%string then 0
                     else if (s =? "A")%string then 20 else 50) st).
  repeat constructor.
Defined.

(** ** Dragging a stage *)

Lemma snapToTicker_within (p : Q) :
  0 <= p <= 100 -> 0 <= snapToTicker p <= 100.
Proof.
  intros Hp. unfold snapToTicker, Js.Math_round, CANVAS_MIN_POSITION,
    CANVAS_MAX_POSITION.
  pose proof (Qfloor_le (p * 10 + (1 # 2))) as Hlo.
  pose proof (Qlt_floor (p * 10 + (1 # 2))) as Hhi.
  set (k := Qfloor (p * 10 + (1 # 2))) in *.
  assert (Hk : (0 <= k <= 1000)%Z).
  { split.
    - destruct (Z_le_gt_dec 0 k) as [H | H]; [exact H | exfalso].
      assert (Hz : (k + 1 <= 0)%Z) by lia.
      rewrite Zle_Qle in Hz. change (inject_Z 0) with 0 in Hz.
      revert Hhi Hz. generalize (inject_Z (k + 1)). intros a Hhi Hz. lra.
    - destruct (Z_le_gt_dec k 1000) as [H | H]; [exact H | exfalso].
      assert (Hz : (1001 <= k)%Z) by lia.
      rewrite Zle_Qle in Hz. change (inject_Z 1001) with 1001 in Hz.
      revert Hlo Hz. generalize (inject_Z k). intros a Hlo Hz. lra. }
  destruct Hk as [Hk0 Hk1]. rewrite Zle_Qle in Hk0, Hk1.
  change (inject_Z 0) with 0 in Hk0. change (inject_Z 1000) with 1000 in Hk1.
  clear Hlo Hhi. revert Hk0 Hk1. generalize (inject_Z k). intros a Hk0 Hk1.
  assert (Ha : a / 10 == a * (1 # 10)) by field.
  revert Ha. generalize (a / 10). intros b Hb.
  js_minmax; lra.
Qed.

Lemma snapToTicker_fixed (p : Q) :
  snapToTicker (snapToTicker p) == snapToTicker p.
Proof.
  destruct (snapToTicker_tenth p) as [m [_ Hm]].
  pose proof (clamp_in_range (Js.Math_round (p * 10) / 10)) as Hrange.
  fold (snapToTicker p) in Hrange.
  revert Hm Hrange. generalize (snapToTicker p). intros r Hm Hrange.
  unfold snapToTicker at 1.
  rewrite (Math_round_integer (r * 10) m) by (rewrite Hm; field).
  rewrite clamp_id; rewrite <- Hm; [reflexivity | exact Hrange].
Qed.

Lemma markerDragPosition_range (canvasWidth dragStartPosition deltaX : Q) :
  ~ canvasWidth == 0 ->
  exists newPosition : Q,
    markerDragPosition canvasWidth (getMinXForStage "") dragStartPosition
      deltaX = Some newPosition
    /\ 0 <= newPosition <= 100.
Proof.
  intros HW. unfold markerDragPosition, getMinXForStage, Js.div.
  destruct (Qeq_bool canvasWidth 0) eqn:E.
  { apply Qeq_bool_iff in E. contradiction. }
  eexists. split; [reflexivity |].
  assert (E0 : 0 / canvasWidth * 100 == 0) by (field; exact HW).
  revert E0. generalize (0 / canvasWidth * 100). intros z Hz.
  js_minmax; lra.
Qed.

(** X14.  A mouse move of a dragged marker on a canvas of non-zero width
    leaves the flows and every other stage as they are, and puts each stage
    with the dragged id on a ticker between positions 0 and 100, at the
    vertical position of the pointer; ids, names and colours are kept. *)
Theorem dragStage_lands_on_ticker (canvasWidth : Q) (st : State)
    (stage : Stage.t) (dragStartPosition dragStartYPosition deltaX deltaY : Q) :
  ~ canvasWidth == 0 ->
  exists st' : State,
    dragStage canvasWidth st stage dragStartPosition dragStartYPosition
      deltaX deltaY = Some st'
    /\ flows st' = flows st
    /\ Forall2 (fun s s' =>
         Stage.id s' = Stage.id s
         /\ Stage.name s' = Stage.name s
         /\ Stage.color s' = Stage.color s
         /\ (Stage.id s <> Stage.id stage -> s' = s)
         /\ (Stage.id s = Stage.id stage ->
             0 <= Stage.position s' <= 100
             /\ snapToTicker (Stage.position s') == Stage.position s'
             /\ Stage.yPosition s' = Some (dragStartYPosition + deltaY)))
         (stages st) (stages st').
Proof.
  intros HW. unfold dragStage.
  destruct (markerDragPosition_range canvasWidth dragStartPosition deltaX HW)
    as (newPosition & E & Hrange).
  unfold getMinXForStage in *. rewrite E.
  eexists. split; [reflexivity |]. split; [reflexivity |].
  cbn [stages]. unfold handleStageDrag.
  induction (stages st) as [| s l IH]; simpl; constructor; [| exact IH].
  destruct (Stage.id s =? Stage.id stage)%string eqn:Eid.
  - apply String.eqb_eq in Eid. cbn.
    split; [reflexivity |]. split; [reflexivity |]. split; [reflexivity |].
    split; [intros Hne; contradiction |]. intros _.
    split; [now apply snapToTicker_within |].
    split; [apply snapToTicker_fixed | reflexivity].
  - apply String.eqb_neq in Eid.
    split; [reflexivity |]. split; [reflexivity |]. split; [reflexivity |].
    split; [reflexivity |]. intros He. contradiction.
Qed.

Lemma dragStage_lands_on_ticker_witness :
  exists st' : State,
    dragStage 1200 initialState (Stage.mk "1" "Start" 0 None (Some "#667eea"))
      0 300 (-240) 15 = Some st'
    /\ flows st' = flows initialState
    /\ Forall2 (fun s s' =>
         Stage.id s' = Stage.id s
         /\ Stage.name s' = Stage.name s
         /\ Stage.color s' = Stage.color s
         /\ (Stage.id s <> "1"%string -> s' = s)
         /\ (Stage.id s = "1"%string ->
             0 <= Stage.position s' <= 100
             /\ snapToTicker (Stage.position s') == Stage.position s'
             /\ Stage.yPosition s' = Some (300 + 15)))
         (stages initialState) (stages st').
Proof.
  apply (dragStage_lands_on_ticker 1200 initialState
           (Stage.mk "1" "Start" 0 None (Some "#667eea")) 0 300 (-240) 15).
  discriminate.
Defined.

(** ** History and undo *)

Lemma saveToHistory_at_end (es : list State) (i : Z) (current : State) :
  (Z.of_nat (length es) - 1 <= i)%Z ->
  saveToHistory (mkHistory es i) current
  = if (50 <? length (es ++ [current]))%nat
    then mkHistory (drop 1 (es ++ [current]))
           (Z.of_nat (length (drop 1 (es ++ [current]))) - 1)
    else mkHistory (es ++ [current])
           (Z.of_nat (length (es ++ [current])) - 1).
Proof.
  intros Hi. unfold saveToHistory. cbn [entries historyIndex].
  destruct (i <? Z.of_nat (length es) - 1)%Z eqn:E; [| reflexivity].
  apply Z.ltb_lt in E. lia.
Qed.

Lemma saveToHistory_entries (h : History) (current : State) :
  exists kept : list State,
    entries (saveToHistory h current) = kept ++ [current]
    /\ historyIndex (saveToHistory h current) = Z.of_nat (length kept)
    /\ ((length (entries h) <= 50)%nat -> (length kept <= 49)%nat)
    /\ (entries h = [] -> kept = [])
    /\ (forall (es : list State) (prev : State),
          entries h = es ++ [prev] ->
          historyIndex h = Z.of_nat (length es) ->
          exists kept' : list State, kept = kept' ++ [prev]).
Proof.
  unfold saveToHistory. cbv zeta.
  set (kept := if (historyIndex h <? Z.of_nat (length (entries h)) - 1)%Z
               then take (Z.to_nat (historyIndex h + 1)) (entries h)
               else entries h).
  assert (Hk : (length kept <= length (entries h))%nat).
  { subst kept. destruct (_ <? _)%Z; [| lia]. rewrite length_take. lia. }
  assert (Hnil : entries h = [] -> kept = []).
  { intros E. clear Hk. subst kept. rewrite E.
    case (historyIndex h <? _)%Z; [apply take_nil | reflexivity]. }
  assert (Hend : forall (es : list State) (prev : State),
            entries h = es ++ [prev] ->
            historyIndex h = Z.of_nat (length es) ->
            kept = es ++ [prev]).
  { intros es prev E Ei. clear Hk Hnil. subst kept.
    rewrite E, Ei, length_app. simpl.
    case (Z.ltb_spec (Z.of_nat (length es))
            (Z.of_nat (length es + 1) - 1)); [lia | reflexivity]. }
  destruct (50 <? length (kept ++ [current]))%nat eqn:E.
  - apply Nat.ltb_lt in E. rewrite length_app in E. simpl in E.
    destruct kept as [| x kept'] eqn:Ekept; [simpl in E; lia |].
    exists kept'. simpl in *. rewrite drop_0.
    split; [reflexivity |]. split; [rewrite length_app; simpl; lia |].
    split; [lia |]. split; [intros E0; now specialize (Hnil E0) |].
    intros es prev Ees Ei. specialize (Hend es prev Ees Ei).
    destruct es as [| y es'].
    + simpl in Hend. injection Hend as -> ->. simpl in E. lia.
    + simpl in Hend. injection Hend as -> ->. now exists es'.
  - exists kept. split; [reflexivity |].
    split; [rewrite length_app; simpl; lia |].
    apply Nat.ltb_ge in E. rewrite length_app in E. simpl in E.
    split; [lia |]. split; [exact Hnil |].
    intros es prev Ees Ei. exists es. now apply Hend.
Qed.

(** X15.  [saveToHistory] keeps the history within 50 graphs: from a
    history of at most 50 entries it gives a history of at most 50 entries
    whose last entry is the saved graph and whose index points at that last
    entry; undo is then offered exactly when there are two entries or
    more. *)
Theorem saveToHistory_bounded (h : History) (current : State) :
  (length (entries h) <= 50)%nat ->
  let h' := saveToHistory h current in
  (1 <= length (entries h') <= 50)%nat
  /\ historyIndex h' = (Z.of_nat (length (entries h')) - 1)%Z
  /\ entries h' !! (length (entries h') - 1)%nat = Some current
  /\ (canUndo h' = true <-> (2 <= length (entries h'))%nat).
Proof.
  intros Hcap h'. subst h'.
  destruct (saveToHistory_entries h current) as (kept & E & Ei & Hk & _).
  specialize (Hk Hcap). rewrite E, Ei, length_app. simpl.
  split; [lia |]. split; [lia |]. split.
  - replace (length kept + 1 - 1)%nat with (length kept + 0)%nat by lia.
    now rewrite lookup_app_r, Nat.add_comm, Nat.add_sub by lia.
  - unfold canUndo. rewrite Ei, Z.ltb_lt. lia.
Qed.

Lemma saveToHistory_bounded_witness :
  let h' := saveToHistory (mkHistory (repeat initialState 50) 49)
              (mkState [] []) in
  (1 <= length (entries h') <= 50)%nat
  /\ historyIndex h' = (Z.of_nat (length (entries h')) - 1)%Z
  /\ entries h' !! (length (entries h') - 1)%nat = Some (mkState [] [])
  /\ (canUndo h' = true <-> (2 <= length (entries h'))%nat).
Proof.
  apply (saveToHistory_bounded (mkHistory (repeat initialState 50) 49)
           (mkState [] [])).
  simpl. lia.
Defined.

(** X16.  A handler that changes stages and flows in one event
    ([handleCanvasClick], [handleStageDelete]) saves the current graph
    twice, and one undo right after it restores that graph, whatever the
    history was. *)
Theorem undo_restores_graph_after_stage_and_flow_change (app : App)
    (next : State) :
  graph (changeStagesAndFlows app next) = next
  /\ canUndo (history (changeStagesAndFlows app next)) = true
  /\ graph (handleUndo (changeStagesAndFlows app next)) = graph app.
Proof.
  split; [reflexivity |].
  unfold changeStagesAndFlows, handleUndo, canUndo. cbn [history graph].
  destruct (saveToHistory_entries (history app) (graph app))
    as (kept1 & E1 & Ei1 & _).
  destruct (saveToHistory_entries
              (saveToHistory (history app) (graph app)) (graph app))
    as (kept2 & E2 & Ei2 & _ & _ & Hend).
  destruct (Hend kept1 (graph app) E1 Ei1) as [kept Ek]. subst kept2.
  rewrite Ei2, E2, length_app. simpl.
  assert (Hpos : (0 <? Z.of_nat (length kept + 1))%Z = true)
    by (apply Z.ltb_lt; lia).
  rewrite Hpos. split; [reflexivity |].
  replace (Z.to_nat (Z.of_nat (length kept + 1) - 1)) with (length kept)
    by lia.
  rewrite <- app_assoc. simpl. now rewrite list_lookup_middle.
Qed.



(** ** Stacking of the flows at a marker *)

(** The offset loop adds [value * 8 + 8] for each flow before [index]. *)
Lemma offsetBefore_sum (siblings : list Flow.t) (index : nat) :
  offsetBefore siblings (Some index)
  == Js.sum (fun f => Flow.value f * HEIGHT_SCALE + FLOW_SPACING)
       (take index siblings).
Proof.
  unfold offsetBefore.
  change (default 0%nat (Some index)) with index.
  induction index as [| i IH].
  - rewrite take_0. reflexivity.
  - rewrite seq_S, fold_left_app. cbn [fold_left Nat.add].
    destruct (siblings !! i) as [f |] eqn:Ef.
    + rewrite (take_S_r _ _ _ Ef), sum_app, IH.
      unfold Js.sum at 3. simpl. ring.
    + rewrite IH. apply lookup_ge_None in Ef.
      rewrite !take_ge by lia. reflexivity.
Qed.

Lemma flowWidth_bounds (f : Flow.t) :
  20 <= flowWidth f /\ Flow.value f * HEIGHT_SCALE <= flowWidth f.
Proof. unfold flowWidth, HEIGHT_SCALE. js_minmax; lra. Qed.

Lemma sumWidths_nonneg (l : list Flow.t) : 0 <= sumWidths l.
Proof.
  induction l as [| f l IH]; simpl; [lra |].
  pose proof (flowWidth_bounds f). lra.
Qed.

Lemma band_within_stack (pre post : list Flow.t) (f : Flow.t) :
  Js.sum (fun g => Flow.value g * HEIGHT_SCALE + FLOW_SPACING) pre
  + flowWidth f
  <= stackFormula (pre ++ f :: post).
Proof.
  unfold stackFormula, FLOW_SPACING.
  induction pre as [| g pre IH]; cbn [app].
  - unfold Js.sum. cbn [fold_left sumWidths fold_right]. fold (sumWidths post).
    rewrite len_cons.
    pose proof (sumWidths_nonneg post). pose proof (len_nonneg post). lra.
  - rewrite sum_cons. cbn [sumWidths fold_right].
    fold (sumWidths (pre ++ f :: post)). rewrite len_cons.
    pose proof (flowWidth_bounds g). unfold FLOW_SPACING in *. lra.
Qed.

(** X18.  Flows stacked at a marker: the band of the [i]-th flow starts at
    the offset computed by the render loop and is [max(20, value * 8)]
    high.  The next band starts [min(8, value * 8 - 12)] below its end: 8
    pixels when the value is at least 2.5, and above its end (the bands
    overlap) when the value is below 1.5.  With non-negative values every
    band lies between the top of the stack and the stacked height that
    [getNodeHeight] computes. *)
Theorem stacked_bands (siblings : list Flow.t) (i : nat) (f : Flow.t) :
  siblings !! i = Some f ->
  let top := offsetBefore siblings (Some i) in
  let bottom := top + Js.Math_max 20 (Flow.value f * HEIGHT_SCALE) in
  offsetBefore siblings (Some (S i)) - bottom
  == Js.Math_min 8 (Flow.value f * 8 - 12)
  /\ (Forall (fun g => 0 <= Flow.value g) siblings ->
      0 <= top /\ bottom <= stackedHeight siblings).
Proof.
  intros Hf top bottom. subst bottom top. split.
  - rewrite !offsetBefore_sum, (take_S_r _ _ _ Hf), sum_app.
    unfold Js.sum at 2. cbn [fold_left]. unfold HEIGHT_SCALE, FLOW_SPACING.
    js_minmax; lra.
  - intros Hpos. rewrite offsetBefore_sum. split.
    + assert (H : Forall (fun g => 0 <= Flow.value g) (take i siblings)).
      { apply List.Forall_forall. intros g Hg.
        rewrite List.Forall_forall in Hpos. apply Hpos.
        rewrite <- (take_drop i siblings). apply in_or_app. now left. }
      clear Hf Hpos. induction H as [| g l Hg _ IH].
      * unfold Js.sum. simpl. lra.
      * rewrite sum_cons. unfold HEIGHT_SCALE, FLOW_SPACING in *. lra.
    + rewrite stackedHeight_formula by (intros E; now rewrite E in Hf).
      rewrite <- (take_drop_middle siblings i f Hf) at 2.
      apply (band_within_stack (take i siblings) (drop (S i) siblings) f).
Qed.

Lemma stacked_bands_witness :
  let siblings :=
    [Flow.mk "a" "Flow 1" "1" "A" 99 (Some 0) None;
     Flow.mk "b" "Flow 2" "1" "B" (1 # 100) (Some 1) None;
     Flow.mk "c" "Flow 3" "1" "C" (1 # 100) (Some 2) None] in
  offsetBefore siblings (Some 2%nat)
  - (offsetBefore siblings (Some 1%nat)
     + Js.Math_max 20 ((1 # 100) * HEIGHT_SCALE))
  == Js.Math_min 8 ((1 # 100) * 8 - 12)
  /\ (Forall (fun g => 0 <= Flow.value g) siblings ->
      0 <= offsetBefore siblings (Some 1%nat)
      /\ offsetBefore siblings (Some 1%nat)
         + Js.Math_max 20 ((1 # 100) * HEIGHT_SCALE)
         <= stackedHeight siblings).
Proof.
  intros siblings.
  exact (stacked_bands siblings 1
           (Flow.mk "b" "Flow 2" "1" "B" (1 # 100) (Some 1) None) eq_refl).
Defined.

(** X19.  The entry point that a stage marker gets for an incoming flow is
    where the rendered path of that flow ends: for a drawn flow whose
    target is found as [stage], [incomingFlowPositions] of [stage] holds
    the id of the flow with the [toY] of its path. *)
Theorem entry_point_matches_flow_path (canvasWidth canvasHeight : Q)
    (st : State) (stage : Stage.t) (flow : Flow.t) (props : FlowPathProps) :
  In flow (flows st) ->
  Js.find (fun s => (Stage.id s =? Flow.toStageId flow)%string) (stages st)
  = Some stage ->
  renderFlow canvasWidth canvasHeight st flow = Some props ->
  In (Flow.id flow, toY props) (incomingFlowPositions canvasHeight st stage)
  /\ width props = Js.Math_max 20 (Flow.value flow * HEIGHT_SCALE)
  /\ toX props = getStageX canvasWidth (Stage.position stage) - 5.
Proof.
  intros Hin Hto Hr. unfold renderFlow in Hr. rewrite Hto in Hr.
  destruct (find_some_In _ _ _ Hto) as [_ Eid]. clear Hto.
  destruct (Js.find _ (stages st)) as [fromStage |]; [| discriminate].
  cbv zeta in Hr. injection Hr as <-. cbn [toY width toX]. apply String.eqb_eq in Eid.
  split; [| split; reflexivity].
  unfold incomingFlowPositions. apply in_map_iff. exists flow. split.
  - rewrite Eid. reflexivity.
  - unfold incomingFlowsOf. apply filter_In. split; [exact Hin |].
    apply String.eqb_eq. now rewrite Eid.
Qed.

Lemma entry_point_matches_flow_path_witness :
  exists props : FlowPathProps,
    renderFlow 1200 800 st_with_hanging
      (Flow.mk "a" "Flow 1" "1" "2" 50 (Some 0) None) = Some props
    /\ In ("a"%string, toY props)
         (incomingFlowPositions 800 st_with_hanging
            (Stage.mk "2" "Stage 2" 20 None None)).
Proof.
  eexists. split; [reflexivity |].
  refine (proj1 (entry_point_matches_flow_path 1200 800 st_with_hanging
                   (Stage.mk "2" "Stage 2" 20 None None)
                   (Flow.mk "a" "Flow 1" "1" "2" 50 (Some 0) None) _
                   _ eq_refl eq_refl)).
  left. reflexivity.
Defined.

(** ** Flow values never become negative *)

Lemma div_nonneg (a b : Q) : 0 <= a -> 0 <= b -> 0 <= a / b.
Proof.
  intros Ha Hb. unfold Qdiv. apply Qmult_le_0_compat; [exact Ha |].
  now apply Qinv_le_0_compat.
Qed.

Lemma nonneg_filter (p : Flow.t -> bool) (l : list Flow.t) :
  nonneg l -> nonneg (List.filter p l).
Proof.
  unfold nonneg. rewrite !List.Forall_forall. intros H f Hf.
  apply filter_In in Hf. now apply H.
Qed.

Lemma nonneg_map (h : Flow.t -> Flow.t) (l : list Flow.t) :
  (forall f, 0 <= Flow.value f -> 0 <= Flow.value (h f)) ->
  nonneg l -> nonneg (List.map h l).
Proof.
  intros Hh. unfold nonneg. induction 1 as [| f l Hf _ IH]; simpl;
    constructor; auto.
Qed.

Lemma nonneg_sum (l : list Flow.t) : nonneg l -> 0 <= Js.sum Flow.value l.
Proof. apply sum_nonneg. Qed.

Lemma incoming_nonneg (s : string) (l : list Flow.t) :
  nonneg l -> 0 <= getIncomingFlowValue s l.
Proof.
  intros H. unfold getIncomingFlowValue. cbv zeta.
  destruct (length _ =? 0)%nat; [lra |].
  now apply nonneg_sum, nonneg_filter.
Qed.

Lemma nonneg_setOutgoing (s : string) (v : Q) (l : list Flow.t) :
  0 <= v -> nonneg l -> nonneg (setOutgoing s v l).
Proof.
  intros Hv. apply nonneg_map. intros f Hf.
  destruct (Flow.fromStageId f =? s)%string; [exact Hv | exact Hf].
Qed.

Lemma nonneg_createFlow (flows : list Flow.t)
    (now fromStageId toStageId : string) (flowColor : option string) :
  nonneg flows ->
  nonneg (createFlowWithProportionalSplit flows now fromStageId toStageId
            flows flowColor).
Proof.
  intros H. unfold createFlowWithProportionalSplit. cbv zeta.
  assert (Hv : 0 <= getIncomingFlowValue fromStageId flows
                    / (Js.len (List.filter
                                 (fun f =>
                                    (Flow.fromStageId f =? fromStageId)%string)
                                 flows) + 1)).
  { apply div_nonneg; [now apply incoming_nonneg |].
    pose proof (len_nonneg
                  (List.filter
                     (fun f => (Flow.fromStageId f =? fromStageId)%string)
                     flows)). lra. }
  apply Forall_app. split.
  - apply (nonneg_setOutgoing fromStageId _ flows Hv H).
  - constructor; [exact Hv | constructor].
Qed.

Lemma nonneg_balanceStage (l : list Flow.t) (stage : Stage.t) :
  nonneg l -> nonneg (balanceStage l stage).
Proof.
  intros H. unfold balanceStage. cbv zeta.
  destruct (0 <? length _)%nat; [| exact H].
  destruct (Js.gt _ _); [| exact H].
  assert (Hv : 0 <= getIncomingFlowValue (Stage.id stage) l
                    / Js.len (List.filter
                                (fun f =>
                                   (Flow.fromStageId f =? Stage.id stage)%string)
                                l)).
  { apply div_nonneg; [now apply incoming_nonneg | apply len_nonneg]. }
  revert Hv. generalize (getIncomingFlowValue (Stage.id stage) l
                         / Js.len (List.filter
                                     (fun f =>
                                        (Flow.fromStageId f
                                         =? Stage.id stage)%string) l)).
  intros v Hv.
  generalize (List.filter
                (fun f => (Flow.fromStageId f =? Stage.id stage)%string) l).
  intros outgoing. revert l H.
  induction outgoing as [| flow outgoing IH]; intros l H; [exact H |].
  simpl. apply IH.
  destruct (Js.findIndex _ l) as [index |]; [| exact H].
  destruct (l !! index) as [current |] eqn:Ec; [| exact H].
  unfold nonneg. apply Forall_insert; [exact H | exact Hv].
Qed.

Lemma nonneg_balanceFlows (stages : list Stage.t) (l : list Flow.t) :
  nonneg l -> nonneg (balanceFlows stages l).
Proof.
  unfold balanceFlows. revert l.
  induction stages as [| s stages IH]; intros l H; [exact H |].
  simpl. apply IH. now apply nonneg_balanceStage.
Qed.

Lemma clampedFlowValue_nonneg (flows : list Flow.t) (editingFlow : Flow.t) :
  0 <= clampedFlowValue flows editingFlow.
Proof. unfold clampedFlowValue. cbv zeta. js_minmax; lra. Qed.

Lemma nonneg_replace (l : list Flow.t) (editingFlow : Flow.t) (v : Q) :
  0 <= v -> nonneg l ->
  nonneg (List.map (fun f => if (Flow.id f =? Flow.id editingFlow)%string
                             then Flow.with_value editingFlow v else f) l).
Proof.
  intros Hv. apply nonneg_map. intros f Hf.
  destruct (Flow.id f =? Flow.id editingFlow)%string; [exact Hv | exact Hf].
Qed.

Lemma nonneg_rescale (l : list Flow.t) (editingFlow : Flow.t) (source : string)
    (newValue : Flow.t -> Q) :
  (forall f, 0 <= Flow.value f -> 0 <= newValue f) ->
  nonneg l ->
  nonneg (List.map (fun flow =>
            if (Flow.fromStageId flow =? source)%string
               && negb (Flow.id flow =? Flow.id editingFlow)%string
            then Flow.with_value flow (newValue flow)
            else flow) l).
Proof.
  intros Hn. apply nonneg_map. intros f Hf.
  destruct (_ && _); [now apply Hn | exact Hf].
Qed.

Lemma nonneg_firstRedistribution (flows : list Flow.t) (editingFlow : Flow.t)
    (l : list Flow.t) :
  nonneg flows -> firstRedistribution flows editingFlow = Some l -> nonneg l.
Proof.
  intros H. unfold firstRedistribution. cbv zeta.
  pose proof (nonneg_replace flows editingFlow
                (clampedFlowValue flows editingFlow)
                (clampedFlowValue_nonneg flows editingFlow) H) as Hu.
  revert Hu.
  generalize (List.map
                (fun f => if (Flow.id f =? Flow.id editingFlow)%string
                          then Flow.with_value editingFlow
                                 (clampedFlowValue flows editingFlow)
                          else f) flows).
  intros u Hu.
  destruct (1 <? length _)%nat; [| now intros [= <-]].
  destruct (_ && Js.gt _ 0).
  - unfold Js.div. destruct (Qeq_bool _ 0); [discriminate |].
    intros [= <-]. apply nonneg_rescale; [| exact Hu].
    intros f Hf. apply Qmult_le_0_compat; [exact Hf |].
    apply div_nonneg; [js_minmax; lra |].
    now apply nonneg_sum, nonneg_filter, nonneg_filter.
  - destruct (_ && Js.le _ 0); [| now intros [= <-]].
    intros [= <-]. apply nonneg_rescale; [| exact Hu]. intros f _. lra.
Qed.

Lemma nonneg_finalRedistribution (stages : list Stage.t) (editingFlow : Flow.t)
    (v : Q) (u l : list Flow.t) :
  0 <= v -> nonneg u ->
  finalRedistribution stages editingFlow v u = Some l -> nonneg l.
Proof.
  intros Hv H. unfold finalRedistribution. cbv zeta.
  pose proof (nonneg_replace (balanceFlows stages u) editingFlow v Hv
                (nonneg_balanceFlows stages u H)) as Hu.
  revert Hu.
  generalize (List.map
                (fun f => if (Flow.id f =? Flow.id editingFlow)%string
                          then Flow.with_value editingFlow v else f)
                (balanceFlows stages u)).
  intros w Hw.
  destruct (1 <? length _)%nat; [| now intros [= <-]].
  destruct (_ && Js.gt _ 0 && Js.gt _ 0); [| now intros [= <-]].
  unfold Js.div. destruct (Qeq_bool _ 0); [discriminate |].
  intros [= <-]. apply nonneg_rescale; [| exact Hw].
  intros f Hf. apply Qmult_le_0_compat; [exact Hf |].
  apply div_nonneg; [js_minmax; lra |].
  now apply nonneg_sum, nonneg_filter, nonneg_filter.
Qed.

Lemma nonneg_handleFlowUpdate (stages : list Stage.t) (flows : list Flow.t)
    (editingFlow : Flow.t) (l : list Flow.t) :
  nonneg flows -> handleFlowUpdate stages flows editingFlow = Some l ->
  nonneg l.
Proof.
  intros H. unfold handleFlowUpdate.
  destruct (firstRedistribution flows editingFlow) as [u |] eqn:E;
    [| discriminate].
  apply nonneg_finalRedistribution;
    [apply clampedFlowValue_nonneg
    | exact (nonneg_firstRedistribution flows editingFlow u H E)].
Qed.

Lemma nonneg_recalculate (fuel : nat) :
  forall (p : string) (l l' : list Flow.t),
    nonneg l -> recalculateSiblingFlowValues fuel p l = Some l' -> nonneg l'.
Proof.
  induction fuel as [| fuel IH]; intros p l l' Hl H; simpl in H;
    [discriminate |].
  destruct (length _ =? 0)%nat; [now injection H as <- |].
  assert (Hs : nonneg
                 (List.map (fun flow =>
                    if (Flow.fromStageId flow =? p)%string
                    then Flow.with_value flow
                           (getIncomingFlowValue p l
                            / Js.len (List.filter
                                        (fun f =>
                                           (Flow.fromStageId f =? p)%string)
                                        l))
                    else flow) l)).
  { apply (nonneg_setOutgoing p _ l); [| exact Hl].
    apply div_nonneg; [now apply incoming_nonneg | apply len_nonneg]. }
  revert H Hs.
  generalize (List.map (fun flow =>
                if (Flow.fromStageId flow =? p)%string
                then Flow.with_value flow
                       (getIncomingFlowValue p l
                        / Js.len (List.filter
                                    (fun f => (Flow.fromStageId f =? p)%string)
                                    l))
                else flow) l).
  generalize (List.filter (fun f => (Flow.fromStageId f =? p)%string) l).
  intros sibs. induction sibs as [| x sibs IHs]; intros u H Hu; simpl in H.
  - now injection H as <-.
  - destruct (recalculateSiblingFlowValues fuel (Flow.toStageId x) u)
      as [u' |] eqn:E.
    + apply (IHs u' H). exact (IH _ _ _ Hu E).
    + rewrite recalculate_children_None in H. discriminate.
Qed.

Lemma nonneg_handleStageDelete (fuel : nat) (st st' : State)
    (stageId : string) :
  nonneg (flows st) -> handleStageDelete fuel st stageId = Some st' ->
  nonneg (flows st').
Proof.
  intros H. unfold handleStageDelete. cbv zeta.
  destruct (length _ =? 0)%nat; [now intros [= <-] |].
  pose proof (nonneg_filter
                (fun f => negb (Flow.fromStageId f =? stageId)%string
                          && negb (Flow.toStageId f =? stageId)%string)
                (flows st) H) as Hf.
  destruct (option_map Flow.fromStageId _) as [parent |];
    [| now intros [= <-]].
  destruct (Js.truthy (Some parent)); [| now intros [= <-]].
  destruct (recalculateSiblingFlowValues fuel parent _) as [l' |] eqn:E;
    [| discriminate].
  intros [= <-]. exact (nonneg_recalculate fuel parent _ l' Hf E).
Qed.

Lemma nonneg_handleDisconnectParent (fuel : nat) (st st' : State)
    (flowId : string) :
  nonneg (flows st) -> handleDisconnectParent fuel st flowId = Some st' ->
  nonneg (flows st').
Proof.
  intros H. unfold handleDisconnectParent.
  destruct (Js.find _ (flows st)) as [flow |]; [| now intros [= <-]].
  cbv zeta.
  pose proof (nonneg_filter
                (fun f => negb (Flow.id f =? flowId)%string) (flows st) H)
    as Hf.
  destruct (if Js.truthy (Some (Flow.fromStageId flow)) then _ else _)
    as [l1 |] eqn:E1; [| discriminate].
  assert (H1 : nonneg l1).
  { destruct (Js.truthy (Some (Flow.fromStageId flow))).
    - exact (nonneg_recalculate fuel _ _ l1 Hf E1).
    - now injection E1 as <-. }
  destruct (Js.truthy (Some (Flow.toStageId flow))).
  - destruct (recalculateSiblingFlowValues fuel _ l1) as [l2 |] eqn:E2;
      [| discriminate].
    intros [= <-]. exact (nonneg_recalculate fuel _ l1 l2 H1 E2).
  - now intros [= <-].
Qed.

Section NonNegative.

Variables canvasWidth zoom : Q.
Variable generateSimilarColor : string -> Q -> string.

Lemma nonneg_handleStageClick (now : string) (st : State)
    (editingStage : option Stage.t) (selectedStageId : option string)
    (stage : Stage.t) :
  nonneg (flows st) ->
  nonneg (flows (handleStageClick now st editingStage selectedStageId stage)).
Proof.
  intros H. unfold handleStageClick.
  destruct (match editingStage with Some _ => _ | None => _ end);
    [exact H |].
  destruct selectedStageId as [selected |]; [| exact H].
  destruct (_ && _); [| exact H].
  destruct (Js.find _ (stages st)); [| exact H].
  destruct (Js.gt _ _); [| exact H].
  cbn [flows]. now apply nonneg_balanceFlows, nonneg_createFlow.
Qed.

Lemma nonneg_handleCanvasClick (now : string) (st : State)
    (isCreatingBranch : bool) (selectedStageId : option string)
    (clickX clickY : Q) :
  nonneg (flows st) ->
  nonneg (flows (handleCanvasClick canvasWidth zoom generateSimilarColor now
                   st isCreatingBranch selectedStageId clickX clickY)).
Proof.
  intros H.
  destruct (handleCanvasClick_change canvasWidth zoom generateSimilarColor
              now st isCreatingBranch selectedStageId clickX clickY)
    as [-> | _]; [exact H |].
  unfold handleCanvasClick.
  destruct (_ || _); [exact H |].
  destruct selectedStageId as [selected |]; [| exact H].
  destruct (Js.find _ (stages st)); [| exact H]. cbv zeta.
  destruct (Js.le clickX _); [exact H |].
  destruct (if Js.le _ _ then _ else _); [| exact H].
  destruct (match Js.div 10 zoom with Some _ => _ | None => _ end);
    [exact H |].
  cbn [flows]. now apply nonneg_balanceFlows, nonneg_createFlow.
Qed.

Lemma nonneg_applyOp (fuel : nat) (st st' : State) (op : Op) :
  nonneg (flows st) ->
  applyOp canvasWidth zoom generateSimilarColor fuel st op = Some st' ->
  nonneg (flows st').
Proof.
  intros H. destruct op as [selected target now | selected clickX clickY now
                           | | flowId percent | stageId | flowId]; simpl.
  - destruct (Js.find _ (stages st)); intros [= <-];
      [now apply nonneg_handleStageClick | exact H].
  - intros [= <-]. now apply nonneg_handleCanvasClick.
  - intros [= <-]. now apply nonneg_balanceFlows.
  - destruct (Js.find _ (flows st)) as [flow |]; [| now intros [= <-]].
    destruct (handleFlowUpdate _ _ _) as [l |] eqn:E; [| discriminate].
    intros [= <-]. exact (nonneg_handleFlowUpdate _ _ _ l H E).
  - now apply nonneg_handleStageDelete.
  - now apply nonneg_handleDisconnectParent.
Qed.

Lemma nonneg_run (fuel : nat) (ops : list Op) :
  forall st st' : State,
    nonneg (flows st) ->
    run canvasWidth zoom generateSimilarColor fuel st ops = Some st' ->
    nonneg (flows st').
Proof.
  induction ops as [| op ops IH]; intros st st' H; simpl.
  - now intros [= <-].
  - destruct (applyOp _ _ _ fuel st op) as [st1 |] eqn:E; [| discriminate].
    apply IH. exact (nonneg_applyOp fuel st st1 op H E).
Qed.

End NonNegative.

(** X20.  The engine operations keep flow values non-negative: from a
    graph whose flow values are all at least 0, a sequence of operations in
    which every manual edit gives finite values and every recalculation
    returns ends in a graph whose flow values are all at least 0, so that
    the incoming and the outgoing value of every stage are at least 0.  A
    session in which a manual edit has divided by a zero sibling sum, after
    which the program holds [NaN] values, is not covered. *)
Theorem finite_sessions_keep_values_nonnegative (canvasWidth zoom : Q)
    (generateSimilarColor : string -> Q -> string) (fuel : nat)
    (ops : list Op) (st st' : State) :
  nonneg (flows st) ->
  run canvasWidth zoom generateSimilarColor fuel st ops = Some st' ->
  nonneg (flows st')
  /\ (forall s : string, 0 <= In_ s (flows st') /\ 0 <= Out_ s (flows st')).
Proof.
  intros Hst Hrun.
  assert (H : nonneg (flows st')).
  { exact (nonneg_run canvasWidth zoom generateSimilarColor fuel ops st st'
             Hst Hrun). }
  split; [exact H |].
  intros s. split; [now apply incoming_nonneg |].
  now apply nonneg_sum, nonneg_filter.
Qed.

Lemma finite_sessions_keep_values_nonnegative_witness :
  exists st' : State,
    run 1200 1 (fun c _ => c) 5 initialState ops_edit_to_full = Some st'
    /\ nonneg (flows st').
Proof.
  eexists. split; [vm_compute; reflexivity |].
  apply (finite_sessions_keep_values_nonnegative 1200 1 (fun c _ => c) 5
           ops_edit_to_full initialState).
  - constructor.
  - vm_compute. reflexivity.
Defined.

(** ** Sessions without drags: flows lead to the right *)

Lemma fresh_spec (now : string) (st : State) :
  fresh now st = true ->
  (forall s : Stage.t, In s (stages st) -> Stage.id s <> now)
  /\ (forall f : Flow.t, In f (flows st) ->
        Flow.fromStageId f <> now /\ Flow.toStageId f <> now).
Proof.
  unfold fresh. rewrite Bool.andb_true_iff, !forallb_forall.
  intros [Hs Hf]. split.
  - intros s Hin. specialize (Hs s Hin).
    now apply Bool.negb_true_iff, String.eqb_neq in Hs.
  - intros f Hin. specialize (Hf f Hin).
    apply Bool.andb_true_iff in Hf. destruct Hf as [H1 H2].
    apply Bool.negb_true_iff, String.eqb_neq in H1, H2. now split.
Qed.

Lemma rightward_related (pos pos' : string -> Q)
    (R : Flow.t -> Flow.t -> Prop) (l k : list Flow.t) :
  (forall f g : Flow.t, In f l -> R f g ->
     pos (Flow.fromStageId f) < pos (Flow.toStageId f) ->
     pos' (Flow.fromStageId g) < pos' (Flow.toStageId g)) ->
  Forall2 R l k -> rightward pos l -> rightward pos' k.
Proof.
  unfold rightward. intros HR H. induction H as [| f g l k Hfg _ IH];
    intros Hl; [constructor |].
  inversion Hl as [| ? ? Hf Hl']; subst. constructor.
  - apply (HR f g); [now left | exact Hfg | exact Hf].
  - apply IH; [| exact Hl']. intros f' g' Hin. apply HR. now right.
Qed.

Lemma rightward_frame (pos : string -> Q) (l k : list Flow.t) :
  Forall2 same_frame l k -> rightward pos l -> rightward pos k.
Proof.
  apply rightward_related. intros f g _ (_ & _ & Ef & Et & _) H.
  now rewrite <- Ef, <- Et.
Qed.

Lemma rightward_filter (pos : string -> Q) (p : Flow.t -> bool)
    (l : list Flow.t) :
  rightward pos l -> rightward pos (List.filter p l).
Proof.
  unfold rightward. rewrite !List.Forall_forall. intros H f Hf.
  apply filter_In in Hf. now apply H.
Qed.

Lemma rightward_recalculate (pos : string -> Q) (fuel : nat) (p : string)
    (l l' : list Flow.t) :
  rightward pos l -> recalculateSiblingFlowValues fuel p l = Some l' ->
  rightward pos l'.
Proof.
  intros H E. eapply rightward_frame; [| exact H].
  eapply recalculate_frame. exact E.
Qed.

(** What a click on a stage that changes the graph has done. *)
Lemma handleStageClick_change (now : string) (st : State)
    (editingStage : option Stage.t) (selectedStageId : option string)
    (stage : Stage.t) :
  let st' := handleStageClick now st editingStage selectedStageId stage in
  st' = st
  \/ exists (selected : string) (selectedStage : Stage.t)
            (kept : list Flow.t) (newFlow : Flow.t),
       Js.find (fun s => (Stage.id s =? selected)%string) (stages st)
       = Some selectedStage
       /\ Stage.position selectedStage < Stage.position stage
       /\ stages st' = stages st
       /\ flows st' = kept ++ [newFlow]
       /\ Forall2 same_frame (flows st) kept
       /\ Flow.fromStageId newFlow = selected
       /\ Flow.toStageId newFlow = Stage.id stage.
Proof.
  cbv zeta. unfold handleStageClick.
  destruct (match editingStage with Some _ => _ | None => _ end);
    [now left |].
  destruct selectedStageId as [selected |]; [| now left].
  destruct (_ && _); [| now left].
  destruct (Js.find _ (stages st)) as [selectedStage |] eqn:Ef; [| now left].
  destruct (Js.gt _ _) eqn:Egt; [| now left].
  apply gt_true_iff in Egt. right.
  destruct (branch_flows_shape (stages st) (flows st) now selected
              (Stage.id stage)
              (Some (Js.or_else (Stage.color stage) DEFAULT_COLOR)))
    as (kept & newFlow & E & Hk & _ & Hfrom & Hto).
  exists selected, selectedStage, kept, newFlow. cbn [stages flows].
  rewrite E. repeat (split; [first [reflexivity | assumption] |]).
  assumption.
Qed.

(** No flow enters the start stage. *)
Lemma positioned_root (pos : string -> Q) (st : State) :
  positioned pos st -> incomingOf "1" (flows st) = [].
Proof.
  intros (Hpos & Hroot & Hst & Hr).
  destruct (incomingOf "1" (flows st)) as [| f l] eqn:E; [reflexivity |].
  exfalso.
  assert (Hf : In f (incomingOf "1" (flows st))) by (rewrite E; now left).
  unfold incomingOf in Hf. apply filter_In in Hf. destruct Hf as [Hin Ht].
  apply String.eqb_eq in Ht.
  unfold rightward in Hr. rewrite List.Forall_forall in Hr.
  specialize (Hr f Hin). rewrite Ht in Hr.
  pose proof (Hst rootStage Hroot) as H1. cbn in H1.
  pose proof (Hpos (Flow.fromStageId f)). lra.
Qed.

Section NoDrag.

Variables canvasWidth zoom : Q.
Variable generateSimilarColor : string -> Q -> string.
Hypothesis canvasWidth_pos : 0 < canvasWidth.

Lemma positioned_applyOp (pos : string -> Q) (fuel : nat) (st st' : State)
    (op : Op) :
  positioned pos st ->
  match op with
  | BranchToCanvas _ _ _ now => fresh now st
  | _ => true
  end = true ->
  applyOp canvasWidth zoom generateSimilarColor fuel st op = Some st' ->
  exists pos' : string -> Q, positioned pos' st'.
Proof.
  intros Hp Hfresh. pose proof (positioned_root pos st Hp) as Hnoin.
  destruct Hp as (Hpos & Hroot & Hst & Hr).
  destruct op as [selected target now | selected clickX clickY now
                 | | flowId percent | stageId | flowId]; simpl.
  - (* link to a stage *)
    destruct (Js.find _ (stages st)) as [stage |] eqn:Et; intros [= <-];
      [| now exists pos].
    destruct (find_some_In _ _ _ Et) as [Hstage _].
    destruct (handleStageClick_change now st None (Some selected) stage)
      as [-> | (sel & selectedStage & kept & newFlow & Ef & Hlt & Es & El
                & Hk & Hfrom & Hto)]; [now exists pos |].
    exists pos. split; [exact Hpos |]. rewrite Es. split; [exact Hroot |].
    split; [exact Hst |]. rewrite El. apply Forall_app. split.
    + exact (rightward_frame pos _ _ Hk Hr).
    + constructor; [| constructor]. rewrite Hfrom, Hto.
      destruct (find_some_In _ _ _ Ef) as [Hsel Eid].
      apply String.eqb_eq in Eid. rewrite <- Eid.
      rewrite (Hst selectedStage Hsel), (Hst stage Hstage). exact Hlt.
  - (* branch to the canvas *)
    intros [= <-]. apply fresh_spec in Hfresh. destruct Hfresh as [Hfs Hff].
    destruct (handleCanvasClick_change canvasWidth zoom generateSimilarColor
                now st true (Some selected) clickX clickY)
      as [-> | (sel & fromStage & newStage & kept & newFlow & _ & _ & Ef & _
                & Es & Hid & _ & Hright & _ & El & Hk & Hfrom & Hto)];
      [now exists pos |].
    destruct (find_some_In _ _ _ Ef) as [Hsel Eid].
    apply String.eqb_eq in Eid.
    assert (Hlt : Stage.position fromStage < Stage.position newStage).
    { apply (getStageX_lt canvasWidth); [exact canvasWidth_pos | lra]. }
    set (pos' := fun s : string =>
                   if (s =? now)%string then Stage.position newStage
                   else pos s).
    assert (Hother : forall s : string, s <> now -> pos' s = pos s).
    { intros s Hs. apply String.eqb_neq in Hs. unfold pos'. now rewrite Hs. }
    assert (Hnow : pos' now = Stage.position newStage).
    { unfold pos'. now rewrite String.eqb_refl. }
    clearbody pos'. exists pos'.
    split; [| split; [| split]].
    + intros s. destruct (String.eqb_spec s now) as [-> | Hs].
      * rewrite Hnow. pose proof (Hst fromStage Hsel).
        pose proof (Hpos (Stage.id fromStage)). lra.
      * rewrite (Hother s Hs). apply Hpos.
    + rewrite Es. apply in_or_app. now left.
    + rewrite Es. intros s Hs. apply in_app_or in Hs. destruct Hs as [Hs | Hs].
      * rewrite (Hother _ (Hfs s Hs)). now apply Hst.
      * destruct Hs as [<- | []]. rewrite Hid, Hnow. reflexivity.
    + rewrite El. apply Forall_app. split.
      * apply (rightward_related pos pos' same_frame (flows st) kept);
          [| exact Hk | exact Hr].
        intros f g Hf (_ & _ & Efrom & Eto & _) Hfg.
        destruct (Hff f Hf) as [H1 H2].
        rewrite <- Efrom, <- Eto, (Hother _ H1), (Hother _ H2). exact Hfg.
      * constructor; [| constructor]. rewrite Hfrom, Hto, Hnow.
        rewrite <- Eid, (Hother _ (Hfs fromStage Hsel)).
        rewrite (Hst fromStage Hsel). exact Hlt.
  - (* rebalance *)
    intros [= <-]. exists pos. split; [exact Hpos |]. split; [exact Hroot |].
    split; [exact Hst |]. cbn [flows].
    apply (rightward_frame pos (flows st)); [| exact Hr].
    apply balanceFlows_frame, Forall2_frame_refl.
  - (* manual edit *)
    destruct (Js.find _ (flows st)) as [flow |] eqn:Ef;
      [| intros [= <-]; now exists pos].
    destruct (handleFlowUpdate _ _ _) as [l |] eqn:E; [| discriminate].
    intros [= <-]. exists pos. split; [exact Hpos |]. split; [exact Hroot |].
    split; [exact Hst |]. cbn [flows].
    destruct (handleFlowUpdate_frames _ _ _ l E) as [HF _]. cbv zeta in HF.
    destruct (find_some_In _ _ _ Ef) as [Hflow _].
    unfold rightward in Hr. pose proof Hr as Hr'.
    rewrite List.Forall_forall in Hr'. specialize (Hr' flow Hflow).
    eapply rightward_related; [| exact HF | exact Hr].
    intros f g _ Hfg Hlt. cbv beta in Hfg.
    destruct (Flow.id f =? _)%string;
      destruct Hfg as (_ & _ & Efrom & Eto & _); rewrite <- Efrom, <- Eto;
      [exact Hr' | exact Hlt].
  - (* delete a stage *)
    unfold handleStageDelete. cbv zeta.
    destruct (length _ =? 0)%nat eqn:E0; [intros [= <-]; now exists pos |].
    assert (Hne : stageId <> "1"%string).
    { intros ->. fold (incomingOf "1" (flows st)) in E0.
      rewrite Hnoin in E0. discriminate. }
    assert (Hroot' : In rootStage
                       (List.filter
                          (fun s => negb (Stage.id s =? stageId)%string)
                          (stages st))).
    { apply filter_In. split; [exact Hroot |].
      apply Bool.negb_true_iff, String.eqb_neq. cbn. congruence. }
    assert (Hst' : forall s : Stage.t,
              In s (List.filter
                      (fun s => negb (Stage.id s =? stageId)%string)
                      (stages st)) ->
              pos (Stage.id s) == Stage.position s).
    { intros s Hs. apply filter_In in Hs. now apply Hst. }
    pose proof (rightward_filter pos
                  (fun f => negb (Flow.fromStageId f =? stageId)%string
                            && negb (Flow.toStageId f =? stageId)%string)
                  (flows st) Hr) as Hr'.
    destruct (option_map Flow.fromStageId _) as [parent |];
      [| intros [= <-]; exists pos; repeat split; assumption].
    destruct (Js.truthy (Some parent));
      [| intros [= <-]; exists pos; repeat split; assumption].
    destruct (recalculateSiblingFlowValues fuel parent _) as [l' |] eqn:E;
      [| discriminate].
    intros [= <-]. exists pos.
    split; [exact Hpos |]. split; [exact Hroot' |]. split; [exact Hst' |].
    exact (rightward_recalculate pos fuel parent _ l' Hr' E).
  - (* disconnect a flow *)
    unfold handleDisconnectParent.
    destruct (Js.find _ (flows st)) as [flow |];
      [| intros [= <-]; now exists pos].
    cbv zeta.
    pose proof (rightward_filter pos
                  (fun f => negb (Flow.id f =? flowId)%string) (flows st) Hr)
      as Hr'.
    destruct (if Js.truthy (Some (Flow.fromStageId flow)) then _ else _)
      as [l1 |] eqn:E1; [| discriminate].
    assert (H1 : rightward pos l1).
    { destruct (Js.truthy (Some (Flow.fromStageId flow))).
      - exact (rightward_recalculate pos fuel _ _ l1 Hr' E1).
      - now injection E1 as <-. }
    destruct (Js.truthy (Some (Flow.toStageId flow))).
    + destruct (recalculateSiblingFlowValues fuel _ l1) as [l2 |] eqn:E2;
        [| discriminate].
      intros [= <-]. exists pos. split; [exact Hpos |].
      split; [exact Hroot |]. split; [exact Hst |].
      exact (rightward_recalculate pos fuel _ l1 l2 H1 E2).
    + intros [= <-]. exists pos. repeat split; assumption.
Qed.

Lemma positioned_run (fuel : nat) (ops : list Op) :
  forall (pos : string -> Q) (st st' : State),
    positioned pos st ->
    fresh_ops canvasWidth zoom generateSimilarColor fuel st ops = true ->
    run canvasWidth zoom generateSimilarColor fuel st ops = Some st' ->
    exists pos' : string -> Q, positioned pos' st'.
Proof.
  induction ops as [| op ops IH]; intros pos st st' Hp Hfresh; simpl.
  - intros [= <-]. now exists pos.
  - simpl in Hfresh. apply Bool.andb_true_iff in Hfresh.
    destruct Hfresh as [Hop Hrest].
    destruct (applyOp _ _ _ fuel st op) as [st1 |] eqn:E; [| discriminate].
    destruct (positioned_applyOp pos fuel st st1 op Hp Hop E) as [pos1 Hp1].
    now apply (IH pos1 st1 st').
Qed.

End NoDrag.

(** X21.  In a session without drags on a canvas of positive width, where
    every created stage gets a fresh id, every reached graph has all its
    flows leading from a stage to a stage further right; so it has no
    cycle, the start stage is still there and no flow enters it. *)
Theorem no_drag_flows_lead_rightwards (canvasWidth zoom : Q)
    (generateSimilarColor : string -> Q -> string) (fuel : nat)
    (ops : list Op) (st : State) :
  0 < canvasWidth ->
  fresh_ops canvasWidth zoom generateSimilarColor fuel initialState ops
  = true ->
  run canvasWidth zoom generateSimilarColor fuel initialState ops = Some st ->
  (exists pos : string -> Q,
     (forall s : Stage.t, In s (stages st) ->
        pos (Stage.id s) == Stage.position s)
     /\ rightward pos (flows st))
  /\ acyclic (flows st)
  /\ In rootStage (stages st)
  /\ incomingOf "1" (flows st) = [].
Proof.
  intros HW Hfresh Hrun.
  assert (H0 : positioned (fun _ => 0) initialState).
  { split; [intros _; lra |]. split; [now left |]. split.
    - intros s [<- | []]. reflexivity.
    - constructor. }
  destruct (positioned_run canvasWidth zoom generateSimilarColor HW fuel ops
              (fun _ => 0) initialState st H0 Hfresh Hrun) as [pos Hp].
  pose proof (positioned_root pos st Hp) as Hnoin.
  destruct Hp as (Hpos & Hroot & Hst & Hr).
  split; [now exists pos |]. split; [| now split].
  exists (flowsEndingRightOf pos (flows st)). now apply rightward_ranked.
Qed.

Lemma no_drag_flows_lead_rightwards_witness :
  exists st : State,
    run 1200 1 (fun c _ => c) 6 initialState ops_linked = Some st
    /\ acyclic (flows st)
    /\ incomingOf "1" (flows st) = [].
Proof.
  eexists. split; [vm_compute; reflexivity |].
  refine ((fun H => conj (proj1 (proj2 H)) (proj2 (proj2 (proj2 H))))
            (no_drag_flows_lead_rightwards 1200 1 (fun c _ => c) 6 ops_linked
               _ _ _ _)).
  - reflexivity.
  - vm_compute. reflexivity.
  - vm_compute. reflexivity.
Defined.
